(** * ANESE: the 6502 interpreter and the wideNES scene stitcher

    A shallow embedding of [CPU] (cpu.cc) and of [WideNESModule]
    (widenes.cc, widenes.h), with the properties of the specification
    stated over it.

    Conventions.
    - Unsigned C++ integers ([u8], [u16], [uint], the 64-bit cycle counter)
      are values of [Z] with their wrap-around written out.
    - Signed [int] values of wideNES (the global scroll, the paddings) are
      values of [Z]; signed overflow is undefined in C++, so the model
      describes the executions in which no [int] overflows.
    - The SDL side of wideNES (windows, textures, zoom and pan) and the
      diagnostics printed on stderr are not part of the model. *)

From stdpp Require Import base numbers option list gmap.

Local Open Scope Z_scope.

(** ** Fixed-width integers *)

Module Bits.

Definition u8 (z : Z) : Z := z mod 256.
Definition u16 (z : Z) : Z := z mod 65536.
Definition u32 (z : Z) : Z := z mod 4294967296.
Definition u64 (z : Z) : Z := z mod 18446744073709551616.

(** [i8(v)]: the byte [v] read as a signed 8-bit value. *)
Definition i8 (z : Z) : Z :=
  let b := u8 z in if b <? 128 then b else b - 256.

(** [(int)v] for a [uint] value [v]. *)
Definition int_of_uint (z : Z) : Z :=
  let w := u32 z in if w <? 2147483648 then w else w - 4294967296.

(** Modelled from the spec: the macro [nth_bit] of common/util.h, which is
    not among the sources; "N from bit 7 of result". *)
Definition nth_bit (x n : Z) : bool := Z.testbit x n.

Definition b2z (b : bool) : Z := if b then 1 else 0.

End Bits.

Import Bits.

(** ** The CPU *)

Module CPU.

(** *** Collaborators of the CPU

    cpu.h, the memory bus and the interrupt lines are not among the
    sources; they are modelled from the specification. *)

(** Modelled from the spec: [Interrupts::Type], "NONE, IRQ, NMI, RESET";
    [step] tests the value for truth, [NONE] being the zero value. *)
Inductive Interrupt : Type := NONE | IRQ | NMI | RESET.

(** Modelled from the spec: class [InterruptLines], one pending bit per
    kind. *)
Record InterruptLines : Type := mkLines {
  pending_reset : bool;
  pending_nmi : bool;
  pending_irq : bool
}.

(** Modelled from the spec: [InterruptLines::get], "returns the
    highest-priority pending kind, or NONE", priority RESET > NMI > IRQ. *)
Definition lines_get (l : InterruptLines) : Interrupt :=
  if pending_reset l then RESET
  else if pending_nmi l then NMI
  else if pending_irq l then IRQ
  else NONE.

(** Modelled from the spec: [InterruptLines::request], "producers mark a
    line pending". *)
Definition lines_request (k : Interrupt) (l : InterruptLines) : InterruptLines :=
  match k with
  | RESET => mkLines true (pending_nmi l) (pending_irq l)
  | NMI => mkLines (pending_reset l) true (pending_irq l)
  | IRQ => mkLines (pending_reset l) (pending_nmi l) true
  | NONE => l
  end.

(** Modelled from the spec: [InterruptLines::service], "clears that kind's
    pending bit". *)
Definition lines_service (k : Interrupt) (l : InterruptLines) : InterruptLines :=
  match k with
  | RESET => mkLines false (pending_nmi l) (pending_irq l)
  | NMI => mkLines (pending_reset l) false (pending_irq l)
  | IRQ => mkLines (pending_reset l) (pending_nmi l) false
  | NONE => l
  end.

(** Modelled from the spec: class [Memory], the 16-bit bus the CPU reads and
    writes.  The bus is abstract in the program; here it is a flat 64 KiB
    RAM, a function from addresses to bytes. *)
Definition Memory : Type := Z -> Z.

(** Modelled from the spec: [Memory::read], [read(addr:u16) -> u8]. *)
Definition mem_read (m : Memory) (addr : Z) : Z := u8 (m (u16 addr)).

(** Modelled from the spec: [Memory::write], [write(addr:u16, val:u8)]. *)
Definition mem_write (m : Memory) (addr val : Z) : Memory :=
  fun a => if a =? u16 addr then u8 val else m a.

(** Modelled from the spec: [Memory::read16], "little-endian, two
    consecutive reads". *)
Definition mem_read16 (m : Memory) (addr : Z) : Z :=
  Z.lor (mem_read m addr) (Z.shiftl (mem_read m (addr + 1)) 8).

(** Modelled from the spec: [Memory::read16_zpg], "low byte at addr, high
    byte at (addr+1) & 0xFF".  [get_operand_addr] also calls it with the
    16-bit pointer of an indirect JMP, for which the specification says that
    the pointer at $xxFF "reads high from $xx00": the high byte is fetched
    in the page of [addr], at the low address byte plus one modulo 256.  For
    a zero-page [addr] that is [(addr+1) & 0xFF]. *)
Definition mem_read16_zpg (m : Memory) (addr : Z) : Z :=
  Z.lor (mem_read m addr)
        (Z.shiftl
           (mem_read m (Z.lor (Z.land addr 0xFF00) (Z.land (addr + 1) 0x00FF)))
           8).

(** Modelled from the spec: [CPU::State], "A variant Running | Halted". *)
Inductive State : Type := Running | Halted.

(** Modelled from the spec: the members of class [CPU] (cpu.h): the
    registers [reg.a], [reg.x], [reg.y], [reg.s], [reg.pc], the status byte
    [reg.p.raw], the 64-bit cycle counter and the state, together with the
    memory and the interrupt lines the CPU is bound to. *)
Record CPU : Type := mkCPU {
  reg_a : Z;
  reg_x : Z;
  reg_y : Z;
  reg_s : Z;
  reg_pc : Z;
  reg_p : Z;
  cycles : Z;
  state : State;
  mem : Memory;
  interrupt : InterruptLines
}.

Definition with_a (v : Z) (c : CPU) : CPU :=
  mkCPU v (reg_x c) (reg_y c) (reg_s c) (reg_pc c) (reg_p c) (cycles c)
        (state c) (mem c) (interrupt c).
Definition with_x (v : Z) (c : CPU) : CPU :=
  mkCPU (reg_a c) v (reg_y c) (reg_s c) (reg_pc c) (reg_p c) (cycles c)
        (state c) (mem c) (interrupt c).
Definition with_y (v : Z) (c : CPU) : CPU :=
  mkCPU (reg_a c) (reg_x c) v (reg_s c) (reg_pc c) (reg_p c) (cycles c)
        (state c) (mem c) (interrupt c).
Definition with_s (v : Z) (c : CPU) : CPU :=
  mkCPU (reg_a c) (reg_x c) (reg_y c) v (reg_pc c) (reg_p c) (cycles c)
        (state c) (mem c) (interrupt c).
Definition with_pc (v : Z) (c : CPU) : CPU :=
  mkCPU (reg_a c) (reg_x c) (reg_y c) (reg_s c) v (reg_p c) (cycles c)
        (state c) (mem c) (interrupt c).
Definition with_p (v : Z) (c : CPU) : CPU :=
  mkCPU (reg_a c) (reg_x c) (reg_y c) (reg_s c) (reg_pc c) v (cycles c)
        (state c) (mem c) (interrupt c).
Definition with_cycles (v : Z) (c : CPU) : CPU :=
  mkCPU (reg_a c) (reg_x c) (reg_y c) (reg_s c) (reg_pc c) (reg_p c) v
        (state c) (mem c) (interrupt c).
Definition with_state (v : State) (c : CPU) : CPU :=
  mkCPU (reg_a c) (reg_x c) (reg_y c) (reg_s c) (reg_pc c) (reg_p c) (cycles c)
        v (mem c) (interrupt c).
Definition with_mem (v : Memory) (c : CPU) : CPU :=
  mkCPU (reg_a c) (reg_x c) (reg_y c) (reg_s c) (reg_pc c) (reg_p c) (cycles c)
        (state c) v (interrupt c).
Definition with_interrupt (v : InterruptLines) (c : CPU) : CPU :=
  mkCPU (reg_a c) (reg_x c) (reg_y c) (reg_s c) (reg_pc c) (reg_p c) (cycles c)
        (state c) (mem c) v.

(** Modelled from the spec: the bit-fields of [reg.p] (cpu.h); the layout
    is the one [power_cycle] documents for 0x34, "Interrupt = 1, Break = 1,
    Unused = 1": C Z I D B U V N from bit 0 to bit 7. *)
Inductive Flag : Type := fC | fZ | fI | fD | fB | fU | fV | fN.

Definition flag_bit (f : Flag) : Z :=
  match f with
  | fC => 0 | fZ => 1 | fI => 2 | fD => 3
  | fB => 4 | fU => 5 | fV => 6 | fN => 7
  end.

Definition flag_of (raw : Z) (f : Flag) : bool := Z.testbit raw (flag_bit f).

Definition flag_set (raw : Z) (f : Flag) (b : bool) : Z :=
  if b then Z.lor raw (Z.shiftl 1 (flag_bit f))
  else Z.land raw (Z.lnot (Z.shiftl 1 (flag_bit f))).

(** *** Opcode descriptors (instructions.h, not among the sources) *)

Inductive Instr : Type :=
| I_INVALID
| ADC | AND | ASL | BCC | BCS | BEQ | BIT | BMI | BNE | BPL | BRK | BVC | BVS
| CLC | CLD | CLI | CLV | CMP | CPX | CPY | DEC | DEX | DEY | EOR | INC | INX
| INY | JMP | JSR | LDA | LDX | LDY | LSR | NOP | ORA | PHA | PHP | PLA | PLP
| ROL | ROR | RTI | RTS | SBC | SEC | SED | SEI | STA | STX | STY | TAX | TAY
| TSX | TXA | TXS | TYA.

Inductive AddrM : Type :=
| M_INVALID
| abs_ | absX | absY | ind_ | indY | Xind | zpg_ | zpgX | zpgY
| rel | imm | acc | impl.

Record Opcode : Type := mkOpcode {
  op_instr : Instr;
  op_addrm : AddrM;
  op_cycles : Z;
  op_check_pg_cross : bool
}.

(** *** The state monad of the interpreter *)

Definition M (A : Type) : Type := CPU -> A * CPU.

Definition ret {A : Type} (a : A) : M A := fun c => (a, c).

Definition bind {A B : Type} (m : M A) (k : A -> M B) : M B :=
  fun c => let (a, c') := m c in k a c'.

Definition gets {A : Type} (f : CPU -> A) : M A := fun c => (f c, c).

Definition modify (f : CPU -> CPU) : M unit := fun c => (tt, f c).

Declare Scope cpu_scope.
Delimit Scope cpu_scope with cpu.
Notation "'let*' x ':=' m 'in' k" := (bind m (fun x => k))
  (at level 10, x name, m at level 100, k at level 200) : cpu_scope.
Notation "m ';;' k" := (bind m (fun _ => k))
  (at level 100, k at level 200, right associativity) : cpu_scope.

Local Open Scope cpu_scope.

Definition rd (addr : Z) : M Z := gets (fun c => mem_read (mem c) addr).
Definition rd16 (addr : Z) : M Z := gets (fun c => mem_read16 (mem c) addr).
Definition rd16_zpg (addr : Z) : M Z :=
  gets (fun c => mem_read16_zpg (mem c) addr).
Definition wr (addr val : Z) : M unit :=
  modify (fun c => with_mem (mem_write (mem c) addr val) c).

Definition set_a (v : Z) : M unit := modify (with_a (u8 v)).
Definition set_x (v : Z) : M unit := modify (with_x (u8 v)).
Definition set_y (v : Z) : M unit := modify (with_y (u8 v)).
Definition set_s (v : Z) : M unit := modify (with_s (u8 v)).
Definition set_pc (v : Z) : M unit := modify (with_pc (u16 v)).
Definition set_p (v : Z) : M unit := modify (with_p (u8 v)).
Definition add_cycles (n : Z) : M unit :=
  modify (fun c => with_cycles (u64 (cycles c + n)) c).
Definition set_state (v : State) : M unit := modify (with_state v).

Definition flag (f : Flag) : M bool := gets (fun c => flag_of (reg_p c) f).
Definition set_flag (f : Flag) (b : bool) : M unit :=
  modify (fun c => with_p (flag_set (reg_p c) f b) c).

(** *** cpu.cc *)

(** [CPU::power_cycle]. *)
Definition power_cycle (c : CPU) : CPU :=
  with_state Running
    (with_s 0xFD
       (with_y 0x00 (with_x 0x00 (with_a 0x00 (with_p 0x34 (with_cycles 0 c)))))).

(** [CPU::reset]. *)
Definition reset (c : CPU) : CPU :=
  with_state Running
    (with_p (flag_set (reg_p c) fI true) (with_s (u8 (reg_s c - 3)) c)).

(** [CPU::getState]. *)
Definition getState (c : CPU) : State := state c.

(** [CPU::s_pull]: [mem[0x0100 + ++reg.s]]. *)
Definition s_pull : M Z :=
  let* s := gets reg_s in
  set_s (s + 1);;
  let* s' := gets reg_s in
  rd (0x0100 + s').

(** [CPU::s_push]: [mem[0x0100 + reg.s--] = val]. *)
Definition s_push (val : Z) : M unit :=
  let* s := gets reg_s in
  set_s (s - 1);;
  wr (0x0100 + s) val.

(** [CPU::s_pull16]. *)
Definition s_pull16 : M Z :=
  let* lo := s_pull in
  let* hi := s_pull in
  ret (u16 (Z.lor (Z.shiftl hi 8) lo)).

(** [CPU::s_push16]. *)
Definition s_push16 (val : Z) : M unit :=
  s_push (Z.shiftr (u16 val) 8);;
  s_push (Z.land (u16 val) 0xFF).

(** [CPU::service_interrupt], in the build without NESTEST.  The leading
    [assert(interrupt != NONE)] is a precondition: [step] and BRK only call
    with a kind other than [NONE]. *)
Definition service_interrupt (i : Interrupt) (brk : bool) : M unit :=
  set_flag fI true;;
  (match i with
   | RESET => ret tt
   | _ => (let* pc := gets reg_pc in
           s_push16 pc;;
           let* p := gets reg_p in
           s_push p)
   end);;
  add_cycles 7;;
  (match i with
   | IRQ => (let* pi := flag fI in
             if brk || negb pi
             then (let* v := rd16 0xFFFE in set_pc v)
             else ret tt)
   | RESET => (let* v := rd16 0xFFFC in set_pc v)
   | NMI => (let* v := rd16 0xFFFA in set_pc v)
   | NONE => ret tt
   end);;
  modify (fun c => with_interrupt (lines_service i (interrupt c)) c).

(** The macros [arg8] and [arg16] of [get_operand_addr]. *)
Definition arg8 : M Z :=
  let* pc := gets reg_pc in
  set_pc (pc + 1);;
  rd pc.

Definition arg16 : M Z :=
  let* pc := gets reg_pc in
  set_pc (pc + 2);;
  let* pc' := gets reg_pc in
  rd16 (u16 (pc' - 2)).

(** The macro [did_pg_cross]. *)
Definition did_pg_cross (a b : Z) : bool :=
  negb (Z.land a 0xFF00 =? Z.land b 0xFF00).

(** [CPU::get_operand_addr]. *)
Definition get_operand_addr (opcode : Opcode) : M Z :=
  match op_addrm opcode with
  | M_INVALID => ret 0xBAD
  | m =>
    let* addr :=
      (match m with
       | abs_ => arg16
       | absX => (let* w := arg16 in let* x := gets reg_x in ret (u16 (w + x)))
       | absY => (let* w := arg16 in let* y := gets reg_y in ret (u16 (w + y)))
       | ind_ => (let* w := arg16 in rd16_zpg w)
       | indY => (let* b := arg8 in
                  let* w := rd16_zpg b in
                  let* y := gets reg_y in ret (u16 (w + y)))
       | Xind => (let* b := arg8 in
                  let* x := gets reg_x in rd16_zpg (Z.land (b + x) 0xFF))
       | zpg_ => arg8
       | zpgX => (let* b := arg8 in
                  let* x := gets reg_x in ret (Z.land (b + x) 0xFF))
       | zpgY => (let* b := arg8 in
                  let* y := gets reg_y in ret (Z.land (b + y) 0xFF))
       | rel => (let* pc := gets reg_pc in set_pc (pc + 1);; ret pc)
       | imm => (let* pc := gets reg_pc in set_pc (pc + 1);; ret pc)
       | acc => gets reg_a
       | impl => ret (u8 0xFACA11)
       | M_INVALID => ret 0xBAD
       end) in
    (if op_check_pg_cross opcode
     then match m with
          | absX => (let* x := gets reg_x in
                     add_cycles (b2z (did_pg_cross (addr - x) addr)))
          | absY => (let* y := gets reg_y in
                     add_cycles (b2z (did_pg_cross (addr - y) addr)))
          | indY => (let* y := gets reg_y in
                     add_cycles (b2z (did_pg_cross (addr - y) addr)))
          | _ => ret tt
          end
     else ret tt);;
    ret addr
  end.

(** The macro [set_zn] of [step]. *)
Definition set_zn (val : Z) : M unit :=
  set_flag fZ (val =? 0);;
  set_flag fN (nth_bit val 7).

(** The macro [branch] of [step]. *)
Definition branch (cond : bool) (addr : Z) : M unit :=
  if negb cond then ret tt
  else
    let* m := rd addr in
    let offset := i8 m in
    add_cycles 1;;
    let* pc := gets reg_pc in
    (if negb (Z.land pc 0xFF00 =? Z.land (pc + offset) 0xFF00)
     then add_cycles 2 else ret tt);;
    let* pc' := gets reg_pc in
    set_pc (pc' + offset).

(** The instruction switch of [step]. *)
Definition exec (opcode : Opcode) (addr : Z) : M unit :=
  match op_instr opcode with
  | JMP => set_pc addr
  | LDX => (let* v := rd addr in set_x v;; let* x := gets reg_x in set_zn x)
  | STX => (let* x := gets reg_x in wr addr x)
  | JSR => (let* pc := gets reg_pc in s_push16 (pc - 1);; set_pc addr)
  | NOP => ret tt
  | SEC => set_flag fC true
  | CLC => set_flag fC false
  | CLI => set_flag fI false
  | BCS => (let* c := flag fC in branch c addr)
  | BCC => (let* c := flag fC in branch (negb c) addr)
  | BEQ => (let* z := flag fZ in branch z addr)
  | BNE => (let* z := flag fZ in branch (negb z) addr)
  | LDA => (let* v := rd addr in set_a v;; let* a := gets reg_a in set_zn a)
  | STA => (let* a := gets reg_a in wr addr a)
  | BIT => (let* m := rd addr in
            let* a := gets reg_a in
            set_flag fZ (Z.land a m =? 0);;
            set_flag fV (nth_bit m 6);;
            set_flag fN (nth_bit m 7))
  | BVS => (let* v := flag fV in branch v addr)
  | BVC => (let* v := flag fV in branch (negb v) addr)
  | BPL => (let* n := flag fN in branch (negb n) addr)
  | RTS => (let* w := s_pull16 in set_pc (w + 1))
  | AND => (let* m := rd addr in
            let* a := gets reg_a in
            set_a (Z.land a m);;
            let* a' := gets reg_a in set_zn a')
  | SEI => set_flag fI true
  | SED => set_flag fD true
  | PHP => (let* p := gets reg_p in s_push p)
  | PLA => (let* v := s_pull in set_a v;; let* a := gets reg_a in set_zn a)
  | CMP => (let* val := rd addr in
            let* a := gets reg_a in
            set_flag fC (val <=? a);;
            set_zn (a - val))
  | CLD => set_flag fD false
  | PHA => (let* a := gets reg_a in s_push a)
  | PLP => (let* v := s_pull in set_p (Z.lor v 0x20))
  | BMI => (let* n := flag fN in branch n addr)
  | ORA => (let* m := rd addr in
            let* a := gets reg_a in
            set_a (Z.lor a m);;
            let* a' := gets reg_a in set_zn a')
  | CLV => set_flag fV false
  | EOR => (let* m := rd addr in
            let* a := gets reg_a in
            set_a (Z.lxor a m);;
            let* a' := gets reg_a in set_zn a')
  | ADC => (let* val := rd addr in
            let* a := gets reg_a in
            let* c := flag fC in
            let sum := u16 (a + val + b2z c) in
            set_flag fC (0xFF <? sum);;
            set_flag fZ (u8 sum =? 0);;
            set_flag fV
              (negb (Z.land (Z.land (Z.lnot (Z.lxor a val)) (Z.lxor a sum)) 0x80
                     =? 0));;
            set_flag fN (nth_bit (u8 sum) 7);;
            set_a (u8 sum))
  | SBC => (let* val := rd addr in
            let* a := gets reg_a in
            let* c := flag fC in
            let sum := u16 (a + Z.lnot val + b2z c) in
            set_flag fC (negb (0xFF <? sum));;
            set_flag fZ (u8 sum =? 0);;
            set_flag fV
              (negb (Z.land
                       (Z.land (Z.lnot (Z.lxor a (Z.lnot val))) (Z.lxor a sum))
                       0x80 =? 0));;
            set_flag fN (nth_bit (u8 sum) 7);;
            set_a (u8 sum))
  | LDY => (let* v := rd addr in set_y v;; let* y := gets reg_y in set_zn y)
  | CPY => (let* val := rd addr in
            let* y := gets reg_y in
            set_flag fC (val <=? y);;
            set_zn (y - val))
  | CPX => (let* val := rd addr in
            let* x := gets reg_x in
            set_flag fC (val <=? x);;
            set_zn (x - val))
  | INY => (let* y := gets reg_y in
            set_y (y + 1);; let* y' := gets reg_y in set_zn y')
  | INX => (let* x := gets reg_x in
            set_x (x + 1);; let* x' := gets reg_x in set_zn x')
  | DEY => (let* y := gets reg_y in
            set_y (y - 1);; let* y' := gets reg_y in set_zn y')
  | DEX => (let* x := gets reg_x in
            set_x (x - 1);; let* x' := gets reg_x in set_zn x')
  | STY => (let* y := gets reg_y in wr addr y)
  | TAY => (let* a := gets reg_a in
            set_y a;; let* y := gets reg_y in set_zn y)
  | TAX => (let* a := gets reg_a in
            set_x a;; let* x := gets reg_x in set_zn x)
  | TYA => (let* y := gets reg_y in
            set_a y;; let* a := gets reg_a in set_zn a)
  | TXA => (let* x := gets reg_x in
            set_a x;; let* a := gets reg_a in set_zn a)
  | TSX => (let* s := gets reg_s in
            set_x s;; let* x := gets reg_x in set_zn x)
  | TXS => (let* x := gets reg_x in set_s x)
  | RTI => (let* v := s_pull in
            set_p (Z.lor v 0x20);;
            let* w := s_pull16 in set_pc w)
  | BRK => service_interrupt IRQ true
  | LSR => match op_addrm opcode with
           | acc => (let* a := gets reg_a in
                     set_flag fC (nth_bit a 0);;
                     set_a (Z.shiftr a 1);;
                     let* a' := gets reg_a in set_zn a')
           | _ => (let* val := rd addr in
                   set_flag fC (nth_bit val 0);;
                   let val' := u8 (Z.shiftr val 1) in
                   set_zn val';;
                   wr addr val')
           end
  | ASL => match op_addrm opcode with
           | acc => (let* a := gets reg_a in
                     set_flag fC (nth_bit a 7);;
                     set_a (Z.shiftl a 1);;
                     let* a' := gets reg_a in set_zn a')
           | _ => (let* val := rd addr in
                   set_flag fC (nth_bit val 7);;
                   let val' := u8 (Z.shiftl val 1) in
                   set_zn val';;
                   wr addr val')
           end
  | ROR => match op_addrm opcode with
           | acc => (let* a := gets reg_a in
                     let old_bit_0 := nth_bit a 0 in
                     let* c := flag fC in
                     set_a (Z.lor (Z.shiftr a 1) (Z.shiftl (b2z c) 7));;
                     set_flag fC old_bit_0;;
                     let* a' := gets reg_a in set_zn a')
           | _ => (let* val := rd addr in
                   let old_bit_0 := nth_bit val 0 in
                   let* c := flag fC in
                   let val' := u8 (Z.lor (Z.shiftr val 1) (Z.shiftl (b2z c) 7)) in
                   set_flag fC old_bit_0;;
                   set_zn val';;
                   wr addr val')
           end
  | ROL => match op_addrm opcode with
           | acc => (let* a := gets reg_a in
                     let old_bit_0 := nth_bit a 7 in
                     let* c := flag fC in
                     set_a (Z.lor (Z.shiftl a 1) (b2z c));;
                     set_flag fC old_bit_0;;
                     let* a' := gets reg_a in set_zn a')
           | _ => (let* val := rd addr in
                   let old_bit_0 := nth_bit val 7 in
                   let* c := flag fC in
                   let val' := u8 (Z.lor (Z.shiftl val 1) (b2z c)) in
                   set_flag fC old_bit_0;;
                   set_zn val';;
                   wr addr val')
           end
  | INC => (let* val := rd addr in
            let val' := u8 (val + 1) in
            set_zn val';;
            wr addr val')
  | DEC => (let* val := rd addr in
            let val' := u8 (val - 1) in
            set_zn val';;
            wr addr val')
  | I_INVALID => set_state Halted
  end.

Section Step.

(** The table [Instructions::Opcodes] of instructions.h, which is not among
    the sources: [step] is stated for any 256-entry table. *)
Variable Opcodes : Z -> Opcode.

(** [CPU::step]: the state after the call and the value returned. *)
Definition step : M Z :=
  let* c0 := gets cycles in
  let old_cycles := u32 c0 in
  let* i := gets (fun c => lines_get (interrupt c)) in
  match i with
  | NONE =>
    let* op := arg8 in
    let opcode := Opcodes op in
    let* addr := get_operand_addr opcode in
    exec opcode addr;;
    add_cycles (op_cycles opcode);;
    let* c1 := gets cycles in
    ret (u32 (c1 - old_cycles))
  | _ =>
    service_interrupt i false;;
    let* c1 := gets cycles in
    ret (u32 (c1 - old_cycles))
  end.

End Step.

(** *** Vocabulary of the branch instructions

    The page of an address, the PC after the two bytes of a branch have been
    consumed, the signed offset read from the operand, the target of the
    branch, and the condition each Bxx case of [step] hands to [branch]. *)

Definition page (a : Z) : Z := Z.land a 0xFF00.
Definition post_pc (c : CPU) : Z := u16 (reg_pc c + 2).
Definition branch_offset (c : CPU) : Z := i8 (mem_read (mem c) (reg_pc c + 1)).
Definition branch_target (c : CPU) : Z := u16 (post_pc c + branch_offset c).
Definition branch_cond (i : Instr) (p : Z) : option bool :=
  match i with
  | BCS => Some (flag_of p fC)
  | BCC => Some (negb (flag_of p fC))
  | BEQ => Some (flag_of p fZ)
  | BNE => Some (negb (flag_of p fZ))
  | BVS => Some (flag_of p fV)
  | BVC => Some (negb (flag_of p fV))
  | BMI => Some (flag_of p fN)
  | BPL => Some (negb (flag_of p fN))
  | _ => None
  end.

(** Modelled from the spec: the table [Instructions::Opcodes] of
    instructions.h, which is not among the sources: "the standard legal 6502
    ISA", and "unused opcodes resolve to (INVALID, INVALID, 0, false)".  An
    entry is (instruction, addressing mode, base cycles, page-cross check). *)
Definition legal_opcodes (op : Z) : Opcode :=
  match op with
  | 0x00 => mkOpcode BRK impl 7 false
  | 0x01 => mkOpcode ORA Xind 6 false
  | 0x05 => mkOpcode ORA zpg_ 3 false
  | 0x06 => mkOpcode ASL zpg_ 5 false
  | 0x08 => mkOpcode PHP impl 3 false
  | 0x09 => mkOpcode ORA imm 2 false
  | 0x0A => mkOpcode ASL acc 2 false
  | 0x0D => mkOpcode ORA abs_ 4 false
  | 0x0E => mkOpcode ASL abs_ 6 false
  | 0x10 => mkOpcode BPL rel 2 false
  | 0x11 => mkOpcode ORA indY 5 true
  | 0x15 => mkOpcode ORA zpgX 4 false
  | 0x16 => mkOpcode ASL zpgX 6 false
  | 0x18 => mkOpcode CLC impl 2 false
  | 0x19 => mkOpcode ORA absY 4 true
  | 0x1D => mkOpcode ORA absX 4 true
  | 0x1E => mkOpcode ASL absX 7 false
  | 0x20 => mkOpcode JSR abs_ 6 false
  | 0x21 => mkOpcode AND Xind 6 false
  | 0x24 => mkOpcode BIT zpg_ 3 false
  | 0x25 => mkOpcode AND zpg_ 3 false
  | 0x26 => mkOpcode ROL zpg_ 5 false
  | 0x28 => mkOpcode PLP impl 4 false
  | 0x29 => mkOpcode AND imm 2 false
  | 0x2A => mkOpcode ROL acc 2 false
  | 0x2C => mkOpcode BIT abs_ 4 false
  | 0x2D => mkOpcode AND abs_ 4 false
  | 0x2E => mkOpcode ROL abs_ 6 false
  | 0x30 => mkOpcode BMI rel 2 false
  | 0x31 => mkOpcode AND indY 5 true
  | 0x35 => mkOpcode AND zpgX 4 false
  | 0x36 => mkOpcode ROL zpgX 6 false
  | 0x38 => mkOpcode SEC impl 2 false
  | 0x39 => mkOpcode AND absY 4 true
  | 0x3D => mkOpcode AND absX 4 true
  | 0x3E => mkOpcode ROL absX 7 false
  | 0x40 => mkOpcode RTI impl 6 false
  | 0x41 => mkOpcode EOR Xind 6 false
  | 0x45 => mkOpcode EOR zpg_ 3 false
  | 0x46 => mkOpcode LSR zpg_ 5 false
  | 0x48 => mkOpcode PHA impl 3 false
  | 0x49 => mkOpcode EOR imm 2 false
  | 0x4A => mkOpcode LSR acc 2 false
  | 0x4C => mkOpcode JMP abs_ 3 false
  | 0x4D => mkOpcode EOR abs_ 4 false
  | 0x4E => mkOpcode LSR abs_ 6 false
  | 0x50 => mkOpcode BVC rel 2 false
  | 0x51 => mkOpcode EOR indY 5 true
  | 0x55 => mkOpcode EOR zpgX 4 false
  | 0x56 => mkOpcode LSR zpgX 6 false
  | 0x58 => mkOpcode CLI impl 2 false
  | 0x59 => mkOpcode EOR absY 4 true
  | 0x5D => mkOpcode EOR absX 4 true
  | 0x5E => mkOpcode LSR absX 7 false
  | 0x60 => mkOpcode RTS impl 6 false
  | 0x61 => mkOpcode ADC Xind 6 false
  | 0x65 => mkOpcode ADC zpg_ 3 false
  | 0x66 => mkOpcode ROR zpg_ 5 false
  | 0x68 => mkOpcode PLA impl 4 false
  | 0x69 => mkOpcode ADC imm 2 false
  | 0x6A => mkOpcode ROR acc 2 false
  | 0x6C => mkOpcode JMP ind_ 5 false
  | 0x6D => mkOpcode ADC abs_ 4 false
  | 0x6E => mkOpcode ROR abs_ 6 false
  | 0x70 => mkOpcode BVS rel 2 false
  | 0x71 => mkOpcode ADC indY 5 true
  | 0x75 => mkOpcode ADC zpgX 4 false
  | 0x76 => mkOpcode ROR zpgX 6 false
  | 0x78 => mkOpcode SEI impl 2 false
  | 0x79 => mkOpcode ADC absY 4 true
  | 0x7D => mkOpcode ADC absX 4 true
  | 0x7E => mkOpcode ROR absX 7 false
  | 0x81 => mkOpcode STA Xind 6 false
  | 0x84 => mkOpcode STY zpg_ 3 false
  | 0x85 => mkOpcode STA zpg_ 3 false
  | 0x86 => mkOpcode STX zpg_ 3 false
  | 0x88 => mkOpcode DEY impl 2 false
  | 0x8A => mkOpcode TXA impl 2 false
  | 0x8C => mkOpcode STY abs_ 4 false
  | 0x8D => mkOpcode STA abs_ 4 false
  | 0x8E => mkOpcode STX abs_ 4 false
  | 0x90 => mkOpcode BCC rel 2 false
  | 0x91 => mkOpcode STA indY 6 false
  | 0x94 => mkOpcode STY zpgX 4 false
  | 0x95 => mkOpcode STA zpgX 4 false
  | 0x96 => mkOpcode STX zpgY 4 false
  | 0x98 => mkOpcode TYA impl 2 false
  | 0x99 => mkOpcode STA absY 5 false
  | 0x9A => mkOpcode TXS impl 2 false
  | 0x9D => mkOpcode STA absX 5 false
  | 0xA0 => mkOpcode LDY imm 2 false
  | 0xA1 => mkOpcode LDA Xind 6 false
  | 0xA2 => mkOpcode LDX imm 2 false
  | 0xA4 => mkOpcode LDY zpg_ 3 false
  | 0xA5 => mkOpcode LDA zpg_ 3 false
  | 0xA6 => mkOpcode LDX zpg_ 3 false
  | 0xA8 => mkOpcode TAY impl 2 false
  | 0xA9 => mkOpcode LDA imm 2 false
  | 0xAA => mkOpcode TAX impl 2 false
  | 0xAC => mkOpcode LDY abs_ 4 false
  | 0xAD => mkOpcode LDA abs_ 4 false
  | 0xAE => mkOpcode LDX abs_ 4 false
  | 0xB0 => mkOpcode BCS rel 2 false
  | 0xB1 => mkOpcode LDA indY 5 true
  | 0xB4 => mkOpcode LDY zpgX 4 false
  | 0xB5 => mkOpcode LDA zpgX 4 false
  | 0xB6 => mkOpcode LDX zpgY 4 false
  | 0xB8 => mkOpcode CLV impl 2 false
  | 0xB9 => mkOpcode LDA absY 4 true
  | 0xBA => mkOpcode TSX impl 2 false
  | 0xBC => mkOpcode LDY absX 4 true
  | 0xBD => mkOpcode LDA absX 4 true
  | 0xBE => mkOpcode LDX absY 4 true
  | 0xC0 => mkOpcode CPY imm 2 false
  | 0xC1 => mkOpcode CMP Xind 6 false
  | 0xC4 => mkOpcode CPY zpg_ 3 false
  | 0xC5 => mkOpcode CMP zpg_ 3 false
  | 0xC6 => mkOpcode DEC zpg_ 5 false
  | 0xC8 => mkOpcode INY impl 2 false
  | 0xC9 => mkOpcode CMP imm 2 false
  | 0xCA => mkOpcode DEX impl 2 false
  | 0xCC => mkOpcode CPY abs_ 4 false
  | 0xCD => mkOpcode CMP abs_ 4 false
  | 0xCE => mkOpcode DEC abs_ 6 false
  | 0xD0 => mkOpcode BNE rel 2 false
  | 0xD1 => mkOpcode CMP indY 5 true
  | 0xD5 => mkOpcode CMP zpgX 4 false
  | 0xD6 => mkOpcode DEC zpgX 6 false
  | 0xD8 => mkOpcode CLD impl 2 false
  | 0xD9 => mkOpcode CMP absY 4 true
  | 0xDD => mkOpcode CMP absX 4 true
  | 0xDE => mkOpcode DEC absX 7 false
  | 0xE0 => mkOpcode CPX imm 2 false
  | 0xE1 => mkOpcode SBC Xind 6 false
  | 0xE4 => mkOpcode CPX zpg_ 3 false
  | 0xE5 => mkOpcode SBC zpg_ 3 false
  | 0xE6 => mkOpcode INC zpg_ 5 false
  | 0xE8 => mkOpcode INX impl 2 false
  | 0xE9 => mkOpcode SBC imm 2 false
  | 0xEA => mkOpcode NOP impl 2 false
  | 0xEC => mkOpcode CPX abs_ 4 false
  | 0xED => mkOpcode SBC abs_ 4 false
  | 0xEE => mkOpcode INC abs_ 6 false
  | 0xF0 => mkOpcode BEQ rel 2 false
  | 0xF1 => mkOpcode SBC indY 5 true
  | 0xF5 => mkOpcode SBC zpgX 4 false
  | 0xF6 => mkOpcode INC zpgX 6 false
  | 0xF8 => mkOpcode SED impl 2 false
  | 0xF9 => mkOpcode SBC absY 4 true
  | 0xFD => mkOpcode SBC absX 4 true
  | 0xFE => mkOpcode INC absX 7 false
  | _ => mkOpcode I_INVALID M_INVALID 0 false
  end.

End CPU.

(** ** Concrete machines used by the examples *)

Module Scenarios.

Import CPU.

Definition no_lines : InterruptLines := mkLines false false false.

(** RAM holding [bytes] from address [base] on, zero elsewhere. *)
Definition ram_at (base : Z) (bytes : list Z) (rest : Memory) : Memory :=
  fun a => if (base <=? a) && (a <? base + Z.of_nat (length bytes))
           then default 0 (bytes !! Z.to_nat (a - base)) else rest a.

Definition zero_ram : Memory := fun _ => 0.

(** An IRQ is pending, P.I is clear, the IRQ vector holds $9000. *)
Definition irq_unmasked : CPU :=
  mkCPU 0 0 0 0xFD 0x8000 0x20 0 Running
        (ram_at 0xFFFE [0x00; 0x90] zero_ram)
        (mkLines false false true).

(** A halted CPU in front of [LDA #$42]. *)
Definition halted_lda : CPU :=
  mkCPU 0 0 0 0xFD 0x8000 0x34 0 Halted
        (ram_at 0x8000 [0xA9; 0x42] zero_ram) no_lines.

(** [BNE] taken across a page: from $80F2 to $8112. *)
Definition bne_cross : CPU :=
  mkCPU 0 0 0 0xFD 0x80F0 0x34 0 Running
        (ram_at 0x80F0 [0xD0; 0x20] zero_ram) no_lines.

(** [BNE] taken within the page: from $80F2 to $80F4. *)
Definition bne_same : CPU :=
  mkCPU 0 0 0 0xFD 0x80F0 0x34 0 Running
        (ram_at 0x80F0 [0xD0; 0x02] zero_ram) no_lines.

(** [JMP ($10FF)], with $34 at $10FF, $12 at $1000 and $56 at $1100. *)
Definition jmp_page_bug : CPU :=
  mkCPU 0 0 0 0xFD 0x8000 0x34 0 Running
        (ram_at 0x8000 [0x6C; 0xFF; 0x10]
           (ram_at 0x10FF [0x34; 0x56] (ram_at 0x1000 [0x12] zero_ram)))
        no_lines.

(** Two machines that differ in PC only. *)
Definition cpu_at_8000 : CPU :=
  mkCPU 1 2 3 0x80 0x8000 0xA5 1000 Halted zero_ram no_lines.
Definition cpu_at_C000 : CPU :=
  mkCPU 1 2 3 0x80 0xC000 0xA5 1000 Halted zero_ram no_lines.

(** [PHP; PLP] with P = $C3. *)
Definition php_plp : CPU :=
  mkCPU 0 0 0 0xFD 0x8000 0xC3 0 Running
        (ram_at 0x8000 [0x08; 0x28] zero_ram) no_lines.

End Scenarios.

(** ** wideNES *)

Module WideNES.

(** *** widenes.h *)

(** [struct nes_scroll { u8 x; u8 y; }]. *)
Record nes_scroll : Type := mk_nes_scroll { ns_x : Z; ns_y : Z }.

(** One of [pad.guess], [pad.offset], [pad.total]: [int l, r, t, b]. *)
Record Pad : Type := mkPad { pad_l : Z; pad_r : Z; pad_t : Z; pad_b : Z }.

Record Pads : Type := mkPads { guess : Pad; offset : Pad; total : Pad }.

(** [scroll]: total scroll, [int x, y, dx, dy]. *)
Record Scroll : Type := mkScroll {
  scroll_x : Z; scroll_y : Z; scroll_dx : Z; scroll_dy : Z
}.

(** [h.mmc3_irq]. *)
Record Mmc3Irq : Type := mkMmc3Irq {
  happened : bool;
  irq_on_scanline : Z;
  scroll_pre_irq : nes_scroll
}.

(** [h.ppuaddr]; [changed.on_scanline] and [changed.while_rendering] are
    the two members of its inner struct. *)
Record PpuAddr : Type := mkPpuAddr {
  did_change : bool;
  changed_on_scanline : Z;
  changed_while_rendering : bool;
  active : bool;
  frame_counter : Z;
  cut_scanline : Z;
  new_scroll : nes_scroll
}.

(** [h]: the heuristics. *)
Record Heuristics : Type := mkHeuristics {
  ppuscroll_curr : nes_scroll;
  mmc3_irq : Mmc3Irq;
  ppuaddr : PpuAddr
}.

(** [struct Tile], without its two SDL textures.  The arrays [done] and
    [fill] ([16][15]) and the framebuffers [fb] and [fb_new]
    ([256 * 240 * 4] bytes) are functions of their indices. *)
Record Tile : Type := mkTile {
  tile_x : Z;
  tile_y : Z;
  done : Z -> Z -> bool;
  fill : Z -> Z -> Z;
  fb : Z -> Z;
  fb_new : Z -> Z
}.

(** [Tile::Tile]: the member initialisers of widenes.h and the coordinates. *)
Definition new_Tile (x y : Z) : Tile :=
  mkTile x y (fun _ _ => false) (fun _ _ => 0) (fun _ => 0) (fun _ => 0).

(** [a[i] = v] and [a[i][j] = v]. *)
Definition upd {A : Type} (a : Z -> A) (i : Z) (v : A) : Z -> A :=
  fun i' => if i' =? i then v else a i'.

Definition upd2 {A : Type} (a : Z -> Z -> A) (i j : Z) (v : A) : Z -> Z -> A :=
  fun i' j' => if (i' =? i) && (j' =? j) then v else a i' j'.

(** The members of [WideNESModule] the callbacks work on.  [tiles] is
    [std::map<int, std::map<int, Tile*>>]: an entry holds a tile or the null
    pointer ([None]). *)
Record WideNES : Type := mkWideNES {
  tiles : gmap Z (gmap Z (option Tile));
  pad : Pads;
  last_scroll : nes_scroll;
  curr_scroll : nes_scroll;
  scroll : Scroll;
  h : Heuristics
}.

(** The state after construction: the member initialisers of widenes.h. *)
Definition init : WideNES :=
  mkWideNES ∅
    (mkPads (mkPad 0 0 0 0) (mkPad 0 0 0 0) (mkPad 0 0 0 0))
    (mk_nes_scroll 0 0) (mk_nes_scroll 0 0)
    (mkScroll 0 0 0 0)
    (mkHeuristics (mk_nes_scroll 0 0)
       (mkMmc3Irq false 239 (mk_nes_scroll 0 0))
       (mkPpuAddr false 0 false false 0 0 (mk_nes_scroll 0 0))).

(** *** The tile map *)

(** The entry of [(tx, ty)], if the map has one. *)
Definition tile_at (m : gmap Z (gmap Z (option Tile))) (tx ty : Z)
  : option (option Tile) :=
  match m !! tx with
  | Some col => col !! ty
  | None => None
  end.

(** [tiles[tx][ty] = v]. *)
Definition tile_put (m : gmap Z (gmap Z (option Tile))) (tx ty : Z)
  (v : option Tile) : gmap Z (gmap Z (option Tile)) :=
  <[tx := <[ty := v]> (default ∅ (m !! tx))]> m.

(** Reading [tiles[tx][ty]]: [operator[]] of [std::map] inserts a null
    entry where the map has none. *)
Definition tile_touch (m : gmap Z (gmap Z (option Tile))) (tx ty : Z)
  : gmap Z (gmap Z (option Tile)) :=
  match tile_at m tx ty with
  | Some _ => m
  | None => tile_put m tx ty None
  end.

(** *** What the callbacks read from the PPU and the mapper *)

(** Read by [ppu_write_end_handler]: [scroll_latch], [_scanline()],
    [ppumask.is_rendering], [t.coarse_x], [t.coarse_y]. *)
Record PPUWriteView : Type := mkPPUWriteView {
  scroll_latch : Z;
  scanline : Z;
  is_rendering : bool;
  t_coarse_x : Z;
  t_coarse_y : Z
}.

(** Read by [ppu_frame_end_handler]: [ppumask.m] and the background
    framebuffer of [getFramebuffBgr]. *)
Record PPUFrameView : Type := mkPPUFrameView {
  ppumask_m : bool;
  framebuff_bgr : Z -> Z
}.

(** Modelled from the spec: the register addresses of [PPURegisters],
    "PPUSCROLL ($2005), PPUADDR ($2006)". *)
Definition PPUSCROLL : Z := 0x2005.
Definition PPUADDR : Z := 0x2006.

(** *** widenes.cc: the write and IRQ callbacks *)

(** [WideNESModule::ppu_write_start_handler]. *)
Definition ppu_write_start_handler (addr val : Z) (s : WideNES) : WideNES := s.

(** [WideNESModule::ppu_write_end_handler(u16 addr, u8 val)]. *)
Definition ppu_write_end_handler (ppu : PPUWriteView) (addr val : Z)
  (s : WideNES) : WideNES :=
  let hs := h s in
  if u16 addr =? PPUSCROLL then
    let c0 := ppuscroll_curr hs in
    let c1 := if scroll_latch ppu =? 1
              then mk_nes_scroll (u8 val) (ns_y c0) else c0 in
    let c2 := if scroll_latch ppu =? 0
              then mk_nes_scroll (ns_x c1) (u8 val) else c1 in
    mkWideNES (tiles s) (pad s) (last_scroll s) (curr_scroll s) (scroll s)
      (mkHeuristics c2 (mmc3_irq hs) (ppuaddr hs))
  else if u16 addr =? PPUADDR then
    let pa := ppuaddr hs in
    let n0 := new_scroll pa in
    let n1 := if scroll_latch ppu =? 1
              then mk_nes_scroll (u8 (8 * t_coarse_x ppu)) (ns_y n0) else n0 in
    let n2 := if scroll_latch ppu =? 0
              then mk_nes_scroll (ns_x n1) (u8 (8 * t_coarse_y ppu)) else n1 in
    mkWideNES (tiles s) (pad s) (last_scroll s) (curr_scroll s) (scroll s)
      (mkHeuristics (ppuscroll_curr hs) (mmc3_irq hs)
         (mkPpuAddr true (u32 (scanline ppu)) (is_rendering ppu)
            (active pa) (frame_counter pa) (cut_scanline pa) n2))
  else s.

(** [WideNESModule::mmc3_irq_handler]; [latch] is what
    [mmc3->peek_irq_latch()] returns. *)
Definition mmc3_irq_handler (latch : Z) (irq_enabled : bool) (s : WideNES)
  : WideNES :=
  let hs := h s in
  mkWideNES (tiles s) (pad s) (last_scroll s) (curr_scroll s) (scroll s)
    (mkHeuristics (ppuscroll_curr hs)
       (mkMmc3Irq true (if irq_enabled then u8 latch else 239)
          (ppuscroll_curr hs))
       (ppuaddr hs)).

(** *** widenes.cc: [input]

    The keys of the [SDL_KEYDOWN] switch; mouse events only move the view. *)
Inductive Key : Type :=
| SDLK_ESCAPE | SDLK_k | SDLK_e | SDLK_3 | SDLK_d | SDLK_c
| SDLK_s | SDLK_a | SDLK_f | SDLK_g | SDLK_other.

Definition with_offset (o : Pad) (s : WideNES) : WideNES :=
  mkWideNES (tiles s) (mkPads (guess (pad s)) o (total (pad s)))
    (last_scroll s) (curr_scroll s) (scroll s) (h s).

(** [WideNESModule::input] on a key press. *)
Definition input (in_menu : bool) (key : Key) (mod_shift : bool) (s : WideNES)
  : WideNES :=
  if in_menu then s
  else
    let o := offset (pad s) in
    let d := if mod_shift then 1 else 8 in
    match key with
    | SDLK_k =>
      mkWideNES ∅ (pad s) (last_scroll s) (curr_scroll s) (scroll s) (h s)
    | SDLK_e => with_offset (mkPad (pad_l o) (pad_r o) (pad_t o + d) (pad_b o)) s
    | SDLK_3 => with_offset (mkPad (pad_l o) (pad_r o) (pad_t o - d) (pad_b o)) s
    | SDLK_d => with_offset (mkPad (pad_l o) (pad_r o) (pad_t o) (pad_b o + d)) s
    | SDLK_c => with_offset (mkPad (pad_l o) (pad_r o) (pad_t o) (pad_b o - d)) s
    | SDLK_s => with_offset (mkPad (pad_l o + d) (pad_r o) (pad_t o) (pad_b o)) s
    | SDLK_a => with_offset (mkPad (pad_l o - d) (pad_r o) (pad_t o) (pad_b o)) s
    | SDLK_f => with_offset (mkPad (pad_l o) (pad_r o + d) (pad_t o) (pad_b o)) s
    | SDLK_g => with_offset (mkPad (pad_l o) (pad_r o - d) (pad_t o) (pad_b o)) s
    | SDLK_ESCAPE | SDLK_other => s
    end.

(** *** widenes.cc: [ppu_frame_end_handler], heuristics *)

(** From the start of the handler to the reset of [h.mmc3_irq.happened]. *)
Definition heuristics (ppu : PPUFrameView) (s : WideNES) : WideNES :=
  let hs := h s in
  let pa := ppuaddr hs in
  let irq := mmc3_irq hs in
  (* the OG: PPUSCROLL *)
  let cs0 := mk_nes_scroll (ns_x (ppuscroll_curr hs)) (ns_y (ppuscroll_curr hs)) in
  (* left column *)
  let g0 := guess (pad s) in
  let g1 := mkPad (if ppumask_m ppu then 0 else 8) (pad_r g0) (pad_t g0) (pad_b g0) in
  (* Zelda scrolling *)
  let fired := did_change pa
               && (changed_on_scanline pa <? 241)
               && changed_while_rendering pa in
  let active1 := if fired then true else active pa in
  let cut1 := if fired then changed_on_scanline pa else cut_scanline pa in
  let g2 := if fired then
              if cut1 <? 240 `div` 2
              then mkPad (pad_l g1) (pad_r g1) (int_of_uint cut1) (pad_b g1)
              else mkPad (pad_l g1) (pad_r g1) (pad_t g1)
                     (int_of_uint (239 - irq_on_scanline irq))
            else g1 in
  let cs1 := if fired then mk_nes_scroll (ns_x cs0) (ns_y (new_scroll pa)) else cs0 in
  let pa1 := mkPpuAddr false (changed_on_scanline pa) (changed_while_rendering pa)
               active1 (frame_counter pa) cut1 (new_scroll pa) in
  (* MMC3 scanline IRQ *)
  let top := irq_on_scanline irq <? 240 `div` 2 in
  let g3 := if happened irq then
              if top
              then mkPad (pad_l g2) (pad_r g2) (int_of_uint (irq_on_scanline irq)) (pad_b g2)
              else mkPad (pad_l g2) (pad_r g2) (pad_t g2)
                     (int_of_uint (239 - irq_on_scanline irq))
            else g2 in
  let cs2 := if happened irq then (if top then cs1 else scroll_pre_irq irq) else cs1 in
  let irq1 := mkMmc3Irq false (irq_on_scanline irq) (scroll_pre_irq irq) in
  mkWideNES (tiles s) (mkPads g3 (offset (pad s)) (total (pad s)))
    (last_scroll s) cs2 (scroll s)
    (mkHeuristics (ppuscroll_curr hs) irq1 pa1).

(** "calculate final padding". *)
Definition padding (s : WideNES) : WideNES :=
  let g := guess (pad s) in
  let o := offset (pad s) in
  mkWideNES (tiles s)
    (mkPads g o
       (mkPad (Z.max 0 (pad_l g + pad_l o)) (Z.max 0 (pad_r g + pad_r o))
              (Z.max 0 (pad_t g + pad_t o)) (Z.max 0 (pad_b g + pad_b o))))
    (last_scroll s) (curr_scroll s) (scroll s) (h s).

(** *** widenes.cc: [ppu_frame_end_handler], the new scroll position *)

Definition fuzz : Z := 10.

Definition thresh_w (s : WideNES) : Z :=
  (256 - pad_l (total (pad s)) - pad_r (total (pad s))) - fuzz.

Definition thresh_h (s : WideNES) : Z :=
  (240 - pad_t (total (pad s)) - pad_b (total (pad s))) - fuzz.

(** The initial values of [scroll_dx] and [scroll_dy]. *)
Definition raw_dx (s : WideNES) : Z := ns_x (curr_scroll s) - ns_x (last_scroll s).
Definition raw_dy (s : WideNES) : Z := ns_y (curr_scroll s) - ns_y (last_scroll s).

(** [if (::abs(d) > thresh) { if (d < 0) d += period; else d -= period; }]. *)
Definition unwrap (d thresh period : Z) : Z :=
  if thresh <? Z.abs d
  then (if d <? 0 then d + period else d - period)
  else d.

(** [scroll_dx] and [scroll_dy] after the two wrap tests. *)
Definition wrapped_dx (s : WideNES) : Z := unwrap (raw_dx s) (thresh_w s) 256.
Definition wrapped_dy (s : WideNES) : Z := unwrap (raw_dy s) (thresh_h s) 240.

(** [scroll_dy] after the "Zelda scroll heuristic". *)
Definition final_dy (s : WideNES) : Z :=
  if active (ppuaddr (h s))
  then (if int_of_uint (cut_scanline (ppuaddr (h s))) <? Z.abs (wrapped_dy s)
        then 0 else wrapped_dy s)
  else wrapped_dy s.

(** The update of [scroll] and [last_scroll]. *)
Definition scroll_step (s : WideNES) : WideNES :=
  let dx := wrapped_dx s in
  let dy := final_dy s in
  mkWideNES (tiles s) (pad s)
    (mk_nes_scroll (ns_x (curr_scroll s)) (ns_y (curr_scroll s)))
    (curr_scroll s)
    (mkScroll (scroll_x (scroll s) + dx) (scroll_y (scroll s) + dy) dx dy)
    (h s).

(** *** widenes.cc: [ppu_frame_end_handler], tile updates *)

(** The "big tile" a source pixel falls in.  [::floor(n / 256.0)] and
    [::floor(n / 240.0)] of an [int] [n] are the floor quotients. *)
Definition pixel_tx (s : WideNES) (sx : Z) : Z := (scroll_x (scroll s) + sx) `div` 256.
Definition pixel_ty (s : WideNES) (sy : Z) : Z := (scroll_y (scroll s) + sy) `div` 240.

(** The body of loop 1) on one tile: the destination pixel [dx], [dy], its
    block [bx], [by], the fill count and the four bytes of the pixel. *)
Definition write_pixel (framebuffer : Z -> Z) (s : WideNES) (tile : Tile)
  (tx ty sx sy : Z) : Tile :=
  let dx := u32 ((scroll_x (scroll s) - tx * 256) + sx) in
  let dy := u32 ((scroll_y (scroll s) - ty * 240) + sy) in
  let bx := dx `div` 16 in
  let by_ := dy `div` 16 in
  let spx_i := u32 (256 * 4 * sy + 4 * sx) in
  let dpx_i := u32 (256 * 4 * dy + 4 * dx) in
  mkTile (tile_x tile) (tile_y tile) (done tile)
    (upd2 (fill tile) bx by_ (fill tile bx by_ + 1))
    (fb tile)
    (upd (upd (upd (upd (fb_new tile)
       (u32 (dpx_i + 0)) (framebuffer (u32 (spx_i + 0))))
       (u32 (dpx_i + 1)) (framebuffer (u32 (spx_i + 1))))
       (u32 (dpx_i + 2)) (framebuffer (u32 (spx_i + 2))))
       (u32 (dpx_i + 3)) (framebuffer (u32 (spx_i + 3)))).

(** The body of loop 1): find or create the tile, then write the pixel. *)
Definition project_pixel (framebuffer : Z -> Z) (s : WideNES)
  (m : gmap Z (gmap Z (option Tile))) (sx sy : Z)
  : gmap Z (gmap Z (option Tile)) :=
  let tx := pixel_tx s sx in
  let ty := pixel_ty s sy in
  let m1 := tile_touch m tx ty in
  let tile := match tile_at m1 tx ty with
              | Some (Some t) => t
              | _ => new_Tile tx ty
              end in
  tile_put m1 tx ty (Some (write_pixel framebuffer s tile tx ty sx sy)).

(** [for (int i = lo; i < hi; i++)]. *)
Definition range (lo hi : Z) : list Z := seqZ lo (hi - lo).

(** Loop 1): every source pixel of the padded screen. *)
Definition project_pixels (framebuffer : Z -> Z) (s : WideNES)
  (m : gmap Z (gmap Z (option Tile))) : gmap Z (gmap Z (option Tile)) :=
  let p := total (pad s) in
  foldl (fun m sx =>
           foldl (fun m sy => project_pixel framebuffer s m sx sy)
                 m (range (pad_t p) (240 - pad_b p)))
        m (range (pad_l p) (256 - pad_r p)).

(** The copy of one pixel of a block from [fb_new] to [fb]. *)
Definition copy_pixel (bx by_ : Z) (tile : Tile) (x y : Z) : Tile :=
  let px_i := u32 (256 * 4 * (by_ * 16 + y) + 4 * (bx * 16 + x)) in
  mkTile (tile_x tile) (tile_y tile) (done tile) (fill tile)
    (upd (upd (upd (upd (fb tile)
       (u32 (px_i + 0)) (fb_new tile (u32 (px_i + 0))))
       (u32 (px_i + 1)) (fb_new tile (u32 (px_i + 1))))
       (u32 (px_i + 2)) (fb_new tile (u32 (px_i + 2))))
       (u32 (px_i + 3)) (fb_new tile (u32 (px_i + 3))))
    (fb_new tile).

(** The body of the block loop of 2). *)
Definition commit_block (tile : Tile) (bx by_ : Z) : Tile :=
  let t1 :=
    if fill tile bx by_ =? 256
    then
      foldl (fun t x => foldl (fun t y => copy_pixel bx by_ t x y) t (range 0 16))
            (mkTile (tile_x tile) (tile_y tile) (upd2 (done tile) bx by_ true)
                    (fill tile) (fb tile) (fb_new tile))
            (range 0 16)
    else tile in
  mkTile (tile_x t1) (tile_y t1) (done t1) (upd2 (fill t1) bx by_ 0)
         (fb t1) (fb_new t1).

(** The block loop of 2) on one tile. *)
Definition commit_tile (tile : Tile) : Tile :=
  foldl (fun t bx => foldl (fun t by_ => commit_block t bx by_) t (range 0 15))
        tile (range 0 16).

(** The body of loop 2) for one of the four tiles. *)
Definition commit_at (m : gmap Z (gmap Z (option Tile))) (tx ty : Z)
  : gmap Z (gmap Z (option Tile)) :=
  let m1 := tile_touch m tx ty in
  match tile_at m1 tx ty with
  | Some (Some t) => tile_put m1 tx ty (Some (commit_tile t))
  | _ => m1
  end.

(** [for (int dx : {0, 1}) for (int dy : {0, 1})] around the tile of the
    scroll position. *)
Definition around (s : WideNES) (body : gmap Z (gmap Z (option Tile)) -> Z -> Z ->
                                       gmap Z (gmap Z (option Tile)))
  (m : gmap Z (gmap Z (option Tile))) : gmap Z (gmap Z (option Tile)) :=
  let tx := scroll_x (scroll s) `div` 256 in
  let ty := scroll_y (scroll s) `div` 240 in
  foldl (fun m dx => foldl (fun m dy => body m (tx + dx) (ty + dy)) m [0; 1])
        m [0; 1].

(** Loop 2): save the blocks captured this frame. *)
Definition commit_blocks (s : WideNES) (m : gmap Z (gmap Z (option Tile)))
  : gmap Z (gmap Z (option Tile)) :=
  around s commit_at m.

(** Loop 3): the textures are not modelled, the reads of [tiles] are. *)
Definition update_textures (s : WideNES) (m : gmap Z (gmap Z (option Tile)))
  : gmap Z (gmap Z (option Tile)) :=
  around s tile_touch m.

Definition tile_step (ppu : PPUFrameView) (s : WideNES) : WideNES :=
  mkWideNES
    (update_textures s
       (commit_blocks s (project_pixels (framebuff_bgr ppu) s (tiles s))))
    (pad s) (last_scroll s) (curr_scroll s) (scroll s) (h s).

(** [WideNESModule::ppu_frame_end_handler]. *)
Definition ppu_frame_end_handler (ppu : PPUFrameView) (s : WideNES) : WideNES :=
  tile_step ppu (scroll_step (padding (heuristics ppu s))).

(** *** The callbacks the engine receives *)

Inductive Event : Type :=
| EvWriteStart (addr val : Z)
| EvWriteEnd (ppu : PPUWriteView) (addr val : Z)
| EvMmc3Irq (latch : Z) (irq_enabled : bool)
| EvFrameEnd (ppu : PPUFrameView)
| EvInput (in_menu : bool) (key : Key) (mod_shift : bool).

Definition handle (s : WideNES) (e : Event) : WideNES :=
  match e with
  | EvWriteStart addr val => ppu_write_start_handler addr val s
  | EvWriteEnd ppu addr val => ppu_write_end_handler ppu addr val s
  | EvMmc3Irq latch irq_enabled => mmc3_irq_handler latch irq_enabled s
  | EvFrameEnd ppu => ppu_frame_end_handler ppu s
  | EvInput in_menu key mod_shift => input in_menu key mod_shift s
  end.

(** The engine after a sequence of callbacks. *)
Definition run (s : WideNES) (es : list Event) : WideNES := foldl handle s es.

(** *** Vocabulary of the tile and scroll properties *)

(** The paddings of loop 1) are not negative. *)
Definition total_nonneg (s : WideNES) : Prop :=
  0 <= pad_l (total (pad s)) /\ 0 <= pad_r (total (pad s)) /\
  0 <= pad_t (total (pad s)) /\ 0 <= pad_b (total (pad s)).

(** The source pixel [(sx, sy)] is inside the padded screen of loop 1). *)
Definition in_window (s : WideNES) (sx sy : Z) : Prop :=
  pad_l (total (pad s)) <= sx < 256 - pad_r (total (pad s)) /\
  pad_t (total (pad s)) <= sy < 240 - pad_b (total (pad s)).

(** The pixels loop 1) visits in state [s] that fall in tile [(x, y)]. *)
Definition window_writes (s : WideNES) (x y : Z) : Prop :=
  exists sx sy, in_window s sx sy /\ pixel_tx s sx = x /\ pixel_ty s sy = y.

(** Loop 1) of the frame that ends in state [s] with the view [ppu] writes
    a pixel into the tile [(tx, ty)]. *)
Definition frame_writes (ppu : PPUFrameView) (s : WideNES) (tx ty : Z) : Prop :=
  window_writes (scroll_step (padding (heuristics ppu s))) tx ty.

(** The callback is not the key that clears the map. *)
Definition not_clear (e : Event) : Prop :=
  match e with
  | EvInput false SDLK_k _ => False
  | _ => True
  end.

(** The tiles pixels have been written into since the map was last
    cleared: [written s es tx ty] for the callbacks [es] received from
    state [s]. *)
Fixpoint written (s : WideNES) (es : list Event) (tx ty : Z) : Prop :=
  match es with
  | [] => False
  | e :: es' =>
    written (handle s e) es' tx ty
    \/ match e with
       | EvFrameEnd ppu => frame_writes ppu s tx ty /\ Forall not_clear es'
       | _ => False
       end
  end.

(** One of the four tiles around the scroll position. *)
Definition near (s : WideNES) (x y : Z) : Prop :=
  (x = scroll_x (scroll s) `div` 256 \/ x = scroll_x (scroll s) `div` 256 + 1) /\
  (y = scroll_y (scroll s) `div` 240 \/ y = scroll_y (scroll s) `div` 240 + 1).

(** The map has an entry, a tile or the null pointer, for [(x, y)]. *)
Definition has_entry (m : gmap Z (gmap Z (option Tile))) (x y : Z) : Prop :=
  is_Some (tile_at m x y).

(** The map has a tile for [(x, y)]. *)
Definition has_tile (m : gmap Z (gmap Z (option Tile))) (x y : Z) : Prop :=
  exists t, tile_at m x y = Some (Some t).

(** Every block counter of the tile is zero. *)
Definition zero_fill (t : Tile) : Prop :=
  forall bx by_, 0 <= bx < 16 -> 0 <= by_ < 15 -> fill t bx by_ = 0.

(** [zero_at m x y]: the tile at [(x, y)], if there is one, has its
    counters at zero. *)
Definition zero_at (m : gmap Z (gmap Z (option Tile))) (x y : Z) : Prop :=
  forall t, tile_at m x y = Some (Some t) -> zero_fill t.

(** Every block counter of every tile of the map is zero. *)
Definition fill_clear (m : gmap Z (gmap Z (option Tile))) : Prop :=
  forall tx ty t, tile_at m tx ty = Some (Some t) ->
    forall bx by_, 0 <= bx < 16 -> 0 <= by_ < 15 -> fill t bx by_ = 0.

(** Both coordinates of a scroll register fit in a byte. *)
Definition byte_scroll (n : nes_scroll) : Prop :=
  0 <= ns_x n < 256 /\ 0 <= ns_y n < 256.

Definition scrolls_are_bytes (s : WideNES) : Prop :=
  byte_scroll (last_scroll s) /\ byte_scroll (curr_scroll s) /\
  byte_scroll (ppuscroll_curr (h s)) /\
  byte_scroll (scroll_pre_irq (mmc3_irq (h s))) /\
  byte_scroll (new_scroll (ppuaddr (h s))).

(** *** Views and callbacks used by the examples *)

Definition blank_view : PPUFrameView := mkPPUFrameView false (fun _ => 0).
Definition show_left : PPUFrameView := mkPPUFrameView true (fun _ => 0).

(** Register writes outside rendering, on the first and on the second
    write of the latch. *)
Definition latch_x : PPUWriteView := mkPPUWriteView 1 250 false 0 0.
Definition latch_y : PPUWriteView := mkPPUWriteView 0 250 false 0 0.

(** A register write on scanline 30, while rendering. *)
Definition mid_frame : PPUWriteView := mkPPUWriteView 0 30 true 0 0.

(** PPUSCROLL is set to (246, 250). *)
Definition big_scroll : list Event :=
  [EvWriteEnd latch_x PPUSCROLL 246; EvWriteEnd latch_y PPUSCROLL 250].

(** The engine after a frame with a PPUADDR write on scanline 30. *)
Definition zelda_frame : WideNES :=
  ppu_frame_end_handler blank_view (run init [EvWriteEnd mid_frame PPUADDR 0]).

End WideNES.

(** ** Vocabulary and machines of the further CPU properties *)

Module CPUVocab.

Import CPU Scenarios.

Local Open Scope cpu_scope.

(** *** Flags and compared registers *)

(** The carry flag as the number the arithmetic instructions add. *)
Definition carry_in (c : CPU) : Z := b2z (flag_of (reg_p c) fC).

(** The register a compare instruction reads. *)
Definition compared (i : Instr) (c : CPU) : option Z :=
  match i with
  | CMP => Some (reg_a c)
  | CPX => Some (reg_x c)
  | CPY => Some (reg_y c)
  | _ => None
  end.

(** *** Checks over all bytes *)

(** The boolean form of [adc_arith], checked on every pair of bytes. *)
Definition adc_check (a v cin : Z) : bool :=
  let sum := u16 (a + v + cin) in
  (u8 (u8 sum) =? (a + v + cin) mod 256)
  && Bool.eqb (0xFF <? sum) (255 <? a + v + cin)
  && Bool.eqb (u8 sum =? 0) ((a + v + cin) mod 256 =? 0)
  && Bool.eqb (nth_bit (u8 sum) 7) (128 <=? (a + v + cin) mod 256)
  && Bool.eqb
       (negb (Z.land (Z.land (Z.lnot (Z.lxor a v)) (Z.lxor a sum)) 0x80 =? 0))
       (negb ((-128 <=? i8 a + i8 v + cin) && (i8 a + i8 v + cin <=? 127))).

(** The boolean form of [sbc_arith], checked on every pair of bytes. *)
Definition sbc_check (a v cin : Z) : bool :=
  let sum := u16 (a + Z.lnot v + cin) in
  let d := a - v - (1 - cin) in
  (u8 (u8 sum) =? d mod 256)
  && Bool.eqb (negb (0xFF <? sum)) (0 <=? d)
  && Bool.eqb (u8 sum =? 0) (d mod 256 =? 0)
  && Bool.eqb (nth_bit (u8 sum) 7) (128 <=? d mod 256)
  && Bool.eqb
       (negb (Z.land (Z.land (Z.lnot (Z.lxor a (Z.lnot v))) (Z.lxor a sum)) 0x80 =? 0))
       (negb ((-128 <=? i8 a - i8 v - (1 - cin)) && (i8 a - i8 v - (1 - cin) <=? 127))).

(** The boolean form of [cmp_arith]. *)
Definition cmp_check (r v : Z) : bool :=
  Bool.eqb (r - v =? 0) (r =? v)
  && Bool.eqb (nth_bit (r - v) 7) (128 <=? (r - v) mod 256).

(** The boolean form of the round trip of [ROL A] and [ROR A], checked on
    every byte and carry. *)
Definition rot_check (a cin : Z) : bool :=
  let a1 := u8 (Z.lor (Z.shiftl a 1) cin) in
  let c1 := nth_bit a 7 in
  (u8 (Z.lor (Z.shiftr a1 1) (Z.shiftl (b2z c1) 7)) =? a)
  && Bool.eqb (nth_bit a1 0) (cin =? 1).

(** *** Cycle accounting *)

(** [adds n m]: the computation [m] adds at most [n] cycles to the
    counter. *)
Definition adds {A : Type} (n : Z) (m : M A) : Prop :=
  forall c, 0 <= cycles c < 18446744073709551616 ->
    exists k, 0 <= k <= n /\ cycles (snd (m c)) = u64 (cycles c + k).

(** [returns_delta old m]: the computation [m] returns the distance of the
    counter from [old], cut to 32 bits. *)
Definition returns_delta (old : Z) (m : M Z) : Prop :=
  forall c, fst (m c) = u32 (cycles (snd (m c)) - old).

(** *** Concrete machines *)

(** S = $00: the next push wraps the stack pointer to $FF. *)
Definition stack_empty_slot : CPU :=
  mkCPU 0 0 0 0x00 0x8000 0x34 0 Running zero_ram no_lines.

(** All three lines are pending; the RESET vector holds $8000. *)
Definition all_pending : CPU :=
  mkCPU 1 2 3 0xFD 0x1234 0x20 100 Halted
        (ram_at 0xFFFC [0x00; 0x80] zero_ram) (mkLines true true true).

(** NMI and IRQ are pending, S is 1; the NMI vector holds $9000. *)
Definition nmi_pending : CPU :=
  mkCPU 0 0 0 0x01 0x8123 0x20 0 Running
        (ram_at 0xFFFA [0x00; 0x90] zero_ram) (mkLines false true true).

(** An NMI is pending at $8123; the handler at $9000 is a lone RTI. *)
Definition nmi_to_rti : CPU :=
  mkCPU 0x11 0x22 0x33 0xFD 0x8123 0x24 0 Running
    (ram_at 0xFFFA [0x00; 0x90] (ram_at 0x9000 [0x40] zero_ram))
    (mkLines false true false).

(** [BRK] at $8000 with P.I set; the IRQ vector holds $A000. *)
Definition at_brk : CPU :=
  mkCPU 0 0 0 0xFD 0x8000 0x24 0 Running
        (ram_at 0x8000 [0x00] (ram_at 0xFFFE [0x00; 0xA0] zero_ram)) no_lines.

(** The unused opcode $02 at $8000. *)
Definition at_unused_opcode : CPU :=
  mkCPU 7 8 9 0xFD 0x8000 0x34 5 Running
        (ram_at 0x8000 [0x02] zero_ram) no_lines.

(** [JSR $9000] at $8000 and [RTS] at $9000. *)
Definition at_jsr : CPU :=
  mkCPU 0 0 0 0xFD 0x8000 0x34 0 Running
        (ram_at 0x8000 [0x20; 0x00; 0x90] (ram_at 0x9000 [0x60] zero_ram)) no_lines.

(** The operand $10F0 of an absolute,X instruction, with X = $20. *)
Definition at_absX_operand : CPU :=
  mkCPU 0 0x20 0 0xFD 0x8001 0x34 10 Running
        (ram_at 0x8001 [0xF0; 0x10] zero_ram) no_lines.

(** A = $50, carry clear, $50 at $0010. *)
Definition adding_50_50 : CPU :=
  mkCPU 0x50 0 0 0xFD 0x8002 0x34 0 Running
        (ram_at 0x0010 [0x50] zero_ram) no_lines.

(** A = $50, carry set, $70 at $0010. *)
Definition subtracting_70 : CPU :=
  mkCPU 0x50 0 0 0xFD 0x8002 0x35 0 Running
        (ram_at 0x0010 [0x70] zero_ram) no_lines.

(** A = $81, carry clear. *)
Definition rotating_81 : CPU :=
  mkCPU 0x81 0 0 0xFD 0x8001 0x34 0 Running zero_ram no_lines.

End CPUVocab.

(** ** Vocabulary and states of the further wideNES properties *)

Module WideNESVocab.

Import WideNES.

(** *** Blocks *)

(** The index of byte [k] of the pixel [(x, y)] of the block [(bx, by_)]:
    [px_i + k] of loop 2). *)
Definition block_byte (bx by_ x y k : Z) : Z :=
  256 * 4 * (by_ * 16 + y) + 4 * (bx * 16 + x) + k.

(** The byte [i] lies in the block [(bx, by_)] of the framebuffers. *)
Definition in_block (bx by_ i : Z) : Prop :=
  exists x y k, 0 <= x < 16 /\ 0 <= y < 16 /\ 0 <= k < 4 /\
                i = block_byte bx by_ x y k.

(** The byte [i] of [fb] agrees with [fb_new]. *)
Definition agrees (t : Tile) (i : Z) : Prop := fb t i = fb_new t i.

(** The two copy loops of [commit_block]: the 16 by 16 pixels of the block
    are copied from [fb_new] to [fb]. *)
Definition copy_block (bx by_ : Z) (t : Tile) : Tile :=
  foldl (fun t x => foldl (fun t y => copy_pixel bx by_ t x y) t (range 0 16))
        t (range 0 16).

(** The tile at [(x, y)] exists and has its block [(bx, by_)] marked done. *)
Definition block_done (m : gmap Z (gmap Z (option Tile))) (x y bx by_ : Z) : Prop :=
  exists t, tile_at m x y = Some (Some t) /\ done t bx by_ = true.

(** What is known of the block [(bx, by_)] of [t'] while the block loop
    of 2) runs on [t]: before and after the block is visited. *)
Definition block_pending (t : Tile) (bx by_ : Z) (t' : Tile) : Prop :=
  fill t' bx by_ = fill t bx by_ /\ fb_new t' = fb_new t /\
  done t' bx by_ = done t bx by_ /\
  forall i, in_block bx by_ i -> fb t' i = fb t i.

Definition block_committed (t : Tile) (bx by_ : Z) (t' : Tile) : Prop :=
  fill t' bx by_ = 0 /\ fb_new t' = fb_new t /\
  (fill t bx by_ = 256 ->
     done t' bx by_ = true /\ forall i, in_block bx by_ i -> fb t' i = fb_new t i) /\
  (fill t bx by_ <> 256 ->
     done t' bx by_ = done t bx by_ /\ forall i, in_block bx by_ i -> fb t' i = fb t i).

(** *** Counting the pixels of a block *)

(** The sum of the weights [w] of the elements of [l]. *)
Fixpoint sum_of {A : Type} (w : A -> Z) (l : list A) : Z :=
  match l with
  | [] => 0
  | x :: l' => w x + sum_of w l'
  end.

(** The counter of the block [(bx, by_)] of the tile [(tx, ty)]; 0 where
    the map has no tile. *)
Definition fill_at (m : gmap Z (gmap Z (option Tile))) (tx ty bx by_ : Z) : Z :=
  match tile_at m tx ty with
  | Some (Some t) => fill t bx by_
  | _ => 0
  end.

(** The column [sx] of the screen is in the column [bx] of blocks of the
    tiles [tx]; likewise for the rows. *)
Definition hits_x (s : WideNES) (tx bx sx : Z) : bool :=
  (pixel_tx s sx =? tx)
  && (u32 ((scroll_x (scroll s) - pixel_tx s sx * 256) + sx) `div` 16 =? bx).

Definition hits_y (s : WideNES) (ty by_ sy : Z) : bool :=
  (pixel_ty s sy =? ty)
  && (u32 ((scroll_y (scroll s) - pixel_ty s sy * 240) + sy) `div` 16 =? by_).

(** The number of integers in both [lo, hi) and [a, a + 16). *)
Definition overlap (lo hi a : Z) : Z := Z.max 0 (Z.min hi (a + 16) - Z.max lo a).

(** The first column and the first row of the screen that show the block
    [(bx, by_)] of the tile [(tx, ty)]. *)
Definition block_sx (s : WideNES) (tx bx : Z) : Z :=
  tx * 256 + bx * 16 - scroll_x (scroll s).

Definition block_sy (s : WideNES) (ty by_ : Z) : Z :=
  ty * 240 + by_ * 16 - scroll_y (scroll s).

(** The 16 by 16 pixels of the block [(bx, by_)] of the tile [(tx, ty)]
    are all inside the padded screen of loop 1). *)
Definition block_in_window (s : WideNES) (tx ty bx by_ : Z) : Prop :=
  pad_l (total (pad s)) <= block_sx s tx bx /\
  block_sx s tx bx + 16 <= 256 - pad_r (total (pad s)) /\
  pad_t (total (pad s)) <= block_sy s ty by_ /\
  block_sy s ty by_ + 16 <= 240 - pad_b (total (pad s)).

(** *** The destination of a pixel *)

(** The destination of the column [sx] and of the row [sy] inside their
    tiles. *)
Definition dest_x (s : WideNES) (sx : Z) : Z := (scroll_x (scroll s) + sx) mod 256.

Definition dest_y (s : WideNES) (sy : Z) : Z := (scroll_y (scroll s) + sy) mod 240.

(** The tile of the source pixel [(sx, sy)] exists in [m] and its
    [fb_new] holds the four bytes the frame buffer has for the pixel. *)
Definition shows (fbuf : Z -> Z) (s : WideNES) (sx sy : Z)
  (m : gmap Z (gmap Z (option Tile))) : Prop :=
  exists t, tile_at m (pixel_tx s sx) (pixel_ty s sy) = Some (Some t) /\
    forall k, 0 <= k < 4 ->
      fb_new t (256 * 4 * dest_y s sy + 4 * dest_x s sx + k)
      = fbuf (256 * 4 * sy + 4 * sx + k).

(** *** Callbacks *)

(** The key that undoes an offset key. *)
Definition opposite (key : Key) : Key :=
  match key with
  | SDLK_e => SDLK_3 | SDLK_3 => SDLK_e
  | SDLK_d => SDLK_c | SDLK_c => SDLK_d
  | SDLK_s => SDLK_a | SDLK_a => SDLK_s
  | SDLK_f => SDLK_g | SDLK_g => SDLK_f
  | k => k
  end.

(** The callback is a register write. *)
Definition is_write (e : Event) : Prop :=
  match e with
  | EvWriteStart _ _ | EvWriteEnd _ _ _ => True
  | _ => False
  end.

(** *** States used by the examples *)

(** The view is at (300, -50) of the map, the left column is hidden. *)
Definition scrolled_view : WideNES :=
  mkWideNES ∅
    (mkPads (mkPad 8 0 0 0) (mkPad 0 0 0 0) (mkPad 8 0 0 0))
    (mk_nes_scroll 44 190) (mk_nes_scroll 44 190)
    (mkScroll 300 (-50) 0 0)
    (h init).

(** A frame buffer whose bytes differ from place to place. *)
Definition ramp (i : Z) : Z := u8 i.

(** A frame whose bytes differ from place to place, the left column
    hidden. *)
Definition ramp_view : PPUFrameView := mkPPUFrameView false ramp.

(** A tile whose blocks have all been sampled in full. *)
Definition full_tile : Tile :=
  mkTile 0 0 (fun _ _ => false) (fun _ _ => 256) (fun _ => 0) ramp.

(** A map whose tile (0, 0) has the block (1, 0) done. *)
Definition one_block_done : WideNES :=
  mkWideNES
    (tile_put ∅ 0 0
       (Some (mkTile 0 0 (upd2 (fun _ _ => false) 1 0 true) (fun _ _ => 0)
                     (fun _ => 0) (fun _ => 0))))
    (pad init) (last_scroll init) (curr_scroll init) (scroll init) (h init).

(** The left and the right offset are raised to 128 with the keys. *)
Definition wide_pads : WideNES :=
  run init (repeat (EvInput false SDLK_s false) 16
            ++ repeat (EvInput false SDLK_f false) 16).

End WideNESVocab.

(** ** Facts about the fixed-width integers *)

Module BitsFacts.

Lemma u8_range z : 0 <= u8 z < 256.
Proof. unfold u8. apply Z.mod_pos_bound. lia. Qed.

Lemma u16_range z : 0 <= u16 z < 65536.
Proof. unfold u16. apply Z.mod_pos_bound. lia. Qed.


Lemma u8_small z : 0 <= z < 256 -> u8 z = z.
Proof. intros. unfold u8. apply Z.mod_small. lia. Qed.

Lemma u16_small z : 0 <= z < 65536 -> u16 z = z.
Proof. intros. unfold u16. apply Z.mod_small. lia. Qed.

Lemma u32_small z : 0 <= z < 4294967296 -> u32 z = z.
Proof. intros. unfold u32. apply Z.mod_small. lia. Qed.

Lemma u8_idem z : u8 (u8 z) = u8 z.
Proof. apply u8_small, u8_range. Qed.

Lemma u16_idem z : u16 (u16 z) = u16 z.
Proof. apply u16_small, u16_range. Qed.

Lemma u16_add_l a b : u16 (u16 a + b) = u16 (a + b).
Proof. unfold u16. apply Zplus_mod_idemp_l. Qed.

Lemma u16_sub_l a b : u16 (u16 a - b) = u16 (a - b).
Proof. unfold u16. apply Zminus_mod_idemp_l. Qed.

Lemma u8_add_l a b : u8 (u8 a + b) = u8 (a + b).
Proof. unfold u8. apply Zplus_mod_idemp_l. Qed.

Lemma u8_sub_l a b : u8 (u8 a - b) = u8 (a - b).
Proof. unfold u8. apply Zminus_mod_idemp_l. Qed.

Lemma u64_add_l a b : u64 (u64 a + b) = u64 (a + b).
Proof. unfold u64. apply Zplus_mod_idemp_l. Qed.

(** The value [step] returns: a 64-bit difference cut to 32 bits. *)
Lemma u32_u64_sub a b : u32 (u64 a - u32 b) = u32 (a - b).
Proof.
  unfold u32, u64.
  rewrite Zminus_mod_idemp_r.
  rewrite <- (Zminus_mod_idemp_l (a mod _)).
  rewrite Z.mod_mod_divide by (exists 4294967296; reflexivity).
  apply Zminus_mod_idemp_l.
Qed.

(** A property checked on every byte holds of every byte. *)
Lemma forall_byte (P : Z -> bool) :
  forallb P (seqZ 0 256) = true -> forall z, 0 <= z < 256 -> P z = true.
Proof.
  intros H z Hz. rewrite forallb_forall in H. apply H.
  apply list_elem_of_In, elem_of_seqZ. lia.
Qed.

Lemma forall_byte2 (P : Z -> Z -> bool) :
  forallb (fun a => forallb (P a) (seqZ 0 256)) (seqZ 0 256) = true ->
  forall a b, 0 <= a < 256 -> 0 <= b < 256 -> P a b = true.
Proof.
  intros H a b Ha Hb.
  apply (forall_byte (P a)); [| exact Hb].
  apply (forall_byte (fun a => forallb (P a) (seqZ 0 256)) H a Ha).
Qed.

End BitsFacts.

(** ** Properties of the CPU *)

Module CPUFacts.

Import CPU BitsFacts Scenarios.

Local Open Scope cpu_scope.

Arguments u8 : simpl never.
Arguments u16 : simpl never.
Arguments u32 : simpl never.
Arguments u64 : simpl never.
Arguments mem_read : simpl never.
Arguments mem_write : simpl never.
Arguments mem_read16 : simpl never.
Arguments mem_read16_zpg : simpl never.
Arguments flag_of : simpl never.
Arguments flag_set : simpl never.

(** Setting a flag makes it read as set, whatever the byte was. *)
Lemma flag_of_set raw f b : flag_of (flag_set raw f b) f = b.
Proof.
  unfold flag_of, flag_set. destruct b.
  - rewrite Z.lor_spec, Z.shiftl_spec by (destruct f; simpl; lia).
    rewrite Z.sub_diag. simpl. apply orb_true_r.
  - rewrite Z.land_spec, Z.lnot_spec, Z.shiftl_spec by (destruct f; simpl; lia).
    rewrite Z.sub_diag. simpl. apply andb_false_r.
Qed.

(** A plain IRQ never loads the vector: the test of P.I comes after P.I has
    been set. *)
Lemma service_plain_irq_keeps_pc c :
  reg_pc (snd (service_interrupt IRQ false c)) = reg_pc c.
Proof.
  unfold service_interrupt, s_push16, s_push, set_flag, add_cycles, flag,
    set_s, wr, bind, gets, modify, ret. simpl.
  rewrite flag_of_set. reflexivity.
Qed.

(** C1, at the failing input: an IRQ is serviced with [brk = false] while
    P.I is clear and the vector at $FFFE holds $9000.  PC and P are pushed on
    the stack, seven cycles are counted, and PC keeps its value $8000 where
    the claim has the CPU jump to $9000. *)
Theorem plain_irq_with_i_clear_does_not_jump :
  let c' := snd (service_interrupt IRQ false irq_unmasked) in
  flag_of (reg_p irq_unmasked) fI = false /\
  mem_read16 (mem irq_unmasked) 0xFFFE = 0x9000 /\
  reg_pc irq_unmasked = 0x8000 /\
  reg_pc c' = 0x8000 /\
  reg_s c' = 0xFA /\
  mem_read (mem c') 0x01FD = 0x80 /\
  mem_read (mem c') 0x01FC = 0x00 /\
  mem_read (mem c') 0x01FB = 0x24 /\
  cycles c' = 7 /\
  reg_pc (snd (step legal_opcodes irq_unmasked)) = 0x8000.
Proof. repeat split; vm_compute; reflexivity. Qed.

(** *** [step] does not consult the state

    A computation is [halt_stable] when running it on a halted CPU gives the
    result and the final CPU of the same run on any other state, with the
    state Halted at the end. *)

Definition halt_stable {A : Type} (m : M A) : Prop :=
  forall c, m (with_state Halted c) = (fst (m c), with_state Halted (snd (m c))).

Lemma hs_ret {A : Type} (a : A) : halt_stable (ret a).
Proof. intros c. reflexivity. Qed.

Lemma hs_bind {A B : Type} (m : M A) (k : A -> M B) :
  halt_stable m -> (forall a, halt_stable (k a)) -> halt_stable (bind m k).
Proof.
  intros Hm Hk c. unfold bind. rewrite (Hm c).
  destruct (m c) as [a c']. simpl. apply Hk.
Qed.

Lemma hs_gets {A : Type} (f : CPU -> A) :
  (forall c, f (with_state Halted c) = f c) -> halt_stable (gets f).
Proof. intros Hf c. unfold gets. simpl. rewrite Hf. reflexivity. Qed.

Lemma hs_modify (g : CPU -> CPU) :
  (forall c, g (with_state Halted c) = with_state Halted (g c)) ->
  halt_stable (modify g).
Proof. intros Hg c. unfold modify. simpl. rewrite Hg. reflexivity. Qed.

Ltac hs_step :=
  first
    [ apply hs_ret
    | apply hs_bind; [| intros ?]
    | apply hs_gets; intros ?; reflexivity
    | apply hs_modify; intros ?; reflexivity
    | match goal with
      | |- halt_stable (match ?x with _ => _ end) => destruct x
      | |- halt_stable (if ?b then _ else _) => destruct b
      end ].

Ltac hs := repeat hs_step.

Lemma hs_s_pull : halt_stable s_pull.
Proof. unfold s_pull, set_s, rd. hs. Qed.

Lemma hs_s_push v : halt_stable (s_push v).
Proof. unfold s_push, set_s, wr. hs. Qed.

Lemma hs_s_pull16 : halt_stable s_pull16.
Proof. unfold s_pull16. hs; apply hs_s_pull. Qed.

Lemma hs_s_push16 v : halt_stable (s_push16 v).
Proof. unfold s_push16. hs; apply hs_s_push. Qed.

Lemma hs_service_interrupt i brk : halt_stable (service_interrupt i brk).
Proof.
  unfold service_interrupt, set_flag, add_cycles, flag, rd16, set_pc.
  hs; first [apply hs_s_push16 | apply hs_s_push].
Qed.

Lemma hs_arg8 : halt_stable arg8.
Proof. unfold arg8, set_pc, rd. hs. Qed.

Lemma hs_arg16 : halt_stable arg16.
Proof. unfold arg16, set_pc, rd16. hs. Qed.

Lemma hs_get_operand_addr opcode : halt_stable (get_operand_addr opcode).
Proof.
  unfold get_operand_addr, rd16_zpg, set_pc, add_cycles.
  hs; first [apply hs_arg8 | apply hs_arg16].
Qed.

Lemma hs_set_zn v : halt_stable (set_zn v).
Proof. unfold set_zn, set_flag. hs. Qed.

Lemma hs_branch cond addr : halt_stable (branch cond addr).
Proof. unfold branch, rd, add_cycles, set_pc. hs. Qed.

Lemma hs_exec opcode addr : halt_stable (exec opcode addr).
Proof.
  unfold exec, set_a, set_x, set_y, set_s, set_p, set_pc, set_flag, flag, rd,
    wr, set_state.
  hs;
    first [ apply hs_set_zn | apply hs_branch | apply hs_s_pull
          | apply hs_s_push | apply hs_s_pull16 | apply hs_s_push16
          | apply hs_service_interrupt ].
Qed.

Lemma hs_step Opcodes : halt_stable (step Opcodes).
Proof.
  unfold step, add_cycles.
  hs;
    first [ apply hs_arg8 | apply hs_get_operand_addr | apply hs_exec
          | apply hs_service_interrupt ].
Qed.

(** C2, as the claim states it, fails: the halted CPU in front of
    [LDA #$42] fetches and executes the instruction; [step] returns 2, A
    becomes $42 and PC advances by two. *)
Lemma halted_step_still_executes :
  state halted_lda = Halted /\
  step legal_opcodes halted_lda <> (0, halted_lda) /\
  fst (step legal_opcodes halted_lda) = 2 /\
  reg_a halted_lda = 0 /\
  reg_a (snd (step legal_opcodes halted_lda)) = 0x42 /\
  reg_pc (snd (step legal_opcodes halted_lda)) = 0x8002.
Proof.
  split; [reflexivity |]. split.
  - intros H. apply (f_equal fst) in H. vm_compute in H. discriminate.
  - repeat split; vm_compute; reflexivity.
Qed.

(** C2, amended: [step] never reads the state.  On a halted CPU it does the
    work it does on the same CPU in any other state (it services a pending
    interrupt, or fetches and executes the opcode at PC), returns the same
    number of cycles and leaves the same registers, memory and interrupt
    lines; the state is still Halted afterwards, and only [power_cycle] and
    [reset] make it Running. *)
Theorem step_on_halted_cpu Opcodes c :
  step Opcodes (with_state Halted c)
  = (fst (step Opcodes c), with_state Halted (snd (step Opcodes c)))
  /\ state (snd (step Opcodes (with_state Halted c))) = Halted
  /\ state (power_cycle c) = Running
  /\ state (reset c) = Running.
Proof.
  pose proof (hs_step Opcodes c) as H.
  split; [exact H |]. rewrite H. repeat split.
Qed.

Lemma page_u16 x : page (u16 x) = page x.
Proof.
  unfold page, u16. change 65536 with (2 ^ 16).
  rewrite <- Z.land_ones by lia. rewrite <- Z.land_assoc. reflexivity.
Qed.

Lemma mem_read_u16 m a : mem_read m (u16 a) = mem_read m a.
Proof. unfold mem_read. rewrite u16_idem. reflexivity. Qed.

Lemma branch_taken addr c :
  branch true addr c
  = (tt, with_pc (u16 (reg_pc c + i8 (mem_read (mem c) addr)))
           (with_cycles
              (u64 (cycles c +
                    (if page (reg_pc c + i8 (mem_read (mem c) addr))
                        =? page (reg_pc c)
                     then 1 else 3))) c)).
Proof.
  unfold branch, rd, add_cycles, set_pc, bind, gets, modify, ret.
  cbn [negb mem reg_pc cycles with_pc with_cycles fst snd].
  fold (page (reg_pc c)). fold (page (reg_pc c + i8 (mem_read (mem c) addr))).
  rewrite (Z.eqb_sym (page (reg_pc c))).
  destruct (page (reg_pc c + i8 (mem_read (mem c) addr)) =? page (reg_pc c));
    cbn [negb cycles reg_pc with_cycles with_pc].
  - reflexivity.
  - rewrite u64_add_l. replace (cycles c + 1 + 2) with (cycles c + 3) by lia.
    reflexivity.
Qed.

Lemma exec_taken_branch opc addr c :
  branch_cond (op_instr opc) (reg_p c) = Some true ->
  exec opc addr c = branch true addr c.
Proof.
  intros Hb. unfold exec.
  destruct (op_instr opc); try discriminate;
    simpl in Hb; injection Hb as Hb;
    unfold flag, bind, gets; rewrite Hb; reflexivity.
Qed.

Lemma step_taken_branch Opcodes c :
  lines_get (interrupt c) = NONE ->
  op_addrm (Opcodes (mem_read (mem c) (reg_pc c))) = rel ->
  branch_cond (op_instr (Opcodes (mem_read (mem c) (reg_pc c)))) (reg_p c) = Some true ->
  0 <= op_cycles (Opcodes (mem_read (mem c) (reg_pc c))) < 256 ->
  fst (step Opcodes c)
  = op_cycles (Opcodes (mem_read (mem c) (reg_pc c)))
    + (if page (branch_target c) =? page (post_pc c) then 1 else 3)
  /\ reg_pc (snd (step Opcodes c)) = branch_target c.
Proof.
  intros Hi Hm Hb Hc.
  unfold step, bind, gets. rewrite Hi.
  unfold arg8, bind, gets, set_pc, modify, rd, gets. cbn [reg_pc with_pc mem fst snd].
  set (opc := Opcodes (mem_read (mem c) (reg_pc c))) in *.
  unfold get_operand_addr. rewrite Hm.
  unfold bind, gets, set_pc, modify, ret. cbn [reg_pc with_pc mem fst snd].
  destruct (op_check_pg_cross opc).
  all: rewrite exec_taken_branch by exact Hb.
  all: rewrite branch_taken.
  all: unfold add_cycles, modify; cbn [reg_pc with_pc with_cycles mem cycles fst snd].
  all: rewrite u16_add_l, u64_add_l, u32_u64_sub, mem_read_u16.
  all: replace (reg_pc c + 1 + 1) with (reg_pc c + 2) by lia.
  all: fold (post_pc c); fold (branch_offset c).
  all: rewrite <- (page_u16 (post_pc c + _)); fold (branch_target c).
  all: split; [| reflexivity].
  all: destruct (page (branch_target c) =? page (post_pc c)).
  all: match goal with
       | |- u32 ?e = _ => ring_simplify e
       end.
  all: apply u32_small; lia.
Qed.

(** C3, as the claim states it, fails: [BNE] taken from $80F2 to $8112
    costs 5 cycles and [BNE] taken from $80F2 to $80F4 costs 3; the
    difference is 2, not 1. *)
Lemma taken_branch_costs_example :
  fst (step legal_opcodes bne_cross) = 5 /\
  fst (step legal_opcodes bne_same) = 3 /\
  reg_pc (snd (step legal_opcodes bne_cross)) = 0x8112 /\
  reg_pc (snd (step legal_opcodes bne_same)) = 0x80F4 /\
  fst (step legal_opcodes bne_cross) <> fst (step legal_opcodes bne_same) + 1.
Proof. repeat split; vm_compute; congruence. Qed.

(** C3, amended: for every taken branch instruction, executing it with a
    target whose high byte differs from the high byte of the PC after the
    operand costs exactly 2 more cycles than executing it with a target in
    the same page; in both runs PC ends at the target. *)
Theorem taken_branch_page_cross_costs_two Opcodes op c1 c2 :
  lines_get (interrupt c1) = NONE ->
  lines_get (interrupt c2) = NONE ->
  mem_read (mem c1) (reg_pc c1) = op ->
  mem_read (mem c2) (reg_pc c2) = op ->
  op_addrm (Opcodes op) = rel ->
  0 <= op_cycles (Opcodes op) < 256 ->
  branch_cond (op_instr (Opcodes op)) (reg_p c1) = Some true ->
  branch_cond (op_instr (Opcodes op)) (reg_p c2) = Some true ->
  page (branch_target c1) <> page (post_pc c1) ->
  page (branch_target c2) = page (post_pc c2) ->
  fst (step Opcodes c1) = fst (step Opcodes c2) + 2
  /\ reg_pc (snd (step Opcodes c1)) = branch_target c1
  /\ reg_pc (snd (step Opcodes c2)) = branch_target c2.
Proof.
  intros Hi1 Hi2 Ho1 Ho2 Hm Hc Hb1 Hb2 Hx Hs.
  subst op.
  destruct (step_taken_branch Opcodes c1 Hi1) as [Hn1 Hp1]; try assumption.
  destruct (step_taken_branch Opcodes c2 Hi2) as [Hn2 Hp2];
    try (rewrite Ho2; assumption).
  rewrite Hn1, Hn2, Ho2.
  apply Z.eqb_neq in Hx. apply Z.eqb_eq in Hs. rewrite Hx, Hs.
  repeat split; [lia | assumption | assumption].
Qed.

(** The amended C3 at [BNE] across and within a page. *)
Lemma taken_branch_page_cross_costs_two_witness :
  fst (step legal_opcodes bne_cross) = fst (step legal_opcodes bne_same) + 2
  /\ reg_pc (snd (step legal_opcodes bne_cross)) = branch_target bne_cross
  /\ reg_pc (snd (step legal_opcodes bne_same)) = branch_target bne_same.
Proof.
  apply (taken_branch_page_cross_costs_two legal_opcodes 0xD0 bne_cross bne_same);
    try reflexivity.
  - simpl. lia.
  - vm_compute. discriminate.
Defined.

(** *** Addresses *)

Lemma mem_read_congr m a b : u16 a = u16 b -> mem_read m a = mem_read m b.
Proof. intros H. unfold mem_read. rewrite H. reflexivity. Qed.

Lemma mem_read_range m a : 0 <= mem_read m a < 256.
Proof. apply u8_range. Qed.

Lemma mem_read_write m a v b :
  mem_read (mem_write m a v) b = if u16 b =? u16 a then u8 v else mem_read m b.
Proof.
  unfold mem_read, mem_write.
  destruct (u16 b =? u16 a); [apply u8_idem | reflexivity].
Qed.

Lemma pointer_bytes :
  forall pg, 0 <= pg < 256 ->
    Z.lor 0xFF (Z.shiftl pg 8) = pg * 256 + 0xFF
    /\ Z.lor (Z.land (pg * 256 + 0xFF) 0xFF00)
             (Z.land (pg * 256 + 0xFF + 1) 0x00FF) = pg * 256.
Proof.
  intros pg Hpg.
  pose proof (forall_byte
    (fun pg => (Z.lor 0xFF (Z.shiftl pg 8) =? pg * 256 + 0xFF)
               && (Z.lor (Z.land (pg * 256 + 0xFF) 0xFF00)
                         (Z.land (pg * 256 + 0xFF + 1) 0x00FF) =? pg * 256))
    eq_refl pg Hpg) as H.
  apply andb_true_iff in H. destruct H as [H1 H2].
  split; apply Z.eqb_eq; assumption.
Qed.

Lemma word_of_bytes :
  forall lo hi, 0 <= lo < 256 -> 0 <= hi < 256 ->
    u16 (Z.lor lo (Z.shiftl hi 8)) = Z.lor lo (Z.shiftl hi 8).
Proof.
  intros lo hi Hlo Hhi.
  apply Z.eqb_eq.
  apply (forall_byte2
           (fun lo hi => u16 (Z.lor lo (Z.shiftl hi 8)) =? Z.lor lo (Z.shiftl hi 8)));
    [vm_compute; reflexivity | assumption | assumption].
Qed.

(** C4: an indirect JMP whose pointer lies at $xxFF takes the low byte of
    its target from $xxFF and the high byte from $xx00, in the same page. *)
Theorem indirect_jmp_page_wrap Opcodes c pg :
  lines_get (interrupt c) = NONE ->
  op_instr (Opcodes 0x6C) = JMP ->
  op_addrm (Opcodes 0x6C) = ind_ ->
  mem_read (mem c) (reg_pc c) = 0x6C ->
  mem_read (mem c) (reg_pc c + 1) = 0xFF ->
  mem_read (mem c) (reg_pc c + 2) = pg ->
  reg_pc (snd (step Opcodes c))
  = Z.lor (mem_read (mem c) (pg * 256 + 0xFF))
          (Z.shiftl (mem_read (mem c) (pg * 256)) 8).
Proof.
  intros Hi Hin Ham Hop Hlo Hhi.
  assert (Hpg : 0 <= pg < 256) by (subst pg; apply mem_read_range).
  unfold step, bind, gets. rewrite Hi.
  unfold arg8, bind, gets, set_pc, modify, rd, gets.
  cbn [reg_pc with_pc mem fst snd]. rewrite Hop.
  unfold get_operand_addr. rewrite Ham.
  unfold arg16, rd16, rd16_zpg, bind, gets, set_pc, modify, ret.
  cbn [reg_pc with_pc mem fst snd].
  assert (Hw : mem_read16 (mem c) (u16 (u16 (u16 (reg_pc c + 1) + 2) - 2))
               = pg * 256 + 0xFF).
  { unfold mem_read16.
    rewrite (mem_read_congr (mem c) _ (reg_pc c + 1)), Hlo.
    - rewrite (mem_read_congr (mem c) _ (reg_pc c + 2)), Hhi.
      + apply pointer_bytes, Hpg.
      + rewrite u16_add_l.
        replace (u16 (u16 (reg_pc c + 1) + 2) - 2 + 1)
          with (u16 (u16 (reg_pc c + 1) + 2) - 1) by lia.
        rewrite u16_sub_l.
        replace (u16 (reg_pc c + 1) + 2 - 1) with (u16 (reg_pc c + 1) + 1) by lia.
        rewrite u16_add_l. f_equal. lia.
    - rewrite u16_idem, u16_sub_l.
      replace (u16 (reg_pc c + 1) + 2 - 2) with (u16 (reg_pc c + 1)) by lia.
      apply u16_idem. }
  rewrite Hw.
  destruct (op_check_pg_cross (Opcodes 0x6C)).
  all: unfold exec; rewrite Hin.
  all: unfold set_pc, modify, add_cycles; cbn [reg_pc with_pc with_cycles mem fst snd].
  all: unfold mem_read16_zpg.
  all: rewrite (proj2 (pointer_bytes pg Hpg)).
  all: apply word_of_bytes; apply mem_read_range.
Qed.

(** C4 at the scenario of the specification: 6C FF 10 at PC, $34 at $10FF
    and $12 at $1000 ($56 at $1100 is not read); one step sets PC to
    $1234. *)
Lemma indirect_jmp_page_wrap_witness :
  reg_pc (snd (step legal_opcodes jmp_page_bug)) = 0x1234.
Proof.
  rewrite (indirect_jmp_page_wrap legal_opcodes jmp_page_bug 0x10);
    reflexivity.
Defined.

(** C5, as the claim states it, fails: the register file includes PC, and
    [power_cycle] leaves PC as it finds it; two CPUs that differ in PC only
    still differ after [power_cycle]. *)
Lemma power_cycle_keeps_pc_example :
  reg_pc (power_cycle cpu_at_8000) = 0x8000 /\
  reg_pc (power_cycle cpu_at_C000) = 0xC000 /\
  reg_pc (power_cycle cpu_at_8000) <> reg_pc (power_cycle cpu_at_C000).
Proof. repeat split. discriminate. Qed.

(** C5, amended: [power_cycle] from any state yields A = X = Y = 0,
    S = $FD, P = $34, cycles = 0 and state Running, the same every time, and
    leaves PC unchanged. *)
Theorem power_cycle_registers c :
  reg_a (power_cycle c) = 0 /\
  reg_x (power_cycle c) = 0 /\
  reg_y (power_cycle c) = 0 /\
  reg_s (power_cycle c) = 0xFD /\
  reg_p (power_cycle c) = 0x34 /\
  cycles (power_cycle c) = 0 /\
  state (power_cycle c) = Running /\
  reg_pc (power_cycle c) = reg_pc c.
Proof. repeat split. Qed.

Lemma or_u_bit_byte p : 0 <= p < 256 -> u8 (Z.lor p 0x20) = Z.lor p 0x20.
Proof.
  intros Hp. apply Z.eqb_eq.
  apply (forall_byte (fun p => u8 (Z.lor p 0x20) =? Z.lor p 0x20));
    [vm_compute; reflexivity | assumption].
Qed.

Lemma flag_of_or_u p f :
  flag_of (Z.lor p 0x20) f = match f with fU => true | _ => flag_of p f end.
Proof.
  unfold flag_of. rewrite Z.lor_spec.
  destruct f; cbn [flag_bit];
    first [apply orb_true_r | apply orb_false_r].
Qed.

Lemma step_php Opcodes c :
  lines_get (interrupt c) = NONE ->
  mem_read (mem c) (reg_pc c) = 0x08 ->
  op_instr (Opcodes 0x08) = PHP ->
  op_addrm (Opcodes 0x08) = impl ->
  snd (step Opcodes c)
  = with_cycles (u64 (cycles c + op_cycles (Opcodes 0x08)))
      (with_mem (mem_write (mem c) (0x0100 + reg_s c) (reg_p c))
         (with_s (u8 (reg_s c - 1)) (with_pc (u16 (reg_pc c + 1)) c))).
Proof.
  intros Hi Hop Hin Ham.
  unfold step, bind, gets. rewrite Hi.
  unfold arg8, bind, gets, set_pc, modify, rd, gets.
  cbn [reg_pc with_pc mem fst snd]. rewrite Hop.
  unfold get_operand_addr. rewrite Ham.
  unfold exec. rewrite Hin.
  destruct (op_check_pg_cross (Opcodes 0x08)); reflexivity.
Qed.

Lemma step_plp Opcodes c :
  lines_get (interrupt c) = NONE ->
  mem_read (mem c) (reg_pc c) = 0x28 ->
  op_instr (Opcodes 0x28) = PLP ->
  op_addrm (Opcodes 0x28) = impl ->
  reg_p (snd (step Opcodes c))
  = u8 (Z.lor (mem_read (mem c) (0x0100 + u8 (reg_s c + 1))) 0x20).
Proof.
  intros Hi Hop Hin Ham.
  unfold step, bind, gets. rewrite Hi.
  unfold arg8, bind, gets, set_pc, modify, rd, gets.
  cbn [reg_pc with_pc mem fst snd]. rewrite Hop.
  unfold get_operand_addr. rewrite Ham.
  unfold exec. rewrite Hin.
  destruct (op_check_pg_cross (Opcodes 0x28)); reflexivity.
Qed.

(** C6: for every 8-bit value of P, PHP followed by PLP leaves P equal to
    that value with bit 5 (U) set: U reads 1 and every other flag is as it
    was.  The two opcodes are at PC and PC + 1, outside the stack slot PHP
    writes. *)
Theorem php_plp_sets_u Opcodes c :
  lines_get (interrupt c) = NONE ->
  op_instr (Opcodes 0x08) = PHP -> op_addrm (Opcodes 0x08) = impl ->
  op_instr (Opcodes 0x28) = PLP -> op_addrm (Opcodes 0x28) = impl ->
  mem_read (mem c) (reg_pc c) = 0x08 ->
  mem_read (mem c) (reg_pc c + 1) = 0x28 ->
  0 <= reg_p c < 256 ->
  0 <= reg_s c < 256 ->
  u16 (reg_pc c + 1) <> 0x0100 + reg_s c ->
  reg_p (snd (step Opcodes (snd (step Opcodes c)))) = Z.lor (reg_p c) 0x20
  /\ forall f,
       flag_of (reg_p (snd (step Opcodes (snd (step Opcodes c))))) f
       = match f with fU => true | _ => flag_of (reg_p c) f end.
Proof.
  intros Hi Hphp Hphpm Hplp Hplpm Hop1 Hop2 Hp Hs Hne.
  assert (Hraw : reg_p (snd (step Opcodes (snd (step Opcodes c))))
                 = Z.lor (reg_p c) 0x20);
    [| split; [exact Hraw | intros f; rewrite Hraw; apply flag_of_or_u]].
  rewrite (step_php Opcodes c Hi Hop1 Hphp Hphpm).
  rewrite step_plp; try assumption.
  - cbn [reg_s mem with_cycles with_mem with_s with_pc].
    rewrite mem_read_write.
    rewrite u8_add_l. replace (reg_s c - 1 + 1) with (reg_s c) by lia.
    rewrite (u8_small (reg_s c)) by assumption.
    rewrite Z.eqb_refl, (u8_small (reg_p c)) by assumption.
    apply or_u_bit_byte. assumption.
  - cbn [reg_pc mem with_cycles with_mem with_s with_pc].
    rewrite mem_read_write, u16_idem.
    rewrite (u16_small (256 + reg_s c)) by lia.
    destruct (Z.eqb_spec (u16 (reg_pc c + 1)) (256 + reg_s c)) as [E | _];
      [contradiction |].
    rewrite mem_read_u16. assumption.
Qed.

(** C6 at P = $C3: PHP then PLP give P = $E3. *)
Lemma php_plp_sets_u_witness :
  reg_p php_plp = 0xC3 /\
  reg_p (snd (step legal_opcodes (snd (step legal_opcodes php_plp)))) = 0xE3.
Proof.
  split; [reflexivity |].
  refine (proj1 (php_plp_sets_u legal_opcodes php_plp _ _ _ _ _ _ _ _ _ _));
    try reflexivity.
  - simpl. lia.
  - simpl. lia.
  - vm_compute. discriminate.
Defined.

End CPUFacts.

(** ** Properties of wideNES *)

Module WideNESFacts.

Import WideNES BitsFacts.

(** *** Loops *)

Lemma foldl_inv {A B : Type} (f : A -> B -> A) (I : A -> Prop) (l : list B) :
  (forall a x, x ∈ l -> I a -> I (f a x)) -> forall a, I a -> I (foldl f a l).
Proof.
  induction l as [| x l IH]; intros Hf a Ha; simpl; [exact Ha |].
  apply IH.
  - intros a' y Hy. apply Hf. right. exact Hy.
  - apply Hf; [left | exact Ha].
Qed.

Lemma foldl_each {A B : Type} (f : A -> B -> A) (Q : B -> A -> Prop) (l : list B) :
  (forall a x, Q x (f a x)) ->
  (forall a x y, Q y a -> Q y (f a x)) ->
  forall a x, x ∈ l -> Q x (foldl f a l).
Proof.
  intros Hset Hkeep.
  induction l as [| x0 l IH]; intros a x Hx; simpl.
  - inversion Hx.
  - apply elem_of_cons in Hx. destruct Hx as [-> | Hx].
    + apply (foldl_inv f (Q x0)); [| apply Hset].
      intros a' y _. apply Hkeep.
    + apply IH, Hx.
Qed.

Lemma elem_of_range lo hi i : i ∈ range lo hi <-> lo <= i < hi.
Proof. unfold range. rewrite elem_of_seqZ. lia. Qed.

(** *** The tile map *)

Lemma tile_at_put m a b v x y :
  tile_at (tile_put m a b v) x y
  = if decide (x = a /\ y = b) then Some v else tile_at m x y.
Proof.
  unfold tile_at, tile_put.
  destruct (decide (x = a)) as [-> | Hx].
  - rewrite lookup_insert_eq.
    destruct (decide (y = b)) as [-> | Hy].
    + rewrite lookup_insert_eq. rewrite decide_True by done. reflexivity.
    + rewrite lookup_insert_ne by done.
      rewrite decide_False by (intros [_ ?]; done).
      destruct (m !! a); [reflexivity | apply lookup_empty].
  - rewrite lookup_insert_ne by done.
    rewrite decide_False by (intros [? _]; done). reflexivity.
Qed.

Lemma tile_at_touch m a b x y :
  tile_at (tile_touch m a b) x y
  = if decide (x = a /\ y = b)
    then Some (default None (tile_at m a b))
    else tile_at m x y.
Proof.
  unfold tile_touch.
  destruct (tile_at m a b) as [e |] eqn:E.
  - case_decide as H; [| reflexivity]. destruct H as [-> ->]. exact E.
  - apply tile_at_put.
Qed.

Lemma tile_at_empty x y : tile_at ∅ x y = None.
Proof. unfold tile_at. rewrite lookup_empty. reflexivity. Qed.

(** *** Loop 1): the projection of the pixels *)

Lemma tile_at_project_pixel fbuf s m sx sy x y :
  tile_at (project_pixel fbuf s m sx sy) x y
  = if decide (x = pixel_tx s sx /\ y = pixel_ty s sy)
    then Some (Some (write_pixel fbuf s
                       (match tile_at (tile_touch m (pixel_tx s sx) (pixel_ty s sy))
                                      (pixel_tx s sx) (pixel_ty s sy) with
                        | Some (Some t) => t
                        | _ => new_Tile (pixel_tx s sx) (pixel_ty s sy)
                        end)
                       (pixel_tx s sx) (pixel_ty s sy) sx sy))
    else tile_at m x y.
Proof.
  unfold project_pixel. rewrite tile_at_put.
  case_decide as H; [reflexivity |].
  rewrite tile_at_touch. rewrite decide_False by exact H. reflexivity.
Qed.

Lemma total_nonneg_frame ppu s :
  total_nonneg (scroll_step (padding (heuristics ppu s))).
Proof. unfold total_nonneg. simpl. lia. Qed.

(** The [assert] of loop 1) holds of every pixel the loop visits. *)
Lemma window_in_screen s sx sy :
  total_nonneg s -> in_window s sx sy -> 0 <= sx < 256 /\ 0 <= sy < 240.
Proof. unfold total_nonneg, in_window. lia. Qed.

Lemma pixel_tile_near s sx sy :
  0 <= sx < 256 -> 0 <= sy < 240 -> near s (pixel_tx s sx) (pixel_ty s sy).
Proof.
  intros Hx Hy. unfold near, pixel_tx, pixel_ty.
  split; Z.div_mod_to_equations; lia.
Qed.

(** The destination block of a pixel is inside the 16 x 15 grid. *)
Lemma pixel_block_in_grid s sx sy :
  0 <= sx < 256 -> 0 <= sy < 240 ->
  let dx := u32 ((scroll_x (scroll s) - pixel_tx s sx * 256) + sx) in
  let dy := u32 ((scroll_y (scroll s) - pixel_ty s sy * 240) + sy) in
  0 <= dx `div` 16 < 16 /\ 0 <= dy `div` 16 < 15.
Proof.
  intros Hx Hy. unfold pixel_tx, pixel_ty, u32. cbv zeta.
  split; Z.div_mod_to_equations; lia.
Qed.

Lemma project_pixels_inv fbuf s (I : gmap Z (gmap Z (option Tile)) -> Prop) m :
  (forall m sx sy, in_window s sx sy -> I m -> I (project_pixel fbuf s m sx sy)) ->
  I m -> I (project_pixels fbuf s m).
Proof.
  intros Hstep Hm. unfold project_pixels.
  apply (foldl_inv _ I); [| exact Hm].
  intros m1 sx Hsx Hm1.
  apply (foldl_inv _ I); [| exact Hm1].
  intros m2 sy Hsy Hm2.
  apply Hstep; [| exact Hm2].
  apply elem_of_range in Hsx. apply elem_of_range in Hsy.
  split; assumption.
Qed.

(** Loop 1) leaves the counters of the tiles away from the scroll position
    as they were. *)
Lemma project_pixels_far fbuf s m :
  total_nonneg s -> fill_clear m ->
  forall x y t, tile_at (project_pixels fbuf s m) x y = Some (Some t) ->
    ~ near s x y -> zero_fill t.
Proof.
  intros Hnn Hm.
  apply (project_pixels_inv fbuf s
    (fun m' => forall x y t, tile_at m' x y = Some (Some t) ->
                 ~ near s x y -> zero_fill t)).
  - intros m' sx sy Hw IH x y t Ht Hfar.
    rewrite tile_at_project_pixel in Ht.
    case_decide as Hxy.
    + destruct Hxy as [-> ->]. exfalso. apply Hfar.
      destruct (window_in_screen s sx sy Hnn Hw).
      apply pixel_tile_near; assumption.
    + apply (IH x y t Ht Hfar).
  - intros x y t Ht _ bx by_ Hbx Hby. apply (Hm x y t Ht bx by_ Hbx Hby).
Qed.

(** *** Loop 2): the commit of the blocks *)

Lemma fill_copy_pixel bx by_ t x y : fill (copy_pixel bx by_ t x y) = fill t.
Proof. reflexivity. Qed.

Lemma fill_commit_block t bx by_ :
  fill (commit_block t bx by_) = upd2 (fill t) bx by_ 0.
Proof.
  unfold commit_block. cbn [fill].
  destruct (fill t bx by_ =? 256); reflexivity.
Qed.

Lemma upd2_same {A : Type} (a : Z -> Z -> A) i j v : upd2 a i j v i j = v.
Proof. unfold upd2. rewrite !Z.eqb_refl. reflexivity. Qed.

Lemma upd2_zero a i j x y : a x y = 0 -> upd2 a i j 0 x y = 0.
Proof. intros H. unfold upd2. destruct (_ && _); [reflexivity | exact H]. Qed.

(** The block loop resets every counter of the tile. *)
Lemma commit_tile_zero_fill t : zero_fill (commit_tile t).
Proof.
  intros bx by_ Hbx Hby. unfold commit_tile.
  apply (foldl_each _ (fun bx t' => forall by_, 0 <= by_ < 15 -> fill t' bx by_ = 0))
    with (x := bx); [| | apply elem_of_range; lia | exact Hby].
  - intros t1 x y Hy.
    apply (foldl_each _ (fun y t' => fill t' x y = 0));
      [| | apply elem_of_range; lia].
    + intros t2 y'. rewrite fill_commit_block. apply upd2_same.
    + intros t2 y1 y2 H2. rewrite fill_commit_block. apply upd2_zero, H2.
  - intros t1 x1 x2 H1 y Hy.
    apply (foldl_inv _ (fun t' => fill t' x2 y = 0)); [| apply H1, Hy].
    intros t2 y' _ H2. rewrite fill_commit_block. apply upd2_zero, H2.
Qed.

Lemma tile_at_commit_at m a b x y :
  tile_at (commit_at m a b) x y
  = if decide (x = a /\ y = b)
    then Some (commit_tile <$> default None (tile_at m a b))
    else tile_at m x y.
Proof.
  unfold commit_at.
  pose proof (tile_at_touch m a b a b) as Hab.
  rewrite decide_True in Hab by done.
  rewrite Hab.
  destruct (default None (tile_at m a b)) as [t |] eqn:E.
  - rewrite tile_at_put. case_decide as H; [reflexivity |].
    rewrite tile_at_touch, decide_False by exact H. reflexivity.
  - rewrite tile_at_touch, E. reflexivity.
Qed.

Lemma commit_at_zero_here m a b : zero_at (commit_at m a b) a b.
Proof.
  intros t Ht. rewrite tile_at_commit_at, decide_True in Ht by done.
  destruct (default None (tile_at m a b)) as [t0 |]; [| discriminate].
  injection Ht as <-. apply commit_tile_zero_fill.
Qed.

Lemma commit_at_zero_kept m a b x y :
  zero_at m x y -> zero_at (commit_at m a b) x y.
Proof.
  intros Hz. destruct (decide (x = a /\ y = b)) as [[-> ->] | H].
  - apply commit_at_zero_here.
  - intros t Ht. rewrite tile_at_commit_at, decide_False in Ht by exact H.
    apply (Hz t Ht).
Qed.

Lemma touch_zero_kept m a b x y :
  zero_at m x y -> zero_at (tile_touch m a b) x y.
Proof.
  intros Hz t Ht. rewrite tile_at_touch in Ht.
  case_decide as H; [| apply (Hz t Ht)].
  destruct H as [-> ->].
  destruct (tile_at m a b) as [e |] eqn:E; [| discriminate].
  injection Ht as ->. apply (Hz t E).
Qed.

Lemma around_unfold s body m :
  around s body m
  = let tx := scroll_x (scroll s) `div` 256 in
    let ty := scroll_y (scroll s) `div` 240 in
    body (body (body (body m tx ty) tx (ty + 1)) (tx + 1) ty) (tx + 1) (ty + 1).
Proof. unfold around. cbn [foldl]. rewrite !Z.add_0_r. reflexivity. Qed.

(** After loop 2) the four tiles around the scroll position have their
    counters at zero, and a tile that had them at zero before still has. *)
Lemma commit_blocks_zero s m x y :
  near s x y \/ zero_at m x y -> zero_at (commit_blocks s m) x y.
Proof.
  unfold commit_blocks. rewrite around_unfold. cbv zeta.
  set (tx := scroll_x (scroll s) `div` 256).
  set (ty := scroll_y (scroll s) `div` 240).
  intros [[Hx Hy] | Hz].
  - fold tx in Hx. fold ty in Hy.
    destruct Hx as [-> | ->], Hy as [-> | ->].
    + do 3 apply commit_at_zero_kept. apply commit_at_zero_here.
    + do 2 apply commit_at_zero_kept. apply commit_at_zero_here.
    + do 1 apply commit_at_zero_kept. apply commit_at_zero_here.
    + apply commit_at_zero_here.
  - do 4 apply commit_at_zero_kept. exact Hz.
Qed.

Lemma update_textures_zero s m x y :
  zero_at m x y -> zero_at (update_textures s m) x y.
Proof.
  intros Hz. unfold update_textures. rewrite around_unfold. cbv zeta.
  do 4 apply touch_zero_kept. exact Hz.
Qed.

Lemma near_dec s x y : near s x y \/ ~ near s x y.
Proof. unfold near. lia. Qed.

(** One frame keeps every counter of every tile at zero. *)
Lemma tile_step_fill_clear ppu s :
  total_nonneg s -> fill_clear (tiles s) -> fill_clear (tiles (tile_step ppu s)).
Proof.
  intros Hnn Hm x y t Ht. revert t Ht.
  change (zero_at (tiles (tile_step ppu s)) x y). cbn [tile_step tiles].
  apply update_textures_zero, commit_blocks_zero.
  destruct (near_dec s x y) as [Hn | Hf]; [left; exact Hn | right].
  intros t Ht. apply (project_pixels_far _ s (tiles s) Hnn Hm x y t Ht Hf).
Qed.

Lemma frame_end_fill_clear ppu s :
  fill_clear (tiles s) -> fill_clear (tiles (ppu_frame_end_handler ppu s)).
Proof.
  intros Hm. unfold ppu_frame_end_handler.
  apply tile_step_fill_clear; [apply total_nonneg_frame | exact Hm].
Qed.

Lemma fill_clear_empty : fill_clear ∅.
Proof. intros x y t Ht. rewrite tile_at_empty in Ht. discriminate. Qed.

Lemma handle_fill_clear s e : fill_clear (tiles s) -> fill_clear (tiles (handle s e)).
Proof.
  intros Hm. destruct e as [addr val | ppu addr val | latch en | ppu | menu key sh];
    cbn [handle].
  - exact Hm.
  - unfold ppu_write_end_handler.
    destruct (_ =? PPUSCROLL); [exact Hm |].
    destruct (_ =? PPUADDR); exact Hm.
  - exact Hm.
  - apply frame_end_fill_clear, Hm.
  - unfold input. destruct menu; [exact Hm |].
    destruct key; try exact Hm. apply fill_clear_empty.
Qed.

Lemma run_fill_clear es : forall s, fill_clear (tiles s) -> fill_clear (tiles (run s es)).
Proof.
  unfold run. induction es as [| e es IH]; intros s Hs; simpl; [exact Hs |].
  apply IH, handle_fill_clear, Hs.
Qed.

(** C7: after every call of [ppu_frame_end_handler], whatever callbacks the
    engine has received before, every block counter [fill[bx][by]] of every
    tile of the map is zero, although loop 2) only resets the tiles around
    the scroll position: loop 1) writes to those tiles only. *)
Theorem fill_is_zero_after_every_frame es ppu :
  fill_clear (tiles (ppu_frame_end_handler ppu (run init es))).
Proof.
  apply frame_end_fill_clear, run_fill_clear. apply fill_clear_empty.
Qed.

(** *** Entries of the tile map *)

Lemma around_inv s body (I : gmap Z (gmap Z (option Tile)) -> Prop) m :
  (forall m a b, I m -> I (body m a b)) -> I m -> I (around s body m).
Proof. intros Hb Hm. rewrite around_unfold. cbv zeta. do 4 apply Hb. exact Hm. Qed.

Lemma touch_has_entry m a b x y :
  has_entry m x y -> has_entry (tile_touch m a b) x y.
Proof.
  unfold has_entry. rewrite tile_at_touch.
  case_decide; [intros _; eexists; reflexivity | trivial].
Qed.

Lemma touch_has_entry_here m a b : has_entry (tile_touch m a b) a b.
Proof.
  unfold has_entry. rewrite tile_at_touch, decide_True by done.
  eexists; reflexivity.
Qed.

Lemma commit_at_has_entry m a b x y :
  has_entry m x y -> has_entry (commit_at m a b) x y.
Proof.
  unfold has_entry. rewrite tile_at_commit_at.
  case_decide; [intros _; eexists; reflexivity | trivial].
Qed.

Lemma project_pixel_has_entry fbuf s m sx sy x y :
  has_entry m x y -> has_entry (project_pixel fbuf s m sx sy) x y.
Proof.
  unfold has_entry. rewrite tile_at_project_pixel.
  case_decide; [intros _; eexists; reflexivity | trivial].
Qed.

Lemma touch_has_tile m a b x y :
  has_tile (tile_touch m a b) x y <-> has_tile m x y.
Proof.
  unfold has_tile. rewrite tile_at_touch.
  case_decide as H; [| reflexivity].
  destruct H as [-> ->].
  destruct (tile_at m a b) as [e |]; simpl; [reflexivity |].
  split; intros [t Ht]; discriminate.
Qed.

Lemma commit_at_has_tile m a b x y :
  has_tile (commit_at m a b) x y <-> has_tile m x y.
Proof.
  unfold has_tile. rewrite tile_at_commit_at.
  case_decide as H; [| reflexivity].
  destruct H as [-> ->].
  destruct (tile_at m a b) as [[t0 |] |]; simpl.
  - split; intros _; eexists; reflexivity.
  - split; intros [t Ht]; discriminate.
  - split; intros [t Ht]; discriminate.
Qed.

Lemma project_pixel_has_tile fbuf s m sx sy x y :
  has_tile (project_pixel fbuf s m sx sy) x y
  <-> (x = pixel_tx s sx /\ y = pixel_ty s sy) \/ has_tile m x y.
Proof.
  unfold has_tile. rewrite tile_at_project_pixel.
  case_decide as H.
  - split; [intros _; left; exact H | intros _; eexists; reflexivity].
  - split; [intros Ht; right; exact Ht | intros [Hxy | Ht]; [contradiction | exact Ht]].
Qed.

(** A tile of the map after loop 1) was there before, or a pixel of the
    window falls in it. *)
Lemma project_pixels_has_tile fbuf s m x y :
  has_tile (project_pixels fbuf s m) x y -> has_tile m x y \/ window_writes s x y.
Proof.
  apply (project_pixels_inv fbuf s
    (fun m' => has_tile m' x y -> has_tile m x y \/ window_writes s x y)).
  - intros m' sx sy Hw IH Ht.
    apply project_pixel_has_tile in Ht. destruct Ht as [[-> ->] | Ht].
    + right. exists sx, sy. repeat split; try reflexivity; apply Hw.
    + apply IH, Ht.
  - intros Ht. left. exact Ht.
Qed.

Lemma tile_step_has_tile ppu s x y :
  has_tile (tiles (tile_step ppu s)) x y ->
  has_tile (tiles s) x y \/ window_writes s x y.
Proof.
  cbn [tile_step tiles]. intros Ht.
  apply (project_pixels_has_tile (framebuff_bgr ppu)).
  revert Ht. unfold update_textures, commit_blocks.
  rewrite !around_unfold. cbv zeta.
  rewrite !touch_has_tile, !commit_at_has_tile. trivial.
Qed.

Lemma frame_end_has_tile ppu s x y :
  has_tile (tiles (ppu_frame_end_handler ppu s)) x y ->
  has_tile (tiles s) x y \/ frame_writes ppu s x y.
Proof.
  unfold ppu_frame_end_handler, frame_writes.
  apply (tile_step_has_tile ppu (scroll_step (padding (heuristics ppu s)))).
Qed.

Lemma tile_step_has_entry ppu s x y :
  has_entry (tiles s) x y -> has_entry (tiles (tile_step ppu s)) x y.
Proof.
  intros He. cbn [tile_step tiles].
  apply (around_inv s tile_touch (fun m => has_entry m x y));
    [intros; apply touch_has_entry; assumption |].
  apply (around_inv s commit_at (fun m => has_entry m x y));
    [intros; apply commit_at_has_entry; assumption |].
  apply (project_pixels_inv _ s (fun m => has_entry m x y)); [| exact He].
  intros; apply project_pixel_has_entry; assumption.
Qed.

(** Loops 2) and 3) leave an entry, null if need be, for each of the four
    coordinates around the scroll position. *)
Lemma tile_step_entry_near ppu s x y :
  near s x y -> has_entry (tiles (tile_step ppu s)) x y.
Proof.
  intros [Hx Hy]. cbn [tile_step tiles].
  unfold update_textures. rewrite around_unfold. cbv zeta.
  set (tx := scroll_x (scroll s) `div` 256) in *.
  set (ty := scroll_y (scroll s) `div` 240) in *.
  destruct Hx as [-> | ->], Hy as [-> | ->].
  - do 3 apply touch_has_entry. apply touch_has_entry_here.
  - do 2 apply touch_has_entry. apply touch_has_entry_here.
  - do 1 apply touch_has_entry. apply touch_has_entry_here.
  - apply touch_has_entry_here.
Qed.

(** A pixel of the window creates its tile. *)
Lemma project_pixels_writes fbuf s m x y :
  window_writes s x y -> has_tile (project_pixels fbuf s m) x y.
Proof.
  intros (sx & sy & [Hsx Hsy] & <- & <-).
  unfold project_pixels.
  apply (foldl_each _ (fun sx m' => has_tile m' (pixel_tx s sx) (pixel_ty s sy)))
    with (x := sx); [| | apply elem_of_range; exact Hsx].
  - intros m1 sx1.
    apply (foldl_each _ (fun sy m' => has_tile m' (pixel_tx s sx1) (pixel_ty s sy)))
      with (x := sy); [| | apply elem_of_range; exact Hsy].
    + intros m2 sy2. apply project_pixel_has_tile. left. done.
    + intros m2 sy1 sy2 H2. apply project_pixel_has_tile. right. exact H2.
  - intros m1 sx1 sx2 H1.
    apply (foldl_inv _ (fun m' => has_tile m' (pixel_tx s sx2) (pixel_ty s sy)));
      [| exact H1].
    intros m2 sy1 _ H2. apply project_pixel_has_tile. right. exact H2.
Qed.

Lemma frame_end_writes ppu s x y :
  frame_writes ppu s x y -> has_tile (tiles (ppu_frame_end_handler ppu s)) x y.
Proof.
  intros Hw. unfold ppu_frame_end_handler. cbn [tile_step tiles].
  unfold update_textures, commit_blocks.
  rewrite !around_unfold. cbv zeta.
  rewrite !touch_has_tile, !commit_at_has_tile.
  apply project_pixels_writes. exact Hw.
Qed.

Lemma handle_tiles_other s e :
  match e with
  | EvFrameEnd _ => True
  | EvInput false SDLK_k _ => True
  | _ => tiles (handle s e) = tiles s
  end.
Proof.
  destruct e as [addr val | ppu addr val | latch en | ppu | menu key sh];
    cbn [handle]; try reflexivity; try exact I.
  - unfold ppu_write_end_handler.
    destruct (_ =? PPUSCROLL); [reflexivity |].
    destruct (_ =? PPUADDR); reflexivity.
  - destruct menu; [reflexivity |]. destruct key; try reflexivity; exact I.
Qed.

Lemma handle_has_entry s e x y :
  not_clear e -> has_entry (tiles s) x y -> has_entry (tiles (handle s e)) x y.
Proof.
  intros Hnc He. pose proof (handle_tiles_other s e) as H.
  destruct e as [addr val | ppu addr val | latch en | ppu | menu key sh];
    try (rewrite H; exact He).
  - apply tile_step_has_entry, He.
  - destruct menu; [rewrite H; exact He |].
    destruct key; try (rewrite H; exact He). destruct Hnc.
Qed.

Lemma written_spec s e es x y :
  written s (e :: es) x y
  <-> written (handle s e) es x y
      \/ (exists ppu, e = EvFrameEnd ppu /\ frame_writes ppu s x y
                      /\ Forall not_clear es).
Proof.
  cbn [written]. split; (intros [H | H]; [left; exact H | right]).
  - destruct e; try contradiction. eexists; split; [reflexivity | exact H].
  - destruct H as (ppu & -> & H). exact H.
Qed.

Lemma run_cons s e es : run s (e :: es) = run (handle s e) es.
Proof. reflexivity. Qed.

(** A tile of the map was in the map at the start and the map has not been
    cleared since, or a pixel has been written into it. *)
Lemma run_has_tile es :
  forall s x y,
    has_tile (tiles (run s es)) x y ->
    (has_tile (tiles s) x y /\ Forall not_clear es) \/ written s es x y.
Proof.
  induction es as [| e es IH]; intros s x y Ht.
  - left. split; [exact Ht | constructor].
  - rewrite run_cons in Ht.
    apply IH in Ht. rewrite written_spec.
    destruct Ht as [[Ht Hnc] | Hw]; [| right; left; exact Hw].
    assert (Hkeep : tiles (handle s e) = tiles s -> not_clear e ->
              (has_tile (tiles s) x y /\ Forall not_clear (e :: es))
              \/ written (handle s e) es x y
              \/ (exists ppu, e = EvFrameEnd ppu /\ frame_writes ppu s x y
                              /\ Forall not_clear es)).
    { intros Heq He. rewrite Heq in Ht. left.
      split; [exact Ht | constructor; assumption]. }
    pose proof (handle_tiles_other s e) as H.
    destruct e as [addr val | ppu addr val | latch en | ppu | menu key sh].
    + apply Hkeep; [exact H | exact I].
    + apply Hkeep; [exact H | exact I].
    + apply Hkeep; [exact H | exact I].
    + cbn [handle] in Ht. apply frame_end_has_tile in Ht. destruct Ht as [Ht | Hw].
      * left. split; [exact Ht | constructor; [exact I | exact Hnc]].
      * right. right. exists ppu. repeat split; assumption.
    + destruct menu; [apply Hkeep; [exact H | exact I] |].
      destruct key; try (apply Hkeep; [exact H | exact I]).
      destruct Ht as [t Ht]. cbn [handle input tiles] in Ht.
      rewrite tile_at_empty in Ht. discriminate.
Qed.

Lemma first_frame_scroll :
  scroll (scroll_step (padding (heuristics blank_view init))) = mkScroll 0 0 0 0.
Proof. vm_compute. reflexivity. Qed.

(** C9, as the claim states it, fails: after the first frame the map has an
    entry for (1, 1), the null pointer, and no pixel has ever been written
    into that tile. *)
Lemma null_entry_without_pixels :
  tile_at (tiles (run init [EvFrameEnd blank_view])) 1 1 = Some None /\
  ~ written init [EvFrameEnd blank_view] 1 1.
Proof.
  assert (Hnw : ~ written init [EvFrameEnd blank_view] 1 1).
  { rewrite written_spec. intros [H | (ppu & Hppu & Hw & _)]; [exact H |].
    injection Hppu as <-.
    destruct Hw as (sx & sy & Hwin & Hx & _).
    apply (window_in_screen _ sx sy (total_nonneg_frame blank_view init)) in Hwin.
    revert Hx. unfold pixel_tx. rewrite first_frame_scroll. cbn [scroll_x].
    Z.div_mod_to_equations. lia. }
  split; [| exact Hnw].
  assert (He : has_entry (tiles (run init [EvFrameEnd blank_view])) 1 1).
  { rewrite run_cons. unfold run. cbn [foldl handle]. unfold ppu_frame_end_handler.
    apply tile_step_entry_near. unfold near. rewrite first_frame_scroll.
    cbn [scroll_x scroll_y]. split; right; reflexivity. }
  destruct He as [[t |] He]; [| exact He].
  exfalso. apply Hnw.
  destruct (run_has_tile [EvFrameEnd blank_view] init 1 1) as [[[t0 Ht] _] | Hw].
  - exists t. exact He.
  - change (tiles init) with (∅ : gmap Z (gmap Z (option Tile))) in Ht.
    rewrite tile_at_empty in Ht. discriminate.
  - exact Hw.
Qed.

(** C9, amended: the map holds a tile for [(tx, ty)] only if a pixel has
    been written into that tile since the map was last cleared, and a frame
    that writes a pixel into a tile leaves that tile in the map; besides,
    every frame end leaves an entry, the null pointer where there is no
    tile, for each of the four coordinates around the scroll position; no
    entry is removed by a callback other than the key that clears the
    map. *)
Theorem tiles_hold_written_tiles es :
  (forall x y t, tile_at (tiles (run init es)) x y = Some (Some t) ->
     written init es x y)
  /\ (forall ppu x y, frame_writes ppu (run init es) x y ->
        has_tile (tiles (ppu_frame_end_handler ppu (run init es))) x y)
  /\ (forall ppu x y,
        near (scroll_step (padding (heuristics ppu (run init es)))) x y ->
        has_entry (tiles (ppu_frame_end_handler ppu (run init es))) x y)
  /\ (forall e x y, not_clear e -> has_entry (tiles (run init es)) x y ->
        has_entry (tiles (handle (run init es) e)) x y).
Proof.
  repeat split.
  - intros x y t Ht.
    destruct (run_has_tile es init x y) as [[[t0 Ht0] _] | Hw];
      [exists t; exact Ht | | exact Hw].
    change (tiles init) with (∅ : gmap Z (gmap Z (option Tile))) in Ht0.
    rewrite tile_at_empty in Ht0. discriminate.
  - intros ppu x y. apply frame_end_writes.
  - intros ppu x y. unfold ppu_frame_end_handler. apply tile_step_entry_near.
  - intros e x y. apply handle_has_entry.
Qed.

(** *** The scroll deltas *)

Lemma init_scrolls_are_bytes : scrolls_are_bytes init.
Proof. unfold scrolls_are_bytes, byte_scroll. cbn. lia. Qed.

Lemma heuristics_curr_scroll ppu s :
  scrolls_are_bytes s -> byte_scroll (curr_scroll (heuristics ppu s)).
Proof.
  intros (Hl & Hc & Hp & Hi & Hn). unfold heuristics. cbn [curr_scroll].
  unfold byte_scroll in *.
  repeat match goal with
         | |- context [if ?b then _ else _] => destruct b
         end; cbn [ns_x ns_y]; lia.
Qed.

Lemma frame_end_scrolls_are_bytes ppu s :
  scrolls_are_bytes s -> scrolls_are_bytes (ppu_frame_end_handler ppu s).
Proof.
  intros Hs. pose proof (heuristics_curr_scroll ppu s Hs) as Hc.
  destruct Hs as (Hl & _ & Hp & Hi & Hn).
  unfold scrolls_are_bytes, ppu_frame_end_handler.
  cbn [tile_step scroll_step padding last_scroll curr_scroll h].
  repeat split; try apply Hc; try apply Hp; try apply Hi; try apply Hn.
Qed.

Lemma byte_scroll_u8 a b : byte_scroll (mk_nes_scroll (u8 a) (u8 b)).
Proof. split; apply u8_range. Qed.

Lemma handle_scrolls_are_bytes s e :
  scrolls_are_bytes s -> scrolls_are_bytes (handle s e).
Proof.
  intros Hs.
  destruct e as [addr val | ppu addr val | latch en | ppu | menu key sh];
    cbn [handle].
  - exact Hs.
  - destruct Hs as (Hl & Hc & Hp & Hi & Hn).
    unfold ppu_write_end_handler, scrolls_are_bytes, byte_scroll in *.
    pose proof (u8_range val). pose proof (u8_range (8 * t_coarse_x ppu)).
    pose proof (u8_range (8 * t_coarse_y ppu)).
    destruct (_ =? PPUSCROLL); [| destruct (_ =? PPUADDR)];
      cbn [last_scroll curr_scroll h ppuscroll_curr mmc3_irq ppuaddr
           scroll_pre_irq new_scroll];
      [| | tauto];
      destruct (scroll_latch ppu =? 1), (scroll_latch ppu =? 0);
      cbn [ns_x ns_y]; lia.
  - destruct Hs as (Hl & Hc & Hp & Hi & Hn).
    unfold mmc3_irq_handler, scrolls_are_bytes.
    cbn [last_scroll curr_scroll h ppuscroll_curr mmc3_irq ppuaddr
         scroll_pre_irq new_scroll]. tauto.
  - apply frame_end_scrolls_are_bytes, Hs.
  - unfold input. destruct menu; [exact Hs |]. destruct key; exact Hs.
Qed.

Lemma run_scrolls_are_bytes es :
  forall s, scrolls_are_bytes s -> scrolls_are_bytes (run s es).
Proof.
  induction es as [| e es IH]; intros s Hs; [exact Hs |].
  rewrite run_cons. apply IH, handle_scrolls_are_bytes, Hs.
Qed.

Lemma unwrap_x_bound d t :
  -255 <= d <= 255 ->
  Z.abs (unwrap d t 256) <= 256 /\ (128 <= t -> Z.abs (unwrap d t 256) <= t).
Proof.
  intros Hd. unfold unwrap.
  destruct (Z.ltb_spec t (Z.abs d)); destruct (Z.ltb_spec d 0); lia.
Qed.

Lemma unwrap_y_bound d t :
  -255 <= d <= 255 -> t <= 240 ->
  Z.abs (unwrap d t 240) <= 240 /\ (120 <= t -> Z.abs (unwrap d t 240) <= t).
Proof.
  intros Hd Ht. unfold unwrap.
  destruct (Z.ltb_spec t (Z.abs d)); destruct (Z.ltb_spec d 0); lia.
Qed.

Lemma final_dy_bound s b :
  Z.abs (wrapped_dy s) <= b -> Z.abs (final_dy s) <= b.
Proof.
  intros H. unfold final_dy.
  destruct (active _); [| exact H].
  destruct (_ <? _); [lia | exact H].
Qed.

Lemma thresholds_le_fuzz ppu s :
  let s1 := padding (heuristics ppu s) in
  thresh_w s1 <= 256 - fuzz /\ thresh_h s1 <= 240 - fuzz.
Proof. unfold thresh_w, thresh_h, fuzz. cbn [padding pad total pad_l pad_r pad_t pad_b]. lia. Qed.

Lemma frame_end_scroll_delta ppu s :
  let s1 := padding (heuristics ppu s) in
  scroll_dx (scroll (ppu_frame_end_handler ppu s)) = wrapped_dx s1 /\
  scroll_dy (scroll (ppu_frame_end_handler ppu s)) = final_dy s1.
Proof. split; reflexivity. Qed.

Lemma heuristics_last_scroll ppu s :
  last_scroll (heuristics ppu s) = last_scroll s.
Proof. reflexivity. Qed.

(** C8, amended: at every frame end both raw deltas are at most 255 in
    absolute value; the committed dx is at most 256 and the committed dy at
    most 240; the thresholds are at most 256 - fuzz and 240 - fuzz, and
    |dx| <= thresh_w when thresh_w >= 128, |dy| <= thresh_h when
    thresh_h >= 120. *)
Theorem scroll_delta_bounds es ppu :
  let s1 := padding (heuristics ppu (run init es)) in
  let s' := ppu_frame_end_handler ppu (run init es) in
  Z.abs (raw_dx s1) <= 255 /\
  Z.abs (raw_dy s1) <= 255 /\
  Z.abs (scroll_dx (scroll s')) <= 256 /\
  Z.abs (scroll_dy (scroll s')) <= 240 /\
  thresh_w s1 <= 256 - fuzz /\
  thresh_h s1 <= 240 - fuzz /\
  (128 <= thresh_w s1 -> Z.abs (scroll_dx (scroll s')) <= thresh_w s1) /\
  (120 <= thresh_h s1 -> Z.abs (scroll_dy (scroll s')) <= thresh_h s1).
Proof.
  intros s1 s'.
  pose proof (run_scrolls_are_bytes es init init_scrolls_are_bytes) as Hs.
  pose proof (heuristics_curr_scroll ppu _ Hs) as [Hcx Hcy].
  destruct Hs as ([Hlx Hly] & _).
  assert (Hdx : -255 <= raw_dx s1 <= 255).
  { unfold raw_dx, s1. cbn [padding curr_scroll last_scroll].
    rewrite heuristics_last_scroll. lia. }
  assert (Hdy : -255 <= raw_dy s1 <= 255).
  { unfold raw_dy, s1. cbn [padding curr_scroll last_scroll].
    rewrite heuristics_last_scroll. lia. }
  destruct (frame_end_scroll_delta ppu (run init es)) as [Ex Ey].
  fold s1 s' in Ex, Ey. rewrite Ex, Ey.
  destruct (thresholds_le_fuzz ppu (run init es)) as [Fw Fh]. fold s1 in Fw, Fh.
  destruct (unwrap_x_bound (raw_dx s1) (thresh_w s1) Hdx) as [Bx Tx].
  destruct (unwrap_y_bound (raw_dy s1) (thresh_h s1) Hdy) as [By Ty];
    [unfold fuzz in Fh; lia |].
  repeat split; try lia; try assumption.
  - apply final_dy_bound, By.
  - intros Ht. apply final_dy_bound, Ty, Ht.
Qed.

(** C8, as the claim states it, fails: with PPUSCROLL = (246, 250) and no
    padding the committed dx is 246, above 255 - fuzz, and the raw y delta
    is 250, above 239. *)
Lemma scroll_delta_exceeds_claimed_bounds :
  let s1 := padding (heuristics show_left (run init big_scroll)) in
  let s' := ppu_frame_end_handler show_left (run init big_scroll) in
  scroll_dx (scroll s') = 246 /\
  ~ Z.abs (scroll_dx (scroll s')) <= 255 - fuzz /\
  raw_dy s1 = 250 /\
  ~ Z.abs (raw_dy s1) <= 239.
Proof.
  cbv zeta.
  destruct (frame_end_scroll_delta show_left (run init big_scroll)) as [Ex _].
  rewrite Ex.
  assert (E1 : wrapped_dx (padding (heuristics show_left (run init big_scroll))) = 246)
    by (vm_compute; reflexivity).
  assert (E2 : raw_dy (padding (heuristics show_left (run init big_scroll))) = 250)
    by (vm_compute; reflexivity).
  rewrite E1, E2. unfold fuzz. repeat split; lia.
Qed.

(** *** The PPUADDR heuristic *)

Lemma heuristics_active ppu s :
  active (ppuaddr (h (heuristics ppu s)))
  = (did_change (ppuaddr (h s))
     && (changed_on_scanline (ppuaddr (h s)) <? 241)
     && changed_while_rendering (ppuaddr (h s)))
    || active (ppuaddr (h s)).
Proof.
  unfold heuristics. cbn [h ppuaddr active].
  destruct (did_change _ && _ && _); reflexivity.
Qed.

Lemma frame_end_h ppu s : h (ppu_frame_end_handler ppu s) = h (heuristics ppu s).
Proof. reflexivity. Qed.

Lemma handle_keeps_active s e :
  active (ppuaddr (h s)) = true -> active (ppuaddr (h (handle s e))) = true.
Proof.
  intros Ha.
  destruct e as [addr val | ppu addr val | latch en | ppu | menu key sh];
    cbn [handle].
  - exact Ha.
  - unfold ppu_write_end_handler.
    destruct (_ =? PPUSCROLL); [exact Ha |].
    destruct (_ =? PPUADDR); exact Ha.
  - exact Ha.
  - rewrite frame_end_h, heuristics_active, Ha. apply orb_true_r.
  - unfold input. destruct menu; [exact Ha |]. destruct key; exact Ha.
Qed.

Lemma run_keeps_active es :
  forall s, active (ppuaddr (h s)) = true -> active (ppuaddr (h (run s es))) = true.
Proof.
  induction es as [| e es IH]; intros s Ha; [exact Ha |].
  rewrite run_cons. apply IH, handle_keeps_active, Ha.
Qed.

(** C10: once [h.ppuaddr.active] is set, it is set after every sequence of
    callbacks and after every later frame end, while [did_change] is reset
    by each frame end; so in every later frame, with or without a PPUADDR
    write, a vertical delta above [cut_scanline] in absolute value is
    committed as 0 and the global scroll y does not move. *)
Theorem ppuaddr_active_is_never_cleared s es ppu :
  active (ppuaddr (h s)) = true ->
  let s' := run s es in
  let s1 := padding (heuristics ppu s') in
  active (ppuaddr (h s')) = true /\
  active (ppuaddr (h (ppu_frame_end_handler ppu s'))) = true /\
  did_change (ppuaddr (h (ppu_frame_end_handler ppu s'))) = false /\
  (int_of_uint (cut_scanline (ppuaddr (h s1))) < Z.abs (wrapped_dy s1) ->
   scroll_dy (scroll (ppu_frame_end_handler ppu s')) = 0 /\
   scroll_y (scroll (ppu_frame_end_handler ppu s')) = scroll_y (scroll s')).
Proof.
  intros Ha s' s1.
  pose proof (run_keeps_active es s Ha) as Ha'. fold s' in Ha'.
  assert (Ha1 : active (ppuaddr (h s1)) = true).
  { unfold s1. cbn [padding h]. rewrite heuristics_active, Ha'. apply orb_true_r. }
  split; [exact Ha' |]. split; [exact Ha1 |]. split; [reflexivity |].
  intros Hjump.
  destruct (frame_end_scroll_delta ppu s') as [_ Ey]. fold s1 in Ey.
  assert (Ez : final_dy s1 = 0).
  { unfold final_dy. rewrite Ha1.
    apply Z.ltb_lt in Hjump. rewrite Hjump. reflexivity. }
  split; [rewrite Ey; exact Ez |].
  change (scroll_y (scroll (ppu_frame_end_handler ppu s')))
    with (scroll_y (scroll s1) + final_dy s1).
  rewrite Ez. unfold s1. cbn [padding scroll]. unfold heuristics. cbn [scroll]. lia.
Qed.

(** C10 after a frame with a PPUADDR write on scanline 30: in the next
    frame, which has no PPUADDR write, the delta of 150 is committed as
    0. *)
Lemma ppuaddr_active_is_never_cleared_witness :
  active (ppuaddr (h zelda_frame)) = true /\
  did_change (ppuaddr (h zelda_frame)) = false /\
  scroll_dy (scroll (ppu_frame_end_handler blank_view
                       (run zelda_frame [EvWriteEnd latch_y PPUSCROLL 150]))) = 0.
Proof.
  split; [reflexivity |]. split; [reflexivity |].
  apply (ppuaddr_active_is_never_cleared zelda_frame
           [EvWriteEnd latch_y PPUSCROLL 150] blank_view).
  - reflexivity.
  - reflexivity.
Defined.

End WideNESFacts.

(** ** Further properties of the CPU

    The stack, the interrupts, subroutines, indexed addressing, the
    arithmetic instructions and the cycle counter. *)

Module CPUBehaviour.

Import CPU BitsFacts Scenarios CPUFacts CPUVocab.

Local Open Scope cpu_scope.

(** *** Symbolic execution *)

Ltac cpu_unfold :=
  unfold service_interrupt, get_operand_addr, exec, arg8, arg16,
    s_push16, s_pull16, s_push, s_pull, set_zn, branch, rd, rd16, rd16_zpg, wr,
    set_a, set_x, set_y, set_s, set_pc, set_p, add_cycles, set_state, flag,
    set_flag, bind, gets, modify, ret.

Ltac cpu_simpl :=
  cbn [fst snd reg_a reg_x reg_y reg_s reg_pc reg_p cycles state mem interrupt
       with_a with_x with_y with_s with_pc with_p with_cycles with_state
       with_mem with_interrupt].

Ltac cpu_run := cpu_unfold; cpu_simpl.

(** *** Flags *)

Lemma flag_of_set_other raw f g b :
  f <> g -> flag_of (flag_set raw f b) g = flag_of raw g.
Proof.
  intros Hne. unfold flag_of, flag_set.
  destruct b.
  - rewrite Z.lor_spec.
    destruct f, g; try contradiction; cbn [flag_bit];
      apply orb_false_r.
  - rewrite Z.land_spec.
    destruct f, g; try contradiction; cbn [flag_bit];
      apply andb_true_r.
Qed.

Lemma flag_set_byte raw f b : 0 <= raw < 256 -> 0 <= flag_set raw f b < 256.
Proof.
  intros H.
  assert (forallb (fun r => forallb (fun f => forallb (fun b =>
            (0 <=? flag_set r f b) && (flag_set r f b <? 256)) [true; false])
            [fC; fZ; fI; fD; fB; fU; fV; fN]) (seqZ 0 256) = true)
    as Hall by (vm_compute; reflexivity).
  rewrite forallb_forall in Hall.
  specialize (Hall raw). rewrite <- list_elem_of_In, elem_of_seqZ in Hall.
  specialize (Hall ltac:(lia)). rewrite forallb_forall in Hall.
  specialize (Hall f ltac:(destruct f; simpl; tauto)).
  rewrite forallb_forall in Hall.
  specialize (Hall b ltac:(destruct b; simpl; tauto)).
  apply andb_true_iff in Hall. destruct Hall as [H1 H2]. lia.
Qed.

(** *** The stack *)

Lemma stack_addr s : 0 <= s < 256 -> u16 (256 + s) = 256 + s.
Proof. intros. apply u16_small. lia. Qed.

(** X1: [s_push] stores the low 8 bits of the value at $0100 + S, changes
    no other address and decrements S modulo 256; [s_pull] right after it
    returns those 8 bits, restores S and writes nothing. *)
Theorem push_then_pull c v :
  0 <= reg_s c < 256 ->
  let c1 := snd (s_push v c) in
  let r := s_pull c1 in
  reg_s c1 = (reg_s c - 1) mod 256 /\
  mem_read (mem c1) (0x0100 + reg_s c) = v mod 256 /\
  (forall a, u16 a <> 0x0100 + reg_s c -> mem_read (mem c1) a = mem_read (mem c) a) /\
  fst r = v mod 256 /\
  reg_s (snd r) = reg_s c /\
  mem (snd r) = mem c1.
Proof.
  intros Hs. cbv zeta. cpu_run.
  rewrite u8_add_l. replace (reg_s c - 1 + 1) with (reg_s c) by lia.
  rewrite (u8_small (reg_s c)) by exact Hs.
  rewrite !mem_read_write, Z.eqb_refl.
  repeat split; try reflexivity.
  intros a Ha. rewrite mem_read_write.
  rewrite stack_addr by exact Hs.
  destruct (Z.eqb_spec (u16 a) (256 + reg_s c)); [contradiction | reflexivity].
Qed.

(** X1 at S = $00: the push writes $0100 and wraps S to $FF, the pull
    returns the byte and wraps S back to $00. *)
Lemma push_then_pull_witness :
  reg_s (snd (s_push 0xAB stack_empty_slot)) = 0xFF /\
  fst (s_pull (snd (s_push 0xAB stack_empty_slot))) = 0xAB /\
  reg_s (snd (s_pull (snd (s_push 0xAB stack_empty_slot)))) = 0x00.
Proof.
  pose proof (push_then_pull stack_empty_slot 0xAB) as H.
  cbv zeta in H.
  destruct H as (H1 & _ & _ & H4 & H5 & _); [vm_compute; split; congruence |].
  rewrite H1, H4, H5. repeat split.
Defined.

Lemma mem_read_write_same m a v : mem_read (mem_write m a v) a = u8 v.
Proof. rewrite mem_read_write, Z.eqb_refl. reflexivity. Qed.

Lemma mem_read_write_ne m a v b :
  u16 b <> u16 a -> mem_read (mem_write m a v) b = mem_read m b.
Proof.
  intros H. rewrite mem_read_write.
  destruct (Z.eqb_spec (u16 b) (u16 a)); [contradiction | reflexivity].
Qed.

(** A write to the stack page does not change what is read outside it. *)
Lemma mem_read_write_stack m k v b :
  0 <= k < 256 -> 512 <= u16 b -> mem_read (mem_write m (256 + k) v) b = mem_read m b.
Proof.
  intros Hk Hb. apply mem_read_write_ne. rewrite (u16_small (256 + k)) by lia. lia.
Qed.

Lemma mem_read16_write_stack m k v b :
  0 <= k < 256 -> 512 <= u16 b -> 512 <= u16 (b + 1) ->
  mem_read16 (mem_write m (256 + k) v) b = mem_read16 m b.
Proof.
  intros Hk Hb Hb1. unfold mem_read16.
  rewrite !mem_read_write_stack by assumption. reflexivity.
Qed.

Lemma mem_read16_word m a : u16 (mem_read16 m a) = mem_read16 m a.
Proof. apply word_of_bytes; apply mem_read_range. Qed.

Lemma cycles_returned c k :
  0 <= k < 4294967296 -> u32 (u64 (cycles c + k) - u32 (cycles c)) = k.
Proof.
  intros Hk. rewrite u32_u64_sub.
  replace (cycles c + k - cycles c) with k by lia. apply u32_small, Hk.
Qed.

Lemma word_split w :
  0 <= w < 65536 ->
  u16 (Z.lor (Z.shiftl (u8 (Z.shiftr (u16 w) 8)) 8) (u8 (Z.land (u16 w) 0xFF))) = w.
Proof.
  intros Hw. rewrite (u16_small w) by exact Hw.
  assert (Hd : w = (w / 256) * 256 + w mod 256) by (Z.div_mod_to_equations; lia).
  assert (Hhi : 0 <= w / 256 < 256) by (Z.div_mod_to_equations; lia).
  assert (Hlo : 0 <= w mod 256 < 256) by (Z.div_mod_to_equations; lia).
  rewrite Z.shiftr_div_pow2 by lia. change (2 ^ 8) with 256.
  change 255 with (Z.ones 8). rewrite Z.land_ones by lia. change (2 ^ 8) with 256.
  rewrite (u8_small (w / 256)) by exact Hhi.
  rewrite (u8_small (w mod 256)) by exact Hlo.
  rewrite Z.lor_comm, word_of_bytes by assumption.
  pose proof (forall_byte2
    (fun lo hi => Z.lor lo (Z.shiftl hi 8) =? hi * 256 + lo)
    ltac:(vm_compute; reflexivity) (w mod 256) (w / 256) Hlo Hhi) as H.
  apply Z.eqb_eq in H. lia.
Qed.

(** [s_push16] followed by [s_pull16]: high byte first, and the word comes
    back. *)
Lemma s_push16_s_pull16 c w :
  0 <= reg_s c < 256 -> 0 <= w < 65536 ->
  let c1 := snd (s_push16 w c) in
  let r := s_pull16 c1 in
  reg_s c1 = (reg_s c - 2) mod 256 /\
  mem_read (mem c1) (0x0100 + reg_s c) = w / 256 /\
  mem_read (mem c1) (0x0100 + (reg_s c - 1) mod 256) = w mod 256 /\
  fst r = w /\
  reg_s (snd r) = reg_s c.
Proof.
  intros Hs Hw. cbv zeta. cpu_run.
  change ((reg_s c - 1) mod 256) with (u8 (reg_s c - 1)).
  change ((reg_s c - 2) mod 256) with (u8 (reg_s c - 2)).
  pose proof (u8_range (reg_s c - 1)) as Hs1.
  set (s1 := u8 (reg_s c - 1)) in *.
  assert (F1 : u8 (u8 (s1 - 1) + 1) = s1).
  { rewrite u8_add_l. replace (s1 - 1 + 1) with s1 by lia. apply u8_small, Hs1. }
  assert (F2 : u8 (s1 + 1) = reg_s c).
  { unfold s1. rewrite u8_add_l. replace (reg_s c - 1 + 1) with (reg_s c) by lia.
    apply u8_small, Hs. }
  assert (F3 : u8 (s1 - 1) = u8 (reg_s c - 2)).
  { unfold s1. rewrite u8_sub_l. f_equal. lia. }
  assert (Ene : u16 (256 + reg_s c) <> u16 (256 + s1)).
  { rewrite !u16_small by lia. intros E.
    assert (E' : reg_s c = (reg_s c - 1) mod 256) by (unfold s1, u8 in E; lia).
    revert E'. Z.div_mod_to_equations. lia. }
  rewrite F1, F2, F3.
  rewrite mem_read_write_same.
  rewrite (mem_read_write_ne _ _ _ (256 + reg_s c)) by exact Ene.
  rewrite mem_read_write_same.
  pose proof (word_split w Hw) as Hsplit.
  assert (Hhi : u8 (Z.shiftr (u16 w) 8) = w / 256).
  { rewrite (u16_small w) by exact Hw.
    rewrite Z.shiftr_div_pow2 by lia. change (2 ^ 8) with 256.
    apply u8_small. Z.div_mod_to_equations. lia. }
  assert (Hlo : u8 (Z.land (u16 w) 0xFF) = w mod 256).
  { rewrite (u16_small w) by exact Hw.
    change 255 with (Z.ones 8). rewrite Z.land_ones by lia. change (2 ^ 8) with 256.
    apply u8_small. Z.div_mod_to_equations. lia. }
  repeat split; try reflexivity; try assumption.
Qed.

(** X2: [s_push16] stores the high byte of the word at $0100 + S and the
    low byte below it, wrapping inside page 1, and leaves every address from
    $0200 on as it was; [s_pull16] right after it returns the word and
    restores S. *)
Theorem push16_then_pull16 c w :
  0 <= reg_s c < 256 -> 0 <= w < 65536 ->
  let c1 := snd (s_push16 w c) in
  let r := s_pull16 c1 in
  reg_s c1 = (reg_s c - 2) mod 256 /\
  mem_read (mem c1) (0x0100 + reg_s c) = w / 256 /\
  mem_read (mem c1) (0x0100 + (reg_s c - 1) mod 256) = w mod 256 /\
  (forall a, 512 <= u16 a -> mem_read (mem c1) a = mem_read (mem c) a) /\
  fst r = w /\
  reg_s (snd r) = reg_s c.
Proof.
  intros Hs Hw.
  pose proof (s_push16_s_pull16 c w Hs Hw) as H. cbv zeta in H |- *.
  destruct H as (H1 & H2 & H3 & H4 & H5).
  repeat split; try assumption.
  intros a Ha. cpu_run.
  pose proof (u8_range (reg_s c - 1)).
  rewrite !mem_read_write_stack by assumption. reflexivity.
Qed.

(** X2 at S = $00: the high byte goes to $0100, the low byte to $01FF. *)
Lemma push16_then_pull16_witness :
  mem_read (mem (snd (s_push16 0x8123 stack_empty_slot))) 0x0100 = 0x81 /\
  mem_read (mem (snd (s_push16 0x8123 stack_empty_slot))) 0x01FF = 0x23 /\
  reg_s (snd (s_push16 0x8123 stack_empty_slot)) = 0xFE /\
  fst (s_pull16 (snd (s_push16 0x8123 stack_empty_slot))) = 0x8123.
Proof.
  pose proof (push16_then_pull16 stack_empty_slot 0x8123) as H.
  cbv zeta in H.
  destruct H as (H1 & H2 & H3 & _ & H4 & _);
    [vm_compute; split; congruence | vm_compute; split; congruence |].
  repeat split; assumption.
Defined.

(** *** Interrupts *)

(** What [service_interrupt] does for a kind that pushes and jumps: NMI, or
    IRQ on behalf of BRK. *)
Lemma service_pushing c i vec :
  (i = NMI /\ vec = 0xFFFA) \/ (i = IRQ /\ vec = 0xFFFE) ->
  0 <= reg_s c < 256 -> 0 <= reg_pc c < 65536 -> 0 <= reg_p c < 256 ->
  let c' := snd (service_interrupt i true c) in
  reg_pc c' = mem_read16 (mem c) vec /\
  reg_s c' = (reg_s c - 3) mod 256 /\
  mem_read (mem c') (0x0100 + reg_s c) = reg_pc c / 256 /\
  mem_read (mem c') (0x0100 + (reg_s c - 1) mod 256) = reg_pc c mod 256 /\
  mem_read (mem c') (0x0100 + (reg_s c - 2) mod 256) = flag_set (reg_p c) fI true /\
  (forall a, 512 <= u16 a -> mem_read (mem c') a = mem_read (mem c) a) /\
  reg_p c' = flag_set (reg_p c) fI true /\
  cycles c' = u64 (cycles c + 7) /\
  interrupt c' = lines_service i (interrupt c) /\
  reg_a c' = reg_a c /\ reg_x c' = reg_x c /\ reg_y c' = reg_y c /\
  state c' = state c.
Proof.
  intros Hi Hs Hpc Hp.
  pose proof (s_push16_s_pull16 c (reg_pc c) Hs Hpc) as H16. cbv zeta in H16.
  destruct H16 as (_ & Hhi & Hlo & _).
  revert Hhi Hlo. cbv zeta.
  change ((reg_s c - 1) mod 256) with (u8 (reg_s c - 1)).
  change ((reg_s c - 2) mod 256) with (u8 (reg_s c - 2)).
  change ((reg_s c - 3) mod 256) with (u8 (reg_s c - 3)).
  pose proof (u8_range (reg_s c - 1)) as R1.
  pose proof (u8_range (reg_s c - 2)) as R2.
  pose proof (flag_set_byte (reg_p c) fI true Hp) as Rp.
  assert (E2 : u8 (u8 (reg_s c - 1) - 1) = u8 (reg_s c - 2))
    by (rewrite u8_sub_l; f_equal; lia).
  assert (E3 : u8 (u8 (reg_s c - 2) - 1) = u8 (reg_s c - 3))
    by (rewrite u8_sub_l; f_equal; lia).
  assert (N1 : u16 (256 + reg_s c) <> u16 (256 + u8 (reg_s c - 2))).
  { rewrite !u16_small by lia. unfold u8. Z.div_mod_to_equations. lia. }
  assert (N2 : u16 (256 + u8 (reg_s c - 1)) <> u16 (256 + u8 (reg_s c - 2))).
  { rewrite !u16_small by lia. unfold u8. Z.div_mod_to_equations. lia. }
  intros Hhi Hlo.
  unfold service_interrupt.
  destruct Hi as [[-> ->] | [-> ->]].
  all: cpu_run; cbn [orb]; cpu_simpl.
  all: rewrite ?mem_read16_word, ?E2, ?E3.
  all: rewrite !mem_read16_write_stack
         by first [assumption | rewrite u16_small; lia].
  all: revert Hhi Hlo; cpu_run; intros Hhi Hlo.
  all: repeat split; try reflexivity.
  all: try (rewrite (mem_read_write_ne _ _ _ (256 + reg_s c)) by exact N1;
            exact Hhi).
  all: try (rewrite (mem_read_write_ne _ _ _ (256 + u8 (reg_s c - 1))) by exact N2;
            exact Hlo).
  all: try (rewrite mem_read_write_same; apply u8_small, Rp).
  all: intros a Ha; rewrite !mem_read_write_stack by assumption; reflexivity.
Qed.

(** X3: with RESET pending, [step] executes no instruction, in whatever
    state the CPU is and whatever else is pending: it loads PC from $FFFC,
    sets I, pushes nothing (S and the memory are unchanged), clears the
    RESET line only, counts and returns 7 cycles. *)
Theorem step_services_reset Opcodes c :
  pending_reset (interrupt c) = true ->
  let r := step Opcodes c in
  fst r = 7 /\
  reg_pc (snd r) = mem_read16 (mem c) 0xFFFC /\
  mem (snd r) = mem c /\
  reg_s (snd r) = reg_s c /\
  reg_a (snd r) = reg_a c /\ reg_x (snd r) = reg_x c /\ reg_y (snd r) = reg_y c /\
  reg_p (snd r) = flag_set (reg_p c) fI true /\
  cycles (snd r) = u64 (cycles c + 7) /\
  interrupt (snd r)
  = mkLines false (pending_nmi (interrupt c)) (pending_irq (interrupt c)).
Proof.
  intros Hr. cbv zeta. unfold step, bind, gets.
  unfold lines_get. rewrite Hr. cpu_run.
  rewrite mem_read16_word, cycles_returned by lia.
  repeat split; reflexivity.
Qed.

(** X3 on a halted CPU with all three lines pending. *)
Lemma step_services_reset_witness :
  fst (step legal_opcodes all_pending) = 7 /\
  reg_pc (snd (step legal_opcodes all_pending)) = 0x8000 /\
  interrupt (snd (step legal_opcodes all_pending)) = mkLines false true true.
Proof.
  destruct (step_services_reset legal_opcodes all_pending eq_refl)
    as (H1 & H2 & _ & _ & _ & _ & _ & _ & _ & H3).
  repeat split; assumption.
Defined.

(** X4: with NMI pending and RESET not, [step] pushes PC (high byte
    first) and then P with I already set, wrapping the stack pointer inside
    page 1, loads PC from $FFFA, returns 7 and clears the NMI line only. *)
Theorem step_services_nmi Opcodes c :
  pending_reset (interrupt c) = false ->
  pending_nmi (interrupt c) = true ->
  0 <= reg_s c < 256 -> 0 <= reg_pc c < 65536 -> 0 <= reg_p c < 256 ->
  let r := step Opcodes c in
  fst r = 7 /\
  reg_pc (snd r) = mem_read16 (mem c) 0xFFFA /\
  reg_s (snd r) = (reg_s c - 3) mod 256 /\
  mem_read (mem (snd r)) (0x0100 + reg_s c) = reg_pc c / 256 /\
  mem_read (mem (snd r)) (0x0100 + (reg_s c - 1) mod 256) = reg_pc c mod 256 /\
  mem_read (mem (snd r)) (0x0100 + (reg_s c - 2) mod 256)
  = flag_set (reg_p c) fI true /\
  reg_p (snd r) = flag_set (reg_p c) fI true /\
  interrupt (snd r) = mkLines false false (pending_irq (interrupt c)).
Proof.
  intros Hr Hn Hs Hpc Hp. cbv zeta.
  pose proof (service_pushing c NMI 0xFFFA (or_introl (conj eq_refl eq_refl))
                Hs Hpc Hp) as H.
  cbv zeta in H.
  destruct H as (Epc & Es & Ehi & Elo & Ep & _ & Erp & Ecy & Ei & _).
  assert (Est : step Opcodes c
                = (u32 (cycles (snd (service_interrupt NMI false c)) - u32 (cycles c)),
                   snd (service_interrupt NMI false c))).
  { unfold step, bind, gets, lines_get. rewrite Hr, Hn.
    destruct (service_interrupt NMI false c). reflexivity. }
  rewrite Est. cbn [fst snd].
  change (service_interrupt NMI false c) with (service_interrupt NMI true c).
  rewrite Ecy, cycles_returned by lia.
  repeat split; try assumption.
  rewrite Ei. cbn [lines_service]. rewrite Hr. reflexivity.
Qed.

(** X4 at S = $01: the three pushes go to $0101, $0100 and $01FF. *)
Lemma step_services_nmi_witness :
  reg_pc (snd (step legal_opcodes nmi_pending)) = 0x9000 /\
  reg_s (snd (step legal_opcodes nmi_pending)) = 0xFE /\
  mem_read (mem (snd (step legal_opcodes nmi_pending))) 0x0101 = 0x81 /\
  mem_read (mem (snd (step legal_opcodes nmi_pending))) 0x0100 = 0x23 /\
  mem_read (mem (snd (step legal_opcodes nmi_pending))) 0x01FF = 0x24 /\
  interrupt (snd (step legal_opcodes nmi_pending)) = mkLines false false true.
Proof.
  destruct (step_services_nmi legal_opcodes nmi_pending eq_refl eq_refl)
    as (_ & H2 & H3 & H4 & H5 & H6 & _ & H8);
    [vm_compute; split; congruence | vm_compute; split; congruence
    | vm_compute; split; congruence |].
  repeat split; assumption.
Defined.

Lemma word_join w :
  0 <= w < 65536 -> u16 (Z.lor (Z.shiftl (w / 256) 8) (w mod 256)) = w.
Proof.
  intros Hw.
  assert (Hhi : 0 <= w / 256 < 256) by (Z.div_mod_to_equations; lia).
  assert (Hlo : 0 <= w mod 256 < 256) by (Z.div_mod_to_equations; lia).
  rewrite Z.lor_comm, word_of_bytes by assumption.
  pose proof (forall_byte2
    (fun lo hi => Z.lor lo (Z.shiftl hi 8) =? hi * 256 + lo)
    ltac:(vm_compute; reflexivity) (w mod 256) (w / 256) Hlo Hhi) as H.
  apply Z.eqb_eq in H. Z.div_mod_to_equations. lia.
Qed.

Lemma step_nmi_state Opcodes c :
  pending_reset (interrupt c) = false ->
  pending_nmi (interrupt c) = true ->
  snd (step Opcodes c) = snd (service_interrupt NMI true c).
Proof.
  intros Hr Hn. unfold step, bind, gets, lines_get. rewrite Hr, Hn.
  change (service_interrupt NMI false c) with (service_interrupt NMI true c).
  destruct (service_interrupt NMI true c). reflexivity.
Qed.

Lemma step_rti Opcodes c :
  lines_get (interrupt c) = NONE ->
  op_instr (Opcodes (mem_read (mem c) (reg_pc c))) = RTI ->
  op_addrm (Opcodes (mem_read (mem c) (reg_pc c))) = impl ->
  let s1 := u8 (reg_s c + 1) in
  let s2 := u8 (s1 + 1) in
  let s3 := u8 (s2 + 1) in
  let c' := snd (step Opcodes c) in
  reg_p c' = u8 (Z.lor (mem_read (mem c) (0x0100 + s1)) 0x20) /\
  reg_pc c' = u16 (u16 (Z.lor (Z.shiftl (mem_read (mem c) (0x0100 + s3)) 8)
                              (mem_read (mem c) (0x0100 + s2)))) /\
  reg_s c' = s3 /\ mem c' = mem c /\
  reg_a c' = reg_a c /\ reg_x c' = reg_x c /\ reg_y c' = reg_y c.
Proof.
  intros Hi Hin Ham. cbv zeta.
  unfold step, bind, gets. rewrite Hi.
  unfold arg8, bind, gets, set_pc, modify, rd, gets.
  cbn [fst snd reg_pc mem with_pc].
  unfold get_operand_addr. rewrite Ham.
  unfold exec. rewrite Hin.
  destruct (op_check_pg_cross _); cpu_run; repeat split; reflexivity.
Qed.

(** X5: an NMI whose handler is a lone [RTI] returns to the interrupted
    PC with S, A, X and Y restored; P comes back with I set (the flag was
    set before P was pushed) and with bit 5 set. *)
Theorem nmi_then_rti Opcodes c :
  pending_reset (interrupt c) = false ->
  pending_nmi (interrupt c) = true ->
  pending_irq (interrupt c) = false ->
  op_instr (Opcodes 0x40) = RTI -> op_addrm (Opcodes 0x40) = impl ->
  0 <= reg_s c < 256 -> 0 <= reg_pc c < 65536 -> 0 <= reg_p c < 256 ->
  512 <= mem_read16 (mem c) 0xFFFA ->
  mem_read (mem c) (mem_read16 (mem c) 0xFFFA) = 0x40 ->
  let c1 := snd (step Opcodes c) in
  let c2 := snd (step Opcodes c1) in
  reg_pc c1 = mem_read16 (mem c) 0xFFFA /\
  reg_pc c2 = reg_pc c /\
  reg_s c2 = reg_s c /\
  reg_p c2 = Z.lor (flag_set (reg_p c) fI true) 0x20 /\
  reg_a c2 = reg_a c /\ reg_x c2 = reg_x c /\ reg_y c2 = reg_y c.
Proof.
  intros Hr Hn Hq Hrti Hrtim Hs Hpc Hp Hvec Hop. cbv zeta.
  rewrite (step_nmi_state Opcodes c Hr Hn).
  pose proof (service_pushing c NMI 0xFFFA (or_introl (conj eq_refl eq_refl))
                Hs Hpc Hp) as H.
  cbv zeta in H.
  destruct H as (Epc & Es & Ehi & Elo & Ep & Efar & Erp & _ & Ei & Ea & Ex & Ey & _).
  generalize dependent (snd (service_interrupt NMI true c)). intros c1.
  intros Epc Es Ehi Elo Ep Efar Erp Ei Ea Ex Ey.
  assert (Hfar : 512 <= u16 (reg_pc c1))
    by (rewrite Epc, mem_read16_word; exact Hvec).
  assert (Hop1 : mem_read (mem c1) (reg_pc c1) = 0x40)
    by (rewrite (Efar _ Hfar), Epc; exact Hop).
  assert (Hl : lines_get (interrupt c1) = NONE).
  { rewrite Ei. unfold lines_get, lines_service. cbn. rewrite Hq.
    destruct (pending_reset (interrupt c)); [discriminate | reflexivity]. }
  pose proof (step_rti Opcodes c1 Hl) as H. rewrite Hop1 in H.
  specialize (H Hrti Hrtim). cbv zeta in H.
  destruct H as (Hp2 & Hpc2 & Hs2 & _ & Ha2 & Hx2 & Hy2).
  change ((reg_s c - 1) mod 256) with (u8 (reg_s c - 1)) in *.
  change ((reg_s c - 2) mod 256) with (u8 (reg_s c - 2)) in *.
  change ((reg_s c - 3) mod 256) with (u8 (reg_s c - 3)) in *.
  assert (E1 : u8 (reg_s c1 + 1) = u8 (reg_s c - 2))
    by (rewrite Es, u8_add_l; f_equal; lia).
  assert (E2 : u8 (u8 (reg_s c - 2) + 1) = u8 (reg_s c - 1))
    by (rewrite u8_add_l; f_equal; lia).
  assert (E3 : u8 (u8 (reg_s c - 1) + 1) = reg_s c)
    by (rewrite u8_add_l; replace (reg_s c - 1 + 1) with (reg_s c) by lia;
        apply u8_small; exact Hs).
  rewrite E1, E2, E3 in *.
  rewrite Ehi, Elo, u16_idem, word_join in Hpc2 by exact Hpc.
  rewrite Ep in Hp2.
  split; [exact Epc |]. split; [exact Hpc2 |]. split; [exact Hs2 |].
  split.
  { rewrite Hp2. apply u8_small.
    pose proof (flag_set_byte (reg_p c) fI true Hp) as Hb.
    pose proof (forall_byte (fun v => Z.lor v 0x20 <? 256)
                  ltac:(vm_compute; reflexivity) _ Hb) as Hlt.
    apply Z.ltb_lt in Hlt. split; [apply Z.lor_nonneg; lia | exact Hlt]. }
  rewrite Ha2, Hx2, Hy2. repeat split; assumption.
Qed.

(** X5 at PC = $8123, P = $24, handler at $9000. *)
Lemma nmi_then_rti_witness :
  reg_pc (snd (step legal_opcodes nmi_to_rti)) = 0x9000 /\
  reg_pc (snd (step legal_opcodes (snd (step legal_opcodes nmi_to_rti)))) = 0x8123 /\
  reg_s (snd (step legal_opcodes (snd (step legal_opcodes nmi_to_rti)))) = 0xFD /\
  reg_p (snd (step legal_opcodes (snd (step legal_opcodes nmi_to_rti)))) = 0x24.
Proof.
  destruct (nmi_then_rti legal_opcodes nmi_to_rti) as (H1 & H2 & H3 & H4 & _);
    try reflexivity; try (cbn; lia); try (vm_compute; discriminate).
  split; [exact H1 |]. split; [exact H2 |]. split; [exact H3 | exact H4].
Defined.

Lemma step_brk_unfold Opcodes c :
  lines_get (interrupt c) = NONE ->
  op_instr (Opcodes (mem_read (mem c) (reg_pc c))) = BRK ->
  op_addrm (Opcodes (mem_read (mem c) (reg_pc c))) = impl ->
  let c2 := snd (service_interrupt IRQ true (with_pc (u16 (reg_pc c + 1)) c)) in
  let k := op_cycles (Opcodes (mem_read (mem c) (reg_pc c))) in
  step Opcodes c
  = (u32 (u64 (cycles c2 + k) - u32 (cycles c)), with_cycles (u64 (cycles c2 + k)) c2).
Proof.
  intros Hi Hin Ham. cbv zeta.
  unfold step, bind, gets. rewrite Hi.
  unfold arg8, bind, gets, set_pc, modify, rd, gets.
  cbn [fst snd reg_pc mem with_pc].
  unfold get_operand_addr. rewrite Ham. unfold bind, ret, gets.
  unfold exec. rewrite Hin.
  destruct (op_check_pg_cross _); cbv beta iota;
    generalize (service_interrupt IRQ true (with_pc (u16 (reg_pc c + 1)) c));
    intros [u c2]; reflexivity.
Qed.

(** X6: [BRK] pushes the address of the byte after the opcode (PC + 1,
    not PC + 2) and P with I set and B as it was, jumps through $FFFE even
    when I was set, and costs 7 cycles on top of those of the opcode
    table. *)
Theorem step_brk Opcodes c :
  lines_get (interrupt c) = NONE ->
  op_instr (Opcodes (mem_read (mem c) (reg_pc c))) = BRK ->
  op_addrm (Opcodes (mem_read (mem c) (reg_pc c))) = impl ->
  0 <= op_cycles (Opcodes (mem_read (mem c) (reg_pc c))) < 256 ->
  0 <= reg_s c < 256 -> 0 <= reg_p c < 256 ->
  let r := step Opcodes c in
  let ret_addr := (reg_pc c + 1) mod 65536 in
  fst r = op_cycles (Opcodes (mem_read (mem c) (reg_pc c))) + 7 /\
  reg_pc (snd r) = mem_read16 (mem c) 0xFFFE /\
  reg_s (snd r) = (reg_s c - 3) mod 256 /\
  mem_read (mem (snd r)) (0x0100 + reg_s c) = ret_addr / 256 /\
  mem_read (mem (snd r)) (0x0100 + (reg_s c - 1) mod 256) = ret_addr mod 256 /\
  mem_read (mem (snd r)) (0x0100 + (reg_s c - 2) mod 256)
  = flag_set (reg_p c) fI true /\
  reg_p (snd r) = flag_set (reg_p c) fI true.
Proof.
  intros Hi Hin Ham Hcy Hs Hp. cbv zeta.
  rewrite (step_brk_unfold Opcodes c Hi Hin Ham). cbv zeta.
  destruct (service_pushing (with_pc (u16 (reg_pc c + 1)) c) IRQ 0xFFFE
              (or_intror (conj eq_refl eq_refl)) Hs (u16_range _) Hp)
    as (Epc & Es & Ehi & Elo & Ep & _ & Erp & Ecy & _).
  generalize dependent (snd (service_interrupt IRQ true
                               (with_pc (u16 (reg_pc c + 1)) c))).
  intros c2 Epc Es Ehi Elo Ep Erp Ecy.
  cbn [fst snd reg_pc reg_s reg_p mem cycles with_cycles with_pc] in *.
  rewrite Ecy, u64_add_l.
  replace (cycles c + 7 + op_cycles (Opcodes (mem_read (mem c) (reg_pc c))))
    with (cycles c + (op_cycles (Opcodes (mem_read (mem c) (reg_pc c))) + 7))
    by ring.
  rewrite cycles_returned by (clear - Hcy; lia).
  split; [reflexivity |]. split; [exact Epc |]. split; [exact Es |].
  split; [exact Ehi |]. split; [exact Elo |]. split; [exact Ep | exact Erp].
Qed.

(** X6 with P.I set and the table's 7 cycles for BRK: [step] returns 14. *)
Lemma step_brk_witness :
  flag_of (reg_p at_brk) fI = true /\
  fst (step legal_opcodes at_brk) = 14 /\
  reg_pc (snd (step legal_opcodes at_brk)) = 0xA000 /\
  mem_read (mem (snd (step legal_opcodes at_brk))) 0x01FD = 0x80 /\
  mem_read (mem (snd (step legal_opcodes at_brk))) 0x01FC = 0x01.
Proof.
  split; [reflexivity |].
  destruct (step_brk legal_opcodes at_brk eq_refl eq_refl eq_refl)
    as (H1 & H2 & _ & H4 & H5 & _);
    [vm_compute; split; congruence | vm_compute; split; congruence
    | vm_compute; split; congruence |].
  repeat split; assumption.
Defined.

(** *** Unused opcodes *)

(** X7: an opcode the table marks invalid halts the CPU: [step] consumes
    the opcode byte only, sets the state to Halted, changes nothing else
    but the cycle counter and returns the cycles of the table entry. *)
Theorem step_invalid_opcode_halts Opcodes c :
  lines_get (interrupt c) = NONE ->
  op_instr (Opcodes (mem_read (mem c) (reg_pc c))) = I_INVALID ->
  op_addrm (Opcodes (mem_read (mem c) (reg_pc c))) = M_INVALID ->
  0 <= op_cycles (Opcodes (mem_read (mem c) (reg_pc c))) < 256 ->
  step Opcodes c
  = (op_cycles (Opcodes (mem_read (mem c) (reg_pc c))),
     with_cycles (u64 (cycles c + op_cycles (Opcodes (mem_read (mem c) (reg_pc c)))))
       (with_state Halted (with_pc (u16 (reg_pc c + 1)) c))).
Proof.
  intros Hi Hin Ham Hcy.
  unfold step, bind, gets. rewrite Hi.
  unfold arg8, bind, gets, set_pc, modify, rd, gets.
    cbn [fst snd reg_pc mem with_pc].
  unfold get_operand_addr. rewrite Ham. unfold ret.
  unfold exec. rewrite Hin. cpu_run.
  rewrite cycles_returned by lia. reflexivity.
Qed.

(** X7 with the unused opcode $02. *)
Lemma step_invalid_opcode_halts_witness :
  state (snd (step legal_opcodes at_unused_opcode)) = Halted /\
  fst (step legal_opcodes at_unused_opcode) = 0 /\
  reg_pc (snd (step legal_opcodes at_unused_opcode)) = 0x8001 /\
  reg_a (snd (step legal_opcodes at_unused_opcode)) = 7.
Proof.
  rewrite (step_invalid_opcode_halts legal_opcodes at_unused_opcode eq_refl
             eq_refl eq_refl); [| vm_compute; split; congruence].
  repeat split.
Defined.

(** *** Subroutines *)

Lemma step_jsr Opcodes c :
  lines_get (interrupt c) = NONE ->
  op_instr (Opcodes (mem_read (mem c) (reg_pc c))) = JSR ->
  op_addrm (Opcodes (mem_read (mem c) (reg_pc c))) = abs_ ->
  snd (step Opcodes c)
  = with_cycles (u64 (cycles c + op_cycles (Opcodes (mem_read (mem c) (reg_pc c)))))
      (with_pc (u16 (mem_read16 (mem c) (u16 (u16 (u16 (reg_pc c + 1) + 2) - 2))))
         (snd (s_push16 (u16 (u16 (reg_pc c + 1) + 2) - 1)
                 (with_pc (u16 (u16 (reg_pc c + 1) + 2)) c)))).
Proof.
  intros Hi Hin Ham.
  unfold step, bind, gets. rewrite Hi.
  unfold arg8, bind, gets, set_pc, modify, rd, gets.
  cbn [fst snd reg_pc mem with_pc].
  unfold get_operand_addr. rewrite Ham.
  unfold exec. rewrite Hin.
  destruct (op_check_pg_cross _); reflexivity.
Qed.

Lemma step_rts Opcodes c :
  lines_get (interrupt c) = NONE ->
  op_instr (Opcodes (mem_read (mem c) (reg_pc c))) = RTS ->
  op_addrm (Opcodes (mem_read (mem c) (reg_pc c))) = impl ->
  reg_pc (snd (step Opcodes c)) = u16 (fst (s_pull16 c) + 1) /\
  reg_s (snd (step Opcodes c)) = reg_s (snd (s_pull16 c)).
Proof.
  intros Hi Hin Ham.
  unfold step, bind, gets. rewrite Hi.
  unfold arg8, bind, gets, set_pc, modify, rd, gets.
  cbn [fst snd reg_pc mem with_pc].
  unfold get_operand_addr. rewrite Ham.
  unfold exec. rewrite Hin.
  destruct (op_check_pg_cross _); split; reflexivity.
Qed.

(** X8: [JSR] pushes the address of its last byte (PC + 2) and jumps;
    an [RTS] at the target returns to the instruction after the [JSR]
    (PC + 3) and restores S. *)
Theorem jsr_then_rts Opcodes c :
  lines_get (interrupt c) = NONE ->
  op_instr (Opcodes 0x20) = JSR -> op_addrm (Opcodes 0x20) = abs_ ->
  op_instr (Opcodes 0x60) = RTS -> op_addrm (Opcodes 0x60) = impl ->
  mem_read (mem c) (reg_pc c) = 0x20 ->
  0 <= reg_pc c < 65536 - 3 ->
  0 <= reg_s c < 256 ->
  512 <= mem_read16 (mem c) (reg_pc c + 1) ->
  mem_read (mem c) (mem_read16 (mem c) (reg_pc c + 1)) = 0x60 ->
  let c1 := snd (step Opcodes c) in
  let c2 := snd (step Opcodes c1) in
  reg_pc c1 = mem_read16 (mem c) (reg_pc c + 1) /\
  reg_s c1 = (reg_s c - 2) mod 256 /\
  mem_read (mem c1) (0x0100 + reg_s c) = (reg_pc c + 2) / 256 /\
  mem_read (mem c1) (0x0100 + (reg_s c - 1) mod 256) = (reg_pc c + 2) mod 256 /\
  reg_pc c2 = reg_pc c + 3 /\
  reg_s c2 = reg_s c.
Proof.
  intros Hi Hjsr Hjsrm Hrts Hrtsm Hop Hpc Hs Htgt Hret. cbv zeta.
  assert (E1 : u16 (u16 (reg_pc c + 1) + 2) = reg_pc c + 3).
  { rewrite u16_add_l. replace (reg_pc c + 1 + 2) with (reg_pc c + 3) by ring.
    apply u16_small. clear - Hpc. lia. }
  rewrite (step_jsr Opcodes c Hi) by (rewrite Hop; assumption).
  rewrite E1.
  replace (u16 (reg_pc c + 3 - 2)) with (reg_pc c + 1)
    by (symmetry; replace (reg_pc c + 3 - 2) with (reg_pc c + 1) by ring;
        apply u16_small; clear - Hpc; lia).
  replace (reg_pc c + 3 - 1) with (reg_pc c + 2) by ring.
  rewrite mem_read16_word.
  set (c0 := with_pc (reg_pc c + 3) c).
  assert (Hw : 0 <= reg_pc c + 2 < 65536) by (clear - Hpc; lia).
  pose proof (s_push16_s_pull16 c0 (reg_pc c + 2) Hs Hw) as H16.
  cbv zeta in H16. cbn [reg_s c0 with_pc] in H16.
  destruct H16 as (Es & Ehi & Elo & Epull & Espull).
  set (cp := snd (s_push16 (reg_pc c + 2) c0)) in *.
  set (T := mem_read16 (mem c) (reg_pc c + 1)) in *.
  assert (Hlines : interrupt cp = interrupt c) by reflexivity.
  assert (Hmem : mem_read (mem cp) T = 0x60).
  { unfold cp, c0. cpu_run.
    pose proof (u8_range (reg_s c - 1)).
    assert (Ht : 512 <= u16 T)
      by (unfold T; rewrite mem_read16_word; exact Htgt).
    rewrite !mem_read_write_stack by assumption. exact Hret. }
  set (c1 := with_cycles (u64 (cycles c + op_cycles (Opcodes (mem_read (mem c) (reg_pc c)))))
               (with_pc T cp)).
  assert (Hpull : s_pull16 c1 = (fst (s_pull16 cp),
                                 with_cycles (cycles c1) (with_pc T (snd (s_pull16 cp)))))
    by reflexivity.
  destruct (step_rts Opcodes c1) as [Epc2 Es2].
  - exact Hi.
  - cbn [c1 mem reg_pc with_cycles with_pc]. rewrite Hmem. exact Hrts.
  - cbn [c1 mem reg_pc with_cycles with_pc]. rewrite Hmem. exact Hrtsm.
  - rewrite Epc2, Es2, Hpull. cbn [fst snd reg_s with_cycles with_pc].
    rewrite Epull, Espull.
    cbn [c1 reg_pc reg_s mem with_cycles with_pc].
    split; [reflexivity |]. split; [exact Es |]. split; [exact Ehi |].
    split; [exact Elo |]. split; [| reflexivity].
    replace (reg_pc c + 2 + 1) with (reg_pc c + 3) by ring.
    apply u16_small. clear - Hpc. lia.
Qed.

(** X8 with [JSR $9000] at $8000. *)
Lemma jsr_then_rts_witness :
  reg_pc (snd (step legal_opcodes at_jsr)) = 0x9000 /\
  reg_pc (snd (step legal_opcodes (snd (step legal_opcodes at_jsr)))) = 0x8003 /\
  reg_s (snd (step legal_opcodes (snd (step legal_opcodes at_jsr)))) = 0xFD.
Proof.
  destruct (jsr_then_rts legal_opcodes at_jsr eq_refl eq_refl eq_refl eq_refl
              eq_refl eq_refl)
    as (H1 & _ & _ & _ & H5 & H6);
    [vm_compute; split; congruence | vm_compute; split; congruence
    | vm_compute; congruence | reflexivity |].
  repeat split; assumption.
Defined.

(** *** Indexed addressing *)

Lemma mem_read16_u16 m a : mem_read16 m (u16 a) = mem_read16 m a.
Proof.
  unfold mem_read16. rewrite mem_read_u16.
  rewrite (mem_read_congr m (u16 a + 1) (a + 1)) by apply u16_add_l.
  reflexivity.
Qed.

Lemma page_of_unindexed base x :
  page (u16 (base + x) - x) = page base.
Proof.
  rewrite <- (page_u16 (u16 (base + x) - x)), <- (page_u16 base).
  f_equal. rewrite u16_sub_l. f_equal. ring.
Qed.

(** X9: for absolute,X and absolute,Y [get_operand_addr] returns base +
    index modulo $10000, advances PC by 2 and adds one cycle exactly when
    the opcode asks for the page check and the sum is in another page than
    the base. *)
Theorem indexed_operand_page_cross opcode c idx :
  (op_addrm opcode = absX /\ idx = reg_x c) \/
  (op_addrm opcode = absY /\ idx = reg_y c) ->
  0 <= cycles c < 18446744073709551616 ->
  let base := mem_read16 (mem c) (reg_pc c) in
  let r := get_operand_addr opcode c in
  fst r = (base + idx) mod 65536 /\
  reg_pc (snd r) = (reg_pc c + 2) mod 65536 /\
  cycles (snd r)
  = u64 (cycles c +
         (if op_check_pg_cross opcode && negb (page (fst r) =? page base)
          then 1 else 0)) /\
  mem (snd r) = mem c.
Proof.
  intros Hm Hcy. cbv zeta.
  assert (Hb : mem_read16 (mem c) (u16 (u16 (reg_pc c + 2) - 2))
               = mem_read16 (mem c) (reg_pc c)).
  { rewrite mem_read16_u16.
    rewrite <- (mem_read16_u16 _ (u16 (reg_pc c + 2) - 2)), u16_sub_l.
    replace (reg_pc c + 2 - 2) with (reg_pc c) by ring.
    apply mem_read16_u16. }
  unfold get_operand_addr.
  destruct Hm as [[-> ->] | [-> ->]].
  all: cpu_run; rewrite Hb.
  all: unfold did_pg_cross; fold (page (mem_read16 (mem c) (reg_pc c))).
  all: destruct (op_check_pg_cross opcode); cpu_simpl; cbn [andb].
  all: repeat split; try reflexivity.
  all: match goal with
       | |- context [Z.land (u16 (?b + ?x) - ?x) 65280] =>
         change (Z.land (u16 (b + x) - x) 65280) with (page (u16 (b + x) - x));
         change (Z.land (u16 (b + x)) 65280) with (page (u16 (b + x)));
         rewrite page_of_unindexed
       | _ => idtac
       end.
  all: try (rewrite (Z.eqb_sym (page (mem_read16 (mem c) (reg_pc c))));
            destruct (_ =? _); reflexivity).
  all: rewrite Z.add_0_r; symmetry; apply Z.mod_small; exact Hcy.
Qed.

(** X9 for [LDA $10F0,X] with X = $20: the operand is $1110 and one cycle
    is added. *)
Lemma indexed_operand_page_cross_witness :
  fst (get_operand_addr (legal_opcodes 0xBD) at_absX_operand) = 0x1110 /\
  cycles (snd (get_operand_addr (legal_opcodes 0xBD) at_absX_operand)) = 11.
Proof.
  destruct (indexed_operand_page_cross (legal_opcodes 0xBD) at_absX_operand 0x20
              (or_introl (conj eq_refl eq_refl)))
    as (H1 & _ & H3 & _); [vm_compute; split; congruence |].
  split; [exact H1 | exact H3].
Defined.

(** *** Arithmetic *)

Ltac flags :=
  repeat first
    [ rewrite flag_of_set
    | rewrite flag_of_set_other by discriminate ].

Lemma adc_check_all :
  forallb (fun a => forallb (fun v => adc_check a v 0 && adc_check a v 1)
                      (seqZ 0 256)) (seqZ 0 256) = true.
Proof. vm_compute. reflexivity. Qed.

Lemma adc_arith a v cin :
  0 <= a < 256 -> 0 <= v < 256 -> 0 <= cin < 2 ->
  let sum := u16 (a + v + cin) in
  u8 (u8 sum) = (a + v + cin) mod 256 /\
  (0xFF <? sum) = (255 <? a + v + cin) /\
  (u8 sum =? 0) = ((a + v + cin) mod 256 =? 0) /\
  nth_bit (u8 sum) 7 = (128 <=? (a + v + cin) mod 256) /\
  negb (Z.land (Z.land (Z.lnot (Z.lxor a v)) (Z.lxor a sum)) 0x80 =? 0)
  = negb ((-128 <=? i8 a + i8 v + cin) && (i8 a + i8 v + cin <=? 127)).
Proof.
  intros Ha Hv Hc. cbv zeta.
  pose proof (forall_byte2 (fun a v => adc_check a v 0 && adc_check a v 1)
                adc_check_all a v Ha Hv) as H.
  apply andb_true_iff in H. destruct H as [H0 H1].
  assert (H : adc_check a v cin = true).
  { assert (cin = 0 \/ cin = 1) as [-> | ->] by lia; assumption. }
  clear H0 H1. unfold adc_check in H. cbv zeta in H.
  repeat (apply andb_true_iff in H; destruct H as [H ?]).
  repeat match goal with
         | H : Bool.eqb _ _ = true |- _ => apply Bool.eqb_prop in H
         end.
  apply Z.eqb_eq in H. repeat split; assumption.
Qed.

Lemma carry_in_range c : 0 <= carry_in c < 2.
Proof. unfold carry_in, b2z. destruct (flag_of _ _); lia. Qed.

(** X10: [ADC] computes A + M + C: A gets the sum modulo 256, C is the
    carry out of bit 7, Z and N describe the new A, V tells that the signed
    sum does not fit in 8 bits; nothing else changes. *)
Theorem adc_adds_with_carry opcode addr c :
  op_instr opcode = ADC ->
  0 <= reg_a c < 256 ->
  let a := reg_a c in
  let v := mem_read (mem c) addr in
  let cin := carry_in c in
  let c' := snd (exec opcode addr c) in
  reg_a c' = (a + v + cin) mod 256 /\
  flag_of (reg_p c') fC = (255 <? a + v + cin) /\
  flag_of (reg_p c') fZ = ((a + v + cin) mod 256 =? 0) /\
  flag_of (reg_p c') fN = (128 <=? (a + v + cin) mod 256) /\
  flag_of (reg_p c') fV
  = negb ((-128 <=? i8 a + i8 v + cin) && (i8 a + i8 v + cin <=? 127)) /\
  flag_of (reg_p c') fI = flag_of (reg_p c) fI /\
  flag_of (reg_p c') fD = flag_of (reg_p c) fD /\
  mem c' = mem c /\ reg_pc c' = reg_pc c /\ reg_s c' = reg_s c /\
  reg_x c' = reg_x c /\ reg_y c' = reg_y c /\ cycles c' = cycles c.
Proof.
  intros Hin Ha. cbv zeta.
  destruct (adc_arith (reg_a c) (mem_read (mem c) addr) (carry_in c) Ha
              (mem_read_range _ _) (carry_in_range c))
    as (EA & EC & EZ & EN & EV).
  unfold exec. rewrite Hin. cpu_run. fold (carry_in c).
  flags.
  repeat split; try reflexivity; assumption.
Qed.

(** X10 at $50 + $50: A = $A0, V and N set, C clear. *)
Lemma adc_adds_with_carry_witness :
  let c' := snd (exec (legal_opcodes 0x69) 0x0010 adding_50_50) in
  reg_a c' = 0xA0 /\ flag_of (reg_p c') fC = false /\
  flag_of (reg_p c') fV = true /\ flag_of (reg_p c') fN = true /\
  flag_of (reg_p c') fZ = false.
Proof.
  destruct (adc_adds_with_carry (legal_opcodes 0x69) 0x0010 adding_50_50 eq_refl)
    as (H1 & H2 & H3 & H4 & H5 & _); [vm_compute; split; congruence |].
  cbv zeta. repeat split; assumption.
Defined.

Lemma sbc_check_all :
  forallb (fun a => forallb (fun v => sbc_check a v 0 && sbc_check a v 1)
                      (seqZ 0 256)) (seqZ 0 256) = true.
Proof. vm_compute. reflexivity. Qed.

Lemma sbc_arith a v cin :
  0 <= a < 256 -> 0 <= v < 256 -> 0 <= cin < 2 ->
  let sum := u16 (a + Z.lnot v + cin) in
  let d := a - v - (1 - cin) in
  u8 (u8 sum) = d mod 256 /\
  negb (0xFF <? sum) = (0 <=? d) /\
  (u8 sum =? 0) = (d mod 256 =? 0) /\
  nth_bit (u8 sum) 7 = (128 <=? d mod 256) /\
  negb (Z.land (Z.land (Z.lnot (Z.lxor a (Z.lnot v))) (Z.lxor a sum)) 0x80 =? 0)
  = negb ((-128 <=? i8 a - i8 v - (1 - cin)) && (i8 a - i8 v - (1 - cin) <=? 127)).
Proof.
  intros Ha Hv Hc. cbv zeta.
  pose proof (forall_byte2 (fun a v => sbc_check a v 0 && sbc_check a v 1)
                sbc_check_all a v Ha Hv) as H.
  apply andb_true_iff in H. destruct H as [H0 H1].
  assert (H : sbc_check a v cin = true).
  { assert (cin = 0 \/ cin = 1) as [-> | ->] by lia; assumption. }
  clear H0 H1. unfold sbc_check in H. cbv zeta in H.
  repeat (apply andb_true_iff in H; destruct H as [H ?]).
  repeat match goal with
         | H : Bool.eqb _ _ = true |- _ => apply Bool.eqb_prop in H
         end.
  apply Z.eqb_eq in H. repeat split; assumption.
Qed.

(** X11: [SBC] computes A - M - (1 - C): A gets the difference modulo
    256, C is set when no borrow is needed, Z and N describe the new A, V
    tells that the signed difference does not fit in 8 bits. *)
Theorem sbc_subtracts_with_borrow opcode addr c :
  op_instr opcode = SBC ->
  0 <= reg_a c < 256 ->
  let a := reg_a c in
  let v := mem_read (mem c) addr in
  let borrow := 1 - carry_in c in
  let c' := snd (exec opcode addr c) in
  reg_a c' = (a - v - borrow) mod 256 /\
  flag_of (reg_p c') fC = (0 <=? a - v - borrow) /\
  flag_of (reg_p c') fZ = ((a - v - borrow) mod 256 =? 0) /\
  flag_of (reg_p c') fN = (128 <=? (a - v - borrow) mod 256) /\
  flag_of (reg_p c') fV
  = negb ((-128 <=? i8 a - i8 v - borrow) && (i8 a - i8 v - borrow <=? 127)) /\
  flag_of (reg_p c') fI = flag_of (reg_p c) fI /\
  flag_of (reg_p c') fD = flag_of (reg_p c) fD /\
  mem c' = mem c /\ reg_pc c' = reg_pc c /\ reg_s c' = reg_s c /\
  reg_x c' = reg_x c /\ reg_y c' = reg_y c /\ cycles c' = cycles c.
Proof.
  intros Hin Ha. cbv zeta.
  destruct (sbc_arith (reg_a c) (mem_read (mem c) addr) (carry_in c) Ha
              (mem_read_range _ _) (carry_in_range c))
    as (EA & EC & EZ & EN & EV).
  unfold exec. rewrite Hin. cpu_run. fold (carry_in c).
  flags.
  repeat split; try reflexivity; assumption.
Qed.

(** X11 at $50 - $70: A = $E0, C clear (borrow), N set. *)
Lemma sbc_subtracts_with_borrow_witness :
  let c' := snd (exec (legal_opcodes 0xE9) 0x0010 subtracting_70) in
  reg_a c' = 0xE0 /\ flag_of (reg_p c') fC = false /\
  flag_of (reg_p c') fV = false /\ flag_of (reg_p c') fN = true.
Proof.
  destruct (sbc_subtracts_with_borrow (legal_opcodes 0xE9) 0x0010 subtracting_70
              eq_refl)
    as (H1 & H2 & _ & H4 & H5 & _); [vm_compute; split; congruence |].
  cbv zeta. repeat split; assumption.
Defined.

Lemma cmp_check_all :
  forallb (fun r => forallb (cmp_check r) (seqZ 0 256)) (seqZ 0 256) = true.
Proof. vm_compute. reflexivity. Qed.

Lemma cmp_arith r v :
  0 <= r < 256 -> 0 <= v < 256 ->
  (r - v =? 0) = (r =? v) /\ nth_bit (r - v) 7 = (128 <=? (r - v) mod 256).
Proof.
  intros Hr Hv.
  pose proof (forall_byte2 cmp_check cmp_check_all r v Hr Hv) as H.
  unfold cmp_check in H. apply andb_true_iff in H. destruct H as [H1 H2].
  apply Bool.eqb_prop in H1, H2. split; assumption.
Qed.

(** X12: [CMP], [CPX] and [CPY] set C when the register is at least the
    operand, Z when they are equal and N from bit 7 of the difference, and
    change no register, no other flag and no memory. *)
Theorem compare_sets_flags_only opcode addr c r :
  compared (op_instr opcode) c = Some r ->
  0 <= r < 256 ->
  let v := mem_read (mem c) addr in
  let c' := snd (exec opcode addr c) in
  flag_of (reg_p c') fC = (v <=? r) /\
  flag_of (reg_p c') fZ = (r =? v) /\
  flag_of (reg_p c') fN = (128 <=? (r - v) mod 256) /\
  flag_of (reg_p c') fV = flag_of (reg_p c) fV /\
  flag_of (reg_p c') fI = flag_of (reg_p c) fI /\
  flag_of (reg_p c') fD = flag_of (reg_p c) fD /\
  reg_a c' = reg_a c /\ reg_x c' = reg_x c /\ reg_y c' = reg_y c /\
  mem c' = mem c /\ reg_pc c' = reg_pc c /\ reg_s c' = reg_s c /\
  cycles c' = cycles c.
Proof.
  intros Hcmp Hr. cbv zeta.
  destruct (cmp_arith r (mem_read (mem c) addr) Hr (mem_read_range _ _))
    as [EZ EN].
  unfold exec.
  destruct (op_instr opcode); try discriminate;
    cbn [compared] in Hcmp; injection Hcmp as <-;
    cpu_run; flags;
    repeat split; try reflexivity; assumption.
Qed.

(** X12 for [CMP] with A = $50 and operand $50. *)
Lemma compare_sets_flags_only_witness :
  let c' := snd (exec (legal_opcodes 0xC9) 0x0010 adding_50_50) in
  flag_of (reg_p c') fC = true /\ flag_of (reg_p c') fZ = true /\
  flag_of (reg_p c') fN = false /\ reg_a c' = 0x50.
Proof.
  destruct (compare_sets_flags_only (legal_opcodes 0xC9) 0x0010 adding_50_50 0x50
              eq_refl)
    as (H1 & H2 & H3 & _ & _ & _ & H7 & _); [vm_compute; split; congruence |].
  cbv zeta. repeat split; assumption.
Defined.

(** *** Rotations *)

Lemma rot_check_all :
  forallb (fun a => rot_check a 0 && rot_check a 1) (seqZ 0 256) = true.
Proof. vm_compute. reflexivity. Qed.

(** X13: [ROL A] followed by [ROR A] restores A and the carry; in between
    A holds 2A + C modulo 256 and C the old bit 7. *)
Theorem rol_then_ror_on_a o1 o2 addr1 addr2 c :
  op_instr o1 = ROL -> op_addrm o1 = acc ->
  op_instr o2 = ROR -> op_addrm o2 = acc ->
  0 <= reg_a c < 256 ->
  let c1 := snd (exec o1 addr1 c) in
  let c2 := snd (exec o2 addr2 c1) in
  reg_a c1 = (2 * reg_a c + carry_in c) mod 256 /\
  flag_of (reg_p c1) fC = (128 <=? reg_a c) /\
  reg_a c2 = reg_a c /\
  flag_of (reg_p c2) fC = flag_of (reg_p c) fC /\
  mem c2 = mem c.
Proof.
  intros H1 M1 H2 M2 Ha. cbv zeta.
  pose proof (forall_byte (fun a => rot_check a 0 && rot_check a 1)
                rot_check_all (reg_a c) Ha) as H.
  apply andb_true_iff in H. destruct H as [R0 R1].
  pose proof (forall_byte
    (fun a => (u8 (Z.lor (Z.shiftl a 1) 0) =? (2 * a + 0) mod 256)
              && (u8 (Z.lor (Z.shiftl a 1) 1) =? (2 * a + 1) mod 256)
              && Bool.eqb (nth_bit a 7) (128 <=? a))
    ltac:(vm_compute; reflexivity) (reg_a c) Ha) as H.
  apply andb_true_iff in H. destruct H as [H E7].
  apply andb_true_iff in H. destruct H as [E0 E1].
  apply Bool.eqb_prop in E7. apply Z.eqb_eq in E0, E1.
  unfold exec. rewrite H1, M1, H2, M2. cpu_run. flags.
  unfold rot_check in R0, R1. cbv zeta in R0, R1.
  apply andb_true_iff in R0, R1. destruct R0 as [A0 B0], R1 as [A1 B1].
  apply Z.eqb_eq in A0, A1. apply Bool.eqb_prop in B0, B1.
  unfold carry_in.
  destruct (flag_of (reg_p c) fC); cbn [b2z] in *;
    rewrite ?u8_idem;
    repeat split; try assumption; try reflexivity.
Qed.

(** X13 at A = $81 with the carry clear. *)
Lemma rol_then_ror_on_a_witness :
  let c1 := snd (exec (legal_opcodes 0x2A) 0 rotating_81) in
  let c2 := snd (exec (legal_opcodes 0x6A) 0 c1) in
  reg_a c1 = 0x02 /\ flag_of (reg_p c1) fC = true /\
  reg_a c2 = 0x81 /\ flag_of (reg_p c2) fC = false.
Proof.
  destruct (rol_then_ror_on_a (legal_opcodes 0x2A) (legal_opcodes 0x6A) 0 0
              rotating_81 eq_refl eq_refl eq_refl eq_refl)
    as (H1 & H2 & H3 & H4 & _); [vm_compute; split; congruence |].
  cbv zeta. repeat split; assumption.
Defined.

(** *** Cycle accounting *)

Lemma u64_range z : 0 <= u64 z < 18446744073709551616.
Proof. unfold u64. apply Z.mod_pos_bound. lia. Qed.

Lemma adds_weaken {A : Type} n n' (m : M A) : adds n m -> n <= n' -> adds n' m.
Proof.
  intros H Hn c Hc. destruct (H c Hc) as (k & Hk & E).
  exists k. split; [lia | exact E].
Qed.

Lemma adds_ret {A : Type} (a : A) : adds 0 (ret a).
Proof.
  intros c Hc. exists 0. split; [lia |]. cbn [ret snd].
  rewrite Z.add_0_r. symmetry. apply Z.mod_small. exact Hc.
Qed.

Lemma adds_gets {A : Type} (f : CPU -> A) : adds 0 (gets f).
Proof. intros c Hc. apply (adds_ret (f c) c Hc). Qed.

Lemma adds_modify (g : CPU -> CPU) :
  (forall c, cycles (g c) = cycles c) -> adds 0 (modify g).
Proof.
  intros Hg c Hc. exists 0. split; [lia |]. cbn [modify snd]. rewrite Hg.
  rewrite Z.add_0_r. symmetry. apply Z.mod_small. exact Hc.
Qed.

Lemma adds_add_cycles k : 0 <= k -> adds k (add_cycles k).
Proof. intros Hk c Hc. exists k. split; [lia | reflexivity]. Qed.

Lemma adds_bind {A B : Type} n1 n2 (m : M A) (k : A -> M B) :
  adds n1 m -> (forall a, adds n2 (k a)) -> adds (n1 + n2) (bind m k).
Proof.
  intros Hm Hk c Hc. unfold bind.
  destruct (Hm c Hc) as (k1 & Hk1 & E1).
  destruct (m c) as [a c1]. cbn [snd] in E1.
  assert (Hc1 : 0 <= cycles c1 < 18446744073709551616)
    by (rewrite E1; apply u64_range).
  destruct (Hk a c1 Hc1) as (k2 & Hk2 & E2).
  exists (k1 + k2). split; [lia |].
  rewrite E2, E1, u64_add_l. f_equal. ring.
Qed.

Lemma adds_bind0 {A B : Type} n (m : M A) (k : A -> M B) :
  adds 0 m -> (forall a, adds n (k a)) -> adds n (bind m k).
Proof. intros Hm Hk. apply (adds_bind 0 n m k Hm Hk). Qed.

Ltac adds0_step :=
  first
    [ apply adds_ret
    | apply adds_gets
    | apply adds_modify; intros ?; reflexivity
    | apply adds_bind0; [| intros ?]
    | match goal with
      | |- adds _ (match ?x with _ => _ end) => destruct x
      | |- adds _ (if ?b then _ else _) => destruct b
      end ].

Ltac adds0 := repeat adds0_step.

Lemma adds_s_pull : adds 0 s_pull.
Proof. unfold s_pull, set_s, rd. adds0. Qed.

Lemma adds_s_push v : adds 0 (s_push v).
Proof. unfold s_push, set_s, wr. adds0. Qed.

Lemma adds_s_pull16 : adds 0 s_pull16.
Proof. unfold s_pull16. adds0; apply adds_s_pull. Qed.

Lemma adds_s_push16 v : adds 0 (s_push16 v).
Proof. unfold s_push16. adds0; apply adds_s_push. Qed.

Lemma adds_set_zn v : adds 0 (set_zn v).
Proof. unfold set_zn, set_flag. adds0. Qed.

Lemma adds_arg8 : adds 0 arg8.
Proof. unfold arg8, set_pc, rd. adds0. Qed.

Lemma adds_arg16 : adds 0 arg16.
Proof. unfold arg16, set_pc, rd16. adds0. Qed.

Lemma adds_service_interrupt i brk : adds 7 (service_interrupt i brk).
Proof.
  unfold service_interrupt.
  apply adds_bind0; [unfold set_flag; adds0 | intros _].
  apply adds_bind0;
    [destruct i; adds0; first [apply adds_s_push16 | apply adds_s_push] | intros _].
  change 7 with (7 + 0).
  apply adds_bind; [apply adds_add_cycles; lia | intros _].
  unfold flag, rd16, set_pc. destruct i; adds0.
Qed.

Lemma adds_b2z b : adds 1 (add_cycles (b2z b)).
Proof.
  destruct b; cbn [b2z]; [apply adds_add_cycles; lia |].
  apply (adds_weaken 0); [apply adds_add_cycles |]; lia.
Qed.

Lemma adds_get_operand_addr opcode : adds 1 (get_operand_addr opcode).
Proof.
  unfold get_operand_addr.
  destruct (op_addrm opcode);
    [apply (adds_weaken 0); [apply adds_ret | lia] | ..].
  all: apply adds_bind0;
         [ unfold rd16_zpg, set_pc;
           repeat first [adds0_step | apply adds_arg8 | apply adds_arg16]
         | intros addr ].
  all: change 1 with (1 + 0); apply adds_bind; [| intros _; apply adds_ret].
  all: destruct (op_check_pg_cross opcode);
         try (apply (adds_weaken 0); [apply adds_ret | lia]).
  all: apply adds_bind0; [apply adds_gets | intros ?; apply adds_b2z].
Qed.

Lemma adds_branch cond addr : adds 3 (branch cond addr).
Proof.
  unfold branch. destruct cond; cbn [negb];
    [| apply (adds_weaken 0); [apply adds_ret | lia]].
  apply adds_bind0; [unfold rd; adds0 | intros m].
  change 3 with (1 + 2).
  apply adds_bind; [apply adds_add_cycles; lia | intros _].
  apply adds_bind0; [apply adds_gets | intros pc].
  change 2 with (2 + 0).
  apply adds_bind; [| intros _; unfold set_pc; adds0].
  destruct (negb _);
    [apply adds_add_cycles; lia | apply (adds_weaken 0); [apply adds_ret | lia]].
Qed.

Lemma adds_exec opcode addr : adds 7 (exec opcode addr).
Proof.
  unfold exec.
  destruct (op_instr opcode);
    try solve
      [ apply (adds_weaken 0); [| lia];
        unfold set_a, set_x, set_y, set_s, set_p, set_pc, set_flag, flag, rd, wr,
          set_state;
        repeat first
          [ adds0_step | apply adds_set_zn | apply adds_s_pull | apply adds_s_push
          | apply adds_s_pull16 | apply adds_s_push16 ] ].
  all: try apply adds_service_interrupt.
  all: apply (adds_weaken 3); [| lia].
  all: apply adds_bind0; [unfold flag; apply adds_gets | intros ?; apply adds_branch].
Qed.

Lemma rd_bind {A : Type} old (m : M A) (k : A -> M Z) :
  (forall a, returns_delta old (k a)) -> returns_delta old (bind m k).
Proof. intros Hk c. unfold bind. destruct (m c) as [a c']. apply Hk. Qed.

Lemma rd_tail old :
  returns_delta old (bind (gets cycles) (fun c1 => ret (u32 (c1 - old)))).
Proof. intros c. reflexivity. Qed.

Lemma rd_from_start (k : Z -> M Z) :
  (forall old, returns_delta (u32 old) (k old)) ->
  forall c, fst (bind (gets cycles) k c)
            = u32 (cycles (snd (bind (gets cycles) k c)) - u32 (cycles c)).
Proof. intros H c. unfold bind, gets. apply H. Qed.

Lemma step_returns_delta Opcodes c :
  fst (step Opcodes c) = u32 (cycles (snd (step Opcodes c)) - u32 (cycles c)).
Proof.
  unfold step. apply rd_from_start. intros old.
  apply rd_bind. intros i.
  destruct i; repeat first [apply rd_tail | apply rd_bind; intros ?].
Qed.

(** X14: whatever [step] does, the value it returns is the number of
    cycles it added to the 64-bit counter, at most 263 (the table entry and
    at most 8 more), given that the table entries are bytes. *)
Theorem step_counts_the_cycles_it_returns Opcodes c :
  (forall op, 0 <= op_cycles (Opcodes op) < 256) ->
  0 <= cycles c < 18446744073709551616 ->
  0 <= fst (step Opcodes c) <= 263 /\
  cycles (snd (step Opcodes c))
  = (cycles c + fst (step Opcodes c)) mod 18446744073709551616.
Proof.
  intros Hops Hc.
  assert (Hadds : adds 263 (step Opcodes)).
  { unfold step.
    apply adds_bind0; [apply adds_gets | intros c0].
    apply adds_bind0; [apply adds_gets | intros i].
    assert (Hint : adds 263 (bind (service_interrupt i false)
                (fun _ => bind (gets cycles)
                   (fun c1 => ret (u32 (c1 - u32 c0)))))).
    { change 263 with (263 + 0).
      apply adds_bind;
        [apply (adds_weaken 7); [apply adds_service_interrupt | lia] | intros _].
      adds0. }
    destruct i; try exact Hint.
    apply adds_bind0; [apply adds_arg8 | intros op].
    change 263 with (1 + 262).
    apply adds_bind; [apply adds_get_operand_addr | intros addr].
    change 262 with (7 + 255).
    apply adds_bind; [apply adds_exec | intros _].
    change 255 with (255 + 0).
    apply adds_bind; [| intros _; adds0].
    apply (adds_weaken (op_cycles (Opcodes op)));
      [apply adds_add_cycles |]; specialize (Hops op); lia. }
  pose proof (step_returns_delta Opcodes c) as Hret.
  destruct (Hadds c Hc) as (k & Hk & E).
  rewrite Hret, E, cycles_returned by lia.
  split; [lia | reflexivity].
Qed.

(** The cycle counts of the table of legal opcodes are bytes. *)
Lemma legal_opcodes_cycles op : 0 <= op_cycles (legal_opcodes op) < 256.
Proof.
  unfold legal_opcodes.
  repeat match goal with
         | |- context [match ?x with _ => _ end] => destruct x
         end; cbn [op_cycles]; lia.
Qed.

(** X14 for [JSR]: 6 cycles. *)
Lemma step_counts_the_cycles_it_returns_witness :
  fst (step legal_opcodes at_jsr) = 6 /\
  cycles (snd (step legal_opcodes at_jsr)) = 6.
Proof.
  destruct (step_counts_the_cycles_it_returns legal_opcodes at_jsr
              legal_opcodes_cycles) as [_ H];
    [vm_compute; split; congruence |].
  assert (E : fst (step legal_opcodes at_jsr) = 6) by (vm_compute; reflexivity).
  split; [exact E |]. rewrite H, E. reflexivity.
Defined.

End CPUBehaviour.

(** ** Further properties of wideNES

    Where a pixel goes, what a commit copies, the scroll of a frame, the
    heuristics and the keys. *)

Module WideNESBehaviour.

Import WideNES BitsFacts WideNESFacts WideNESVocab.

(** *** Where a pixel goes *)

(** X15: every source pixel of loop 1) is on the NES screen (the
    [assert] of the loop holds) and its destination [(dx, dy)] is inside the
    256 by 240 tile [(tx, ty)], at the map position of the pixel; the block
    indices are inside the 16 by 15 grid, the four bytes written are inside
    [fb_new], and the tile is one of the four around the scroll position. *)
Theorem pixel_lands_inside_its_tile s sx sy :
  total_nonneg s -> in_window s sx sy ->
  let tx := pixel_tx s sx in
  let ty := pixel_ty s sy in
  let dx := u32 ((scroll_x (scroll s) - tx * 256) + sx) in
  let dy := u32 ((scroll_y (scroll s) - ty * 240) + sy) in
  (0 <= sx < 256 /\ 0 <= sy < 240) /\
  (0 <= dx < 256 /\ 0 <= dy < 240) /\
  (tx * 256 + dx = scroll_x (scroll s) + sx /\
   ty * 240 + dy = scroll_y (scroll s) + sy) /\
  (0 <= dx `div` 16 < 16 /\ 0 <= dy `div` 16 < 15) /\
  (0 <= u32 (256 * 4 * dy + 4 * dx) /\
   u32 (256 * 4 * dy + 4 * dx) + 3 < 256 * 240 * 4) /\
  near s tx ty.
Proof.
  intros Hnn Hw. cbv zeta.
  destruct (window_in_screen s sx sy Hnn Hw) as [Hx Hy].
  assert (Ex : u32 (scroll_x (scroll s) - pixel_tx s sx * 256 + sx)
               = (scroll_x (scroll s) + sx) mod 256).
  { unfold pixel_tx. rewrite u32_small; Z.div_mod_to_equations; lia. }
  assert (Ey : u32 (scroll_y (scroll s) - pixel_ty s sy * 240 + sy)
               = (scroll_y (scroll s) + sy) mod 240).
  { unfold pixel_ty. rewrite u32_small; Z.div_mod_to_equations; lia. }
  rewrite Ex, Ey.
  pose proof (Z.mod_pos_bound (scroll_x (scroll s) + sx) 256 ltac:(lia)) as Bx.
  pose proof (Z.mod_pos_bound (scroll_y (scroll s) + sy) 240 ltac:(lia)) as By.
  set (dx := (scroll_x (scroll s) + sx) mod 256) in *.
  set (dy := (scroll_y (scroll s) + sy) mod 240) in *.
  rewrite (u32_small (256 * 4 * dy + 4 * dx)) by lia.
  split; [split; assumption |]. split; [split; assumption |].
  split.
  { unfold pixel_tx, pixel_ty, dx, dy. split; Z.div_mod_to_equations; lia. }
  split; [split; Z.div_mod_to_equations; lia |].
  split; [lia |].
  apply pixel_tile_near; assumption.
Qed.

(** X15 with the view at (300, -50): the pixel (250, 10) goes to the tile
    (2, -1). *)
Lemma pixel_lands_inside_its_tile_witness :
  near scrolled_view 2 (-1) /\
  2 * 256 + u32 ((300 - 2 * 256) + 250) = 300 + 250.
Proof.
  assert (Hn : total_nonneg scrolled_view) by (unfold total_nonneg; cbn; lia).
  assert (Hw : in_window scrolled_view 250 10) by (unfold in_window; cbn; lia).
  pose proof (pixel_lands_inside_its_tile scrolled_view 250 10 Hn Hw) as H.
  cbv zeta in H. destruct H as (_ & _ & [Hx _] & _ & _ & Hnear).
  split; [exact Hnear | exact Hx].
Defined.

Lemma upd_same {A : Type} (a : Z -> A) i v : upd a i v i = v.
Proof. unfold upd. rewrite Z.eqb_refl. reflexivity. Qed.

Lemma upd_other {A : Type} (a : Z -> A) i v j : j <> i -> upd a i v j = a j.
Proof. intros H. unfold upd. destruct (Z.eqb_spec j i); [contradiction | reflexivity]. Qed.

Lemma upd2_other {A : Type} (a : Z -> Z -> A) i j v i' j' :
  (i', j') <> (i, j) -> upd2 a i j v i' j' = a i' j'.
Proof.
  intros H. unfold upd2.
  destruct (Z.eqb_spec i' i) as [-> |]; [| reflexivity].
  destruct (Z.eqb_spec j' j) as [-> |]; [| reflexivity].
  contradiction.
Qed.

(** The body of loop 1): it copies the four bytes of the source pixel to the
    destination pixel of [fb_new], adds one to the counter of the block of
    the destination, and changes no other byte, no other counter, and
    neither [fb] nor [done]. *)
Lemma write_pixel_effect fbuf s tile tx ty sx sy :
  0 <= sx < 256 -> 0 <= sy < 240 ->
  let dx := u32 ((scroll_x (scroll s) - tx * 256) + sx) in
  let dy := u32 ((scroll_y (scroll s) - ty * 240) + sy) in
  0 <= dx < 256 -> 0 <= dy < 240 ->
  let t' := write_pixel fbuf s tile tx ty sx sy in
  (forall k, 0 <= k < 4 ->
     fb_new t' (256 * 4 * dy + 4 * dx + k) = fbuf (256 * 4 * sy + 4 * sx + k)) /\
  (forall i, ~ (256 * 4 * dy + 4 * dx <= i < 256 * 4 * dy + 4 * dx + 4) ->
     fb_new t' i = fb_new tile i) /\
  fill t' (dx `div` 16) (dy `div` 16) = fill tile (dx `div` 16) (dy `div` 16) + 1 /\
  (forall bx by_, (bx, by_) <> (dx `div` 16, dy `div` 16) ->
     fill t' bx by_ = fill tile bx by_) /\
  fb t' = fb tile /\ done t' = done tile /\
  tile_x t' = tile_x tile /\ tile_y t' = tile_y tile.
Proof.
  intros Hsx Hsy. cbv zeta.
  set (dx := u32 (scroll_x (scroll s) - tx * 256 + sx)).
  set (dy := u32 (scroll_y (scroll s) - ty * 240 + sy)).
  intros Hdx Hdy.
  unfold write_pixel. fold dx dy. cbn [fb_new fill fb done tile_x tile_y].
  rewrite (u32_small (256 * 4 * dy + 4 * dx)) by lia.
  rewrite (u32_small (256 * 4 * sy + 4 * sx)) by lia.
  rewrite !(u32_small (256 * 4 * dy + 4 * dx + _)) by lia.
  rewrite !(u32_small (256 * 4 * sy + 4 * sx + _)) by lia.
  split.
  { intros k Hk.
    assert (k = 0 \/ k = 1 \/ k = 2 \/ k = 3) as [-> | [-> | [-> | ->]]] by lia.
    - rewrite !upd_other by lia. apply upd_same.
    - rewrite !upd_other by lia. apply upd_same.
    - rewrite !upd_other by lia. apply upd_same.
    - apply upd_same. }
  split.
  { intros i Hi. rewrite !upd_other by lia. reflexivity. }
  split; [apply upd2_same |].
  split; [intros bx by_ Hne; apply upd2_other, Hne |].
  repeat split.
Qed.

(** *** Loop 1) counts the pixels of a block *)

Lemma foldl_sum {A B : Type} (step : A -> B -> A) (mu : A -> Z) (w : B -> Z) (l : list B) :
  (forall a x, x ∈ l -> mu (step a x) = mu a + w x) ->
  forall a, mu (foldl step a l) = mu a + sum_of w l.
Proof.
  induction l as [| x l IH]; intros Hstep a; cbn [foldl sum_of]; [lia |].
  rewrite IH by (intros a' y Hy; apply Hstep; right; exact Hy).
  rewrite Hstep by left. lia.
Qed.

Lemma sum_of_ext {A : Type} (w1 w2 : A -> Z) l :
  (forall x, x ∈ l -> w1 x = w2 x) -> sum_of w1 l = sum_of w2 l.
Proof.
  induction l as [| x l IH]; intros H; cbn [sum_of]; [reflexivity |].
  rewrite H by left. rewrite IH by (intros y Hy; apply H; right; exact Hy).
  reflexivity.
Qed.

Lemma sum_of_scale {A : Type} (w : A -> Z) k l :
  sum_of (fun x => w x * k) l = sum_of w l * k.
Proof. induction l as [| x l IH]; cbn [sum_of]; [reflexivity | rewrite IH; ring]. Qed.

Lemma sum_of_interval a b lo n :
  sum_of (fun z => if (a <=? z) && (z <? b) then 1 else 0) (seqZ lo n)
  = Z.max 0 (Z.min (lo + n) b - Z.max lo a).
Proof.
  remember (Z.to_nat n) as k eqn:Hk. revert lo n Hk.
  induction k as [| k IH]; intros lo n Hk.
  - assert (n <= 0) by lia. rewrite seqZ_nil by assumption. cbn [sum_of]. lia.
  - assert (0 < n) by lia. rewrite seqZ_cons by assumption. cbn [sum_of].
    rewrite (IH (Z.succ lo) (Z.pred n)) by lia.
    destruct (Z.leb_spec a lo), (Z.ltb_spec lo b); cbn [andb]; lia.
Qed.

Lemma hits_x_interval s tx bx sx :
  0 <= bx < 16 ->
  hits_x s tx bx sx
  = (block_sx s tx bx <=? sx) && (sx <? block_sx s tx bx + 16).
Proof.
  intros Hbx. unfold hits_x, block_sx, pixel_tx.
  generalize (scroll_x (scroll s)); intros X.
  assert (E : u32 (X - (X + sx) `div` 256 * 256 + sx) = (X + sx) mod 256).
  { rewrite u32_small; Z.div_mod_to_equations; lia. }
  rewrite E.
  destruct (Z.eqb_spec ((X + sx) `div` 256) tx) as [Ht | Ht];
    destruct (Z.eqb_spec (((X + sx) mod 256) `div` 16) bx) as [Hb | Hb];
    destruct (Z.leb_spec (tx * 256 + bx * 16 - X) sx);
    destruct (Z.ltb_spec sx (tx * 256 + bx * 16 - X + 16));
    cbn [andb]; try reflexivity; exfalso;
    Z.div_mod_to_equations; lia.
Qed.

Lemma hits_y_interval s ty by_ sy :
  0 <= by_ < 15 ->
  hits_y s ty by_ sy
  = (block_sy s ty by_ <=? sy) && (sy <? block_sy s ty by_ + 16).
Proof.
  intros Hby. unfold hits_y, block_sy, pixel_ty.
  generalize (scroll_y (scroll s)); intros Y.
  assert (E : u32 (Y - (Y + sy) `div` 240 * 240 + sy) = (Y + sy) mod 240).
  { rewrite u32_small; Z.div_mod_to_equations; lia. }
  rewrite E.
  destruct (Z.eqb_spec ((Y + sy) `div` 240) ty) as [Ht | Ht];
    destruct (Z.eqb_spec (((Y + sy) mod 240) `div` 16) by_) as [Hb | Hb];
    destruct (Z.leb_spec (ty * 240 + by_ * 16 - Y) sy);
    destruct (Z.ltb_spec sy (ty * 240 + by_ * 16 - Y + 16));
    cbn [andb]; try reflexivity; exfalso;
    Z.div_mod_to_equations; lia.
Qed.

Lemma fill_at_project_pixel fbuf s m sx sy tx ty bx by_ :
  fill_at (project_pixel fbuf s m sx sy) tx ty bx by_
  = fill_at m tx ty bx by_
    + (if hits_x s tx bx sx && hits_y s ty by_ sy then 1 else 0).
Proof.
  unfold fill_at, hits_x, hits_y. rewrite tile_at_project_pixel.
  case_decide as Hxy.
  - destruct Hxy as [-> ->]. rewrite !Z.eqb_refl. cbn [andb].
    rewrite tile_at_touch, decide_True by done.
    set (t0 := match default None (tile_at m (pixel_tx s sx) (pixel_ty s sy)) with
               | Some t => t
               | None => new_Tile (pixel_tx s sx) (pixel_ty s sy)
               end).
    assert (E0 : match tile_at m (pixel_tx s sx) (pixel_ty s sy) with
                 | Some (Some t) => fill t bx by_
                 | _ => 0
                 end = fill t0 bx by_).
    { unfold t0. destruct (tile_at m (pixel_tx s sx) (pixel_ty s sy)) as [[t |] |];
        reflexivity. }
    rewrite E0.
    change (match Some (default None (tile_at m (pixel_tx s sx) (pixel_ty s sy))) with
            | Some (Some t) => t
            | _ => new_Tile (pixel_tx s sx) (pixel_ty s sy)
            end) with t0.
    generalize t0. intros t.
    unfold write_pixel. cbn [fill]. unfold upd2.
    rewrite (Z.eqb_sym bx), (Z.eqb_sym by_).
    destruct (_ =? bx) eqn:Ex; [| cbn [andb]; lia].
    destruct (_ =? by_) eqn:Ey; cbn [andb]; [| lia].
    apply Z.eqb_eq in Ex, Ey. rewrite Ex, Ey. reflexivity.
  - assert (Hf : (pixel_tx s sx =? tx) && (pixel_ty s sy =? ty) = false).
    { destruct (Z.eqb_spec (pixel_tx s sx) tx) as [<- |]; [| reflexivity].
      destruct (Z.eqb_spec (pixel_ty s sy) ty) as [<- |]; [| reflexivity].
      exfalso. apply Hxy. split; reflexivity. }
    replace (_ && _ && _) with false; [lia |].
    symmetry.
    destruct (pixel_tx s sx =? tx); [| reflexivity].
    destruct (pixel_ty s sy =? ty); [discriminate |].
    cbn [andb]. apply andb_false_r.
Qed.

Lemma project_pixels_counts fbuf s m tx ty bx by_ :
  0 <= bx < 16 -> 0 <= by_ < 15 ->
  fill_at (project_pixels fbuf s m) tx ty bx by_
  = fill_at m tx ty bx by_
    + overlap (pad_l (total (pad s))) (256 - pad_r (total (pad s))) (block_sx s tx bx)
      * overlap (pad_t (total (pad s))) (240 - pad_b (total (pad s))) (block_sy s ty by_).
Proof.
  intros Hbx Hby. unfold project_pixels. cbv zeta.
  set (ys := range (pad_t (total (pad s))) (240 - pad_b (total (pad s)))).
  set (xs := range (pad_l (total (pad s))) (256 - pad_r (total (pad s)))).
  set (cy := sum_of (fun sy => if hits_y s ty by_ sy then 1 else 0) ys).
  rewrite (foldl_sum _ (fun m => fill_at m tx ty bx by_)
             (fun sx => (if hits_x s tx bx sx then 1 else 0) * cy)).
  - rewrite sum_of_scale. f_equal.
    assert (Ex : sum_of (fun sx => if hits_x s tx bx sx then 1 else 0) xs
                 = overlap (pad_l (total (pad s))) (256 - pad_r (total (pad s)))
                     (block_sx s tx bx)).
    { rewrite (sum_of_ext _ (fun z => if (block_sx s tx bx <=? z)
                                         && (z <? block_sx s tx bx + 16)
                                      then 1 else 0))
        by (intros x _; rewrite hits_x_interval by exact Hbx; reflexivity).
      unfold xs, range. rewrite sum_of_interval. unfold overlap. f_equal. f_equal. lia. }
    assert (Ey : cy = overlap (pad_t (total (pad s))) (240 - pad_b (total (pad s)))
                        (block_sy s ty by_)).
    { unfold cy.
      rewrite (sum_of_ext _ (fun z => if (block_sy s ty by_ <=? z)
                                         && (z <? block_sy s ty by_ + 16)
                                      then 1 else 0))
        by (intros x _; rewrite hits_y_interval by exact Hby; reflexivity).
      unfold ys, range. rewrite sum_of_interval. unfold overlap. f_equal. f_equal. lia. }
    rewrite Ex, Ey. reflexivity.
  - intros a sx _.
    rewrite (foldl_sum _ (fun m => fill_at m tx ty bx by_)
               (fun sy => if hits_x s tx bx sx && hits_y s ty by_ sy then 1 else 0)).
    + f_equal. destruct (hits_x s tx bx sx); cbn [andb].
      * unfold cy. lia.
      * rewrite (sum_of_ext _ (fun sy => 0 * 0)) by reflexivity.
        rewrite (sum_of_scale (fun _ => 0) 0). lia.
    + intros a' sy _. apply fill_at_project_pixel.
Qed.

(** *** Loop 1) stores the frame *)

Lemma dest_x_eq s sx :
  u32 ((scroll_x (scroll s) - pixel_tx s sx * 256) + sx) = dest_x s sx.
Proof. unfold pixel_tx, dest_x. rewrite u32_small; Z.div_mod_to_equations; lia. Qed.

Lemma dest_y_eq s sy :
  u32 ((scroll_y (scroll s) - pixel_ty s sy * 240) + sy) = dest_y s sy.
Proof. unfold pixel_ty, dest_y. rewrite u32_small; Z.div_mod_to_equations; lia. Qed.

Lemma dest_x_range s sx : 0 <= dest_x s sx < 256.
Proof. apply Z.mod_pos_bound. lia. Qed.

Lemma dest_y_range s sy : 0 <= dest_y s sy < 240.
Proof. apply Z.mod_pos_bound. lia. Qed.

Lemma pixel_of_dest_x s sx sx' :
  pixel_tx s sx = pixel_tx s sx' -> dest_x s sx = dest_x s sx' -> sx = sx'.
Proof. unfold pixel_tx, dest_x. intros H1 H2. Z.div_mod_to_equations. lia. Qed.

Lemma pixel_of_dest_y s sy sy' :
  pixel_ty s sy = pixel_ty s sy' -> dest_y s sy = dest_y s sy' -> sy = sy'.
Proof. unfold pixel_ty, dest_y. intros H1 H2. Z.div_mod_to_equations. lia. Qed.

Lemma write_pixel_at fbuf s t sx sy :
  0 <= sx < 256 -> 0 <= sy < 240 ->
  let t' := write_pixel fbuf s t (pixel_tx s sx) (pixel_ty s sy) sx sy in
  (forall k, 0 <= k < 4 ->
     fb_new t' (256 * 4 * dest_y s sy + 4 * dest_x s sx + k)
     = fbuf (256 * 4 * sy + 4 * sx + k)) /\
  (forall i, ~ (256 * 4 * dest_y s sy + 4 * dest_x s sx <= i
                < 256 * 4 * dest_y s sy + 4 * dest_x s sx + 4) ->
     fb_new t' i = fb_new t i).
Proof.
  intros Hsx Hsy.
  pose proof (write_pixel_effect fbuf s t (pixel_tx s sx) (pixel_ty s sy)
                sx sy Hsx Hsy) as H.
  cbv zeta in H. rewrite dest_x_eq, dest_y_eq in H.
  destruct (H (dest_x_range s sx) (dest_y_range s sy)) as (H1 & H2 & _).
  split; assumption.
Qed.

Lemma shows_here fbuf s m sx sy :
  0 <= sx < 256 -> 0 <= sy < 240 ->
  shows fbuf s sx sy (project_pixel fbuf s m sx sy).
Proof.
  intros Hsx Hsy. unfold shows. rewrite tile_at_project_pixel, decide_True by done.
  eexists. split; [reflexivity |].
  apply write_pixel_at; assumption.
Qed.

Lemma shows_kept fbuf s m sx sy sx' sy' :
  0 <= sx' < 256 -> 0 <= sy' < 240 ->
  shows fbuf s sx sy m -> shows fbuf s sx sy (project_pixel fbuf s m sx' sy').
Proof.
  intros Hsx Hsy (t & Ht & Hpx). unfold shows. rewrite tile_at_project_pixel.
  case_decide as Hxy; [| exists t; split; assumption].
  destruct Hxy as [Ex Ey].
  rewrite tile_at_touch, decide_True by done.
  rewrite <- Ex, <- Ey, Ht. cbn [default].
  eexists. split; [reflexivity |].
  rewrite Ex, Ey.
  destruct (write_pixel_at fbuf s t sx' sy' Hsx Hsy) as [Hin Hout].
  intros k Hk.
  pose proof (dest_x_range s sx). pose proof (dest_x_range s sx').
  pose proof (dest_y_range s sy). pose proof (dest_y_range s sy').
  destruct (decide (dest_x s sx = dest_x s sx' /\ dest_y s sy = dest_y s sy'))
    as [[Edx Edy] | Hne].
  - rewrite (pixel_of_dest_x s sx sx' Ex Edx), (pixel_of_dest_y s sy sy' Ey Edy).
    apply Hin, Hk.
  - rewrite Hout by lia. apply Hpx, Hk.
Qed.

Lemma foldl_each_in {A B : Type} (f : A -> B -> A) (Q : B -> A -> Prop) (l : list B) :
  (forall a x, x ∈ l -> Q x (f a x)) ->
  (forall a x y, x ∈ l -> Q y a -> Q y (f a x)) ->
  forall a x, x ∈ l -> Q x (foldl f a l).
Proof.
  induction l as [| z l IH]; intros Hhere Hkept a x Hx.
  - apply elem_of_nil in Hx. destruct Hx.
  - cbn [foldl]. apply elem_of_cons in Hx. destruct Hx as [-> | Hx].
    + apply (foldl_inv _ (Q z)).
      * intros a' y Hy Ha'. apply Hkept; [right; exact Hy | exact Ha'].
      * apply Hhere. left.
    + apply IH; [| | exact Hx].
      * intros a' y Hy. apply Hhere. right. exact Hy.
      * intros a' y y' Hy. apply Hkept. right. exact Hy.
Qed.

Lemma project_pixels_shows fbuf s m sx sy :
  total_nonneg s -> in_window s sx sy -> shows fbuf s sx sy (project_pixels fbuf s m).
Proof.
  intros Hnn [Hx Hy]. unfold project_pixels. cbv zeta.
  assert (Hscreen : forall x y,
            x ∈ range (pad_l (total (pad s))) (256 - pad_r (total (pad s))) ->
            y ∈ range (pad_t (total (pad s))) (240 - pad_b (total (pad s))) ->
            0 <= x < 256 /\ 0 <= y < 240).
  { intros x y Hx' Hy'. apply elem_of_range in Hx', Hy'.
    apply (window_in_screen s x y Hnn). split; assumption. }
  apply (foldl_each_in _ (fun x m => shows fbuf s x sy m)).
  - intros a x Hx'.
    apply (foldl_each_in _ (fun y m => shows fbuf s x y m)).
    + intros a' y Hy'. destruct (Hscreen x y Hx' Hy'). apply shows_here; assumption.
    + intros a' y y' Hy' Hs. destruct (Hscreen x y Hx' Hy').
      apply shows_kept; assumption.
    + apply elem_of_range. exact Hy.
  - intros a x x' Hx' Hs.
    apply (foldl_inv _ (shows fbuf s x' sy)); [| exact Hs].
    intros a' y Hy' Hs'. destruct (Hscreen x y Hx' Hy'). apply shows_kept; assumption.
  - apply elem_of_range. exact Hx.
Qed.

(** X16: loop 1) adds to the counter of every block the number of pixels
    of the block that are inside the padded screen, the product of the
    overlaps of the block with the screen in x and in y; and for every
    source pixel of the padded screen it leaves the four bytes of the pixel
    in [fb_new] of the tile of the pixel, at its destination. *)
Theorem loop1_counts_and_stores fbuf s m :
  total_nonneg s ->
  (forall tx ty bx by_, 0 <= bx < 16 -> 0 <= by_ < 15 ->
     fill_at (project_pixels fbuf s m) tx ty bx by_
     = fill_at m tx ty bx by_
       + overlap (pad_l (total (pad s))) (256 - pad_r (total (pad s)))
                 (block_sx s tx bx)
         * overlap (pad_t (total (pad s))) (240 - pad_b (total (pad s)))
                   (block_sy s ty by_)) /\
  (forall sx sy, in_window s sx sy ->
     exists t, tile_at (project_pixels fbuf s m) (pixel_tx s sx) (pixel_ty s sy)
               = Some (Some t) /\
       forall k, 0 <= k < 4 ->
         fb_new t (256 * 4 * dest_y s sy + 4 * dest_x s sx + k)
         = fbuf (256 * 4 * sy + 4 * sx + k)).
Proof.
  intros Hnn. split.
  - intros tx ty bx by_ Hbx Hby. apply project_pixels_counts; assumption.
  - intros sx sy Hw. apply (project_pixels_shows fbuf s m sx sy Hnn Hw).
Qed.

(** X16 with the view at (300, -50): 12 of the 16 columns of the block
    (2, 12) of the tile (2, -1) are on screen, and all its rows. *)
Lemma loop1_counts_and_stores_witness :
  fill_at (project_pixels ramp scrolled_view ∅) 2 (-1) 2 12 = 12 * 16.
Proof.
  destruct (loop1_counts_and_stores ramp scrolled_view ∅) as [Hc _];
    [unfold total_nonneg; cbn; lia |].
  rewrite Hc by lia. reflexivity.
Defined.

(** *** What the commit of a block does *)

Lemma copy_pixel_fb bx by_ t x y i :
  0 <= bx < 16 -> 0 <= by_ < 15 -> 0 <= x < 16 -> 0 <= y < 16 ->
  fb (copy_pixel bx by_ t x y) i
  = if (block_byte bx by_ x y 0 <=? i) && (i <? block_byte bx by_ x y 4)
    then fb_new t i else fb t i.
Proof.
  intros Hbx Hby Hx Hy. unfold copy_pixel, block_byte. cbn [fb].
  rewrite (u32_small (256 * 4 * (by_ * 16 + y) + 4 * (bx * 16 + x))) by lia.
  rewrite !(u32_small (256 * 4 * (by_ * 16 + y) + 4 * (bx * 16 + x) + _)) by lia.
  unfold upd.
  repeat match goal with
         | |- context [?a =? ?b] => destruct (Z.eqb_spec a b)
         end;
    destruct (Z.leb_spec (256 * 4 * (by_ * 16 + y) + 4 * (bx * 16 + x) + 0) i);
    destruct (Z.ltb_spec i (256 * 4 * (by_ * 16 + y) + 4 * (bx * 16 + x) + 4));
    cbn [andb]; try lia; try reflexivity; subst; reflexivity.
Qed.

Lemma copy_pixel_fb_new bx by_ t x y : fb_new (copy_pixel bx by_ t x y) = fb_new t.
Proof. reflexivity. Qed.

Lemma copy_pixel_done bx by_ t x y : done (copy_pixel bx by_ t x y) = done t.
Proof. reflexivity. Qed.

Lemma copy_pixel_agrees bx by_ t x y i :
  agrees t i -> agrees (copy_pixel bx by_ t x y) i.
Proof.
  unfold agrees, copy_pixel, upd. cbn [fb fb_new]. intros Ha.
  repeat match goal with
         | |- context [?a =? ?b] => destruct (Z.eqb_spec a b)
         end; try (subst; reflexivity). exact Ha.
Qed.

Lemma copy_pixel_agrees_here bx by_ t x y k :
  0 <= bx < 16 -> 0 <= by_ < 15 -> 0 <= x < 16 -> 0 <= y < 16 -> 0 <= k < 4 ->
  agrees (copy_pixel bx by_ t x y) (block_byte bx by_ x y k).
Proof.
  intros Hbx Hby Hx Hy Hk. unfold agrees.
  rewrite copy_pixel_fb, copy_pixel_fb_new by assumption.
  unfold block_byte.
  destruct (Z.leb_spec (256 * 4 * (by_ * 16 + y) + 4 * (bx * 16 + x) + 0)
              (256 * 4 * (by_ * 16 + y) + 4 * (bx * 16 + x) + k)); [| lia].
  destruct (Z.ltb_spec (256 * 4 * (by_ * 16 + y) + 4 * (bx * 16 + x) + k)
              (256 * 4 * (by_ * 16 + y) + 4 * (bx * 16 + x) + 4)); [| lia].
  reflexivity.
Qed.

Lemma copy_block_inv bx by_ (I : Tile -> Prop) t :
  (forall t x y, 0 <= x < 16 -> 0 <= y < 16 -> I t -> I (copy_pixel bx by_ t x y)) ->
  I t -> I (copy_block bx by_ t).
Proof.
  intros Hstep Ht. unfold copy_block.
  apply (foldl_inv _ I); [| exact Ht].
  intros t1 x Hx H1. apply (foldl_inv _ I); [| exact H1].
  intros t2 y Hy H2. apply elem_of_range in Hx, Hy. apply Hstep; assumption.
Qed.

Lemma copy_block_agrees bx by_ t x y k :
  0 <= bx < 16 -> 0 <= by_ < 15 -> 0 <= x < 16 -> 0 <= y < 16 -> 0 <= k < 4 ->
  agrees (copy_block bx by_ t) (block_byte bx by_ x y k).
Proof.
  intros Hbx Hby Hx Hy Hk. unfold copy_block.
  apply (foldl_each _
    (fun x t' => 0 <= x < 16 -> agrees t' (block_byte bx by_ x y k)))
    with (x := x); [| | apply elem_of_range; lia | exact Hx].
  - intros t1 x1 Hx1.
    apply (foldl_each _
      (fun y t' => 0 <= y < 16 -> agrees t' (block_byte bx by_ x1 y k)))
      with (x := y); [| | apply elem_of_range; lia | exact Hy].
    + intros t2 y2 Hy2. apply copy_pixel_agrees_here; assumption.
    + intros t2 y1 y2 H2 Hy2. apply copy_pixel_agrees, H2, Hy2.
  - intros t1 x1 x2 H1 Hx2.
    apply (foldl_inv _ (fun t' => agrees t' (block_byte bx by_ x2 y k)));
      [| apply H1, Hx2].
    intros t2 y1 _ H2. apply copy_pixel_agrees, H2.
Qed.

Lemma copy_block_outside bx by_ t i :
  0 <= bx < 16 -> 0 <= by_ < 15 ->
  ~ in_block bx by_ i -> fb (copy_block bx by_ t) i = fb t i.
Proof.
  intros Hbx Hby Hout.
  apply (copy_block_inv bx by_ (fun t' => fb t' i = fb t i)); [| reflexivity].
  intros t1 x y Hx Hy H1. rewrite copy_pixel_fb by assumption.
  destruct (Z.leb_spec (block_byte bx by_ x y 0) i) as [Hlo |]; [| exact H1].
  destruct (Z.ltb_spec i (block_byte bx by_ x y 4)) as [Hhi |]; [| exact H1].
  exfalso. apply Hout. exists x, y, (i - block_byte bx by_ x y 0).
  unfold block_byte in *. repeat split; lia.
Qed.

Lemma commit_block_unfold t bx by_ :
  commit_block t bx by_
  = (fun t1 => mkTile (tile_x t1) (tile_y t1) (done t1) (upd2 (fill t1) bx by_ 0)
                      (fb t1) (fb_new t1))
      (if fill t bx by_ =? 256
       then copy_block bx by_
              (mkTile (tile_x t) (tile_y t) (upd2 (done t) bx by_ true)
                      (fill t) (fb t) (fb_new t))
       else t).
Proof. reflexivity. Qed.

(** The body of the block loop of 2): it always resets the counter of the
    block and touches no other counter; when the counter is 256 it marks the
    block done and copies the bytes of the block, and no others, from
    [fb_new] to [fb]; when it is not, [fb] and [done] are unchanged. *)
Lemma commit_block_effect t bx by_ :
  0 <= bx < 16 -> 0 <= by_ < 15 ->
  let t' := commit_block t bx by_ in
  fill t' bx by_ = 0 /\
  (forall i j, (i, j) <> (bx, by_) -> fill t' i j = fill t i j) /\
  fb_new t' = fb_new t /\
  (fill t bx by_ = 256 ->
     done t' bx by_ = true /\
     (forall i j, (i, j) <> (bx, by_) -> done t' i j = done t i j) /\
     (forall i, in_block bx by_ i -> fb t' i = fb_new t i) /\
     (forall i, ~ in_block bx by_ i -> fb t' i = fb t i)) /\
  (fill t bx by_ <> 256 -> fb t' = fb t /\ done t' = done t).
Proof.
  intros Hbx Hby. cbv zeta.
  split; [rewrite fill_commit_block; apply upd2_same |].
  split; [intros i j Hne; rewrite fill_commit_block; apply upd2_other, Hne |].
  rewrite commit_block_unfold.
  destruct (Z.eqb_spec (fill t bx by_) 256) as [E | E].
  - set (t0 := mkTile (tile_x t) (tile_y t) (upd2 (done t) bx by_ true)
                      (fill t) (fb t) (fb_new t)).
    assert (Hnew : fb_new (copy_block bx by_ t0) = fb_new t).
    { apply (copy_block_inv bx by_ (fun t' => fb_new t' = fb_new t));
        [intros t1 x y _ _ H1; exact H1 | reflexivity]. }
    assert (Hdone : done (copy_block bx by_ t0) = upd2 (done t) bx by_ true).
    { apply (copy_block_inv bx by_
               (fun t' => done t' = upd2 (done t) bx by_ true));
        [intros t1 x y _ _ H1; exact H1 | reflexivity]. }
    assert (Hin : forall i, in_block bx by_ i ->
                    fb (copy_block bx by_ t0) i = fb_new t i).
    { intros i (x & y & k & Hx & Hy & Hk & ->).
      pose proof (copy_block_agrees bx by_ t0 x y k Hbx Hby Hx Hy Hk) as Ha.
      unfold agrees in Ha. rewrite Ha, Hnew. reflexivity. }
    assert (Hout : forall i, ~ in_block bx by_ i ->
                     fb (copy_block bx by_ t0) i = fb t i).
    { intros i Hi. rewrite copy_block_outside by assumption. reflexivity. }
    generalize dependent (copy_block bx by_ t0). intros t1 Hnew Hdone Hin Hout.
    cbn [fb_new fb done].
    split; [exact Hnew |]. split; [| intros Hne; contradiction].
    intros _. rewrite Hdone.
    split; [apply upd2_same |].
    split; [intros i j Hne; apply upd2_other, Hne |].
    split; assumption.
  - cbn [fb_new fb done]. split; [reflexivity |].
    split; [intros E'; contradiction | intros _; split; reflexivity].
Qed.

(** *** Loop 2) on one tile *)

Lemma foldl_once {A B : Type} (f : A -> B -> A) (P Q : A -> Prop) (x : B) (l : list B) :
  NoDup l -> x ∈ l ->
  (forall a y, y ∈ l -> y <> x -> P a -> P (f a y)) ->
  (forall a y, y ∈ l -> y <> x -> Q a -> Q (f a y)) ->
  (forall a, P a -> Q (f a x)) ->
  forall a, P a -> Q (foldl f a l).
Proof.
  induction l as [| z l IH]; intros Hnd Hx HP HQ HPQ a Ha.
  - apply elem_of_nil in Hx. destruct Hx.
  - apply NoDup_cons in Hnd. destruct Hnd as [Hz Hnd]. cbn [foldl].
    destruct (elem_of_cons l x z) as [Hcases _].
    destruct (Hcases Hx) as [-> | Hxl].
    + apply (foldl_inv _ Q).
      * intros a' y Hy Ha'. apply HQ; [right; exact Hy | | exact Ha'].
        intros ->. contradiction.
      * apply HPQ, Ha.
    + apply IH; try assumption.
      * intros a' y Hy. apply HP. right. exact Hy.
      * intros a' y Hy. apply HQ. right. exact Hy.
      * apply HP; [left | | exact Ha]. intros ->. contradiction.
Qed.

Lemma NoDup_range lo hi : NoDup (range lo hi).
Proof. apply NoDup_seqZ. Qed.

Lemma blocks_disjoint bx by_ bx' by_' i :
  0 <= bx < 16 -> 0 <= bx' < 16 ->
  in_block bx by_ i -> in_block bx' by_' i -> bx = bx' /\ by_ = by_'.
Proof.
  intros Hbx Hbx' (x & y & k & Hx & Hy & Hk & ->) (x' & y' & k' & Hx' & Hy' & Hk' & E).
  unfold block_byte in E. lia.
Qed.

Lemma commit_other_pending t bx by_ t' i j :
  0 <= bx < 16 -> 0 <= i < 16 -> 0 <= j < 15 -> (i, j) <> (bx, by_) ->
  block_pending t bx by_ t' -> block_pending t bx by_ (commit_block t' i j).
Proof.
  intros Hbx Hi Hj Hne (Hf & Hn & Hd & Hfb).
  destruct (commit_block_effect t' i j Hi Hj) as (_ & Hfo & Hnew & Hfull & Hpart).
  cbv zeta in *.
  assert (Hne' : (bx, by_) <> (i, j)) by (intros E; apply Hne; symmetry; exact E).
  split; [rewrite Hfo by exact Hne'; exact Hf |].
  split; [rewrite Hnew; exact Hn |].
  destruct (decide (fill t' i j = 256)) as [E | E].
  - destruct (Hfull E) as (_ & Hdo & _ & Hout).
    split; [rewrite Hdo by exact Hne'; exact Hd |].
    intros k Hk. rewrite Hout; [apply Hfb, Hk |].
    intros Hk'. destruct (blocks_disjoint bx by_ i j k Hbx Hi Hk Hk') as [-> ->].
    apply Hne. reflexivity.
  - destruct (Hpart E) as [Efb Edo].
    split; [rewrite Edo; exact Hd |].
    intros k Hk. rewrite Efb. apply Hfb, Hk.
Qed.

Lemma commit_other_committed t bx by_ t' i j :
  0 <= bx < 16 -> 0 <= i < 16 -> 0 <= j < 15 -> (i, j) <> (bx, by_) ->
  block_committed t bx by_ t' -> block_committed t bx by_ (commit_block t' i j).
Proof.
  intros Hbx Hi Hj Hne (Hf & Hn & Hfull' & Hpart').
  destruct (commit_block_effect t' i j Hi Hj) as (_ & Hfo & Hnew & Hfull & Hpart).
  cbv zeta in *.
  assert (Hne' : (bx, by_) <> (i, j)) by (intros E; apply Hne; symmetry; exact E).
  assert (Hkeep : done (commit_block t' i j) bx by_ = done t' bx by_ /\
                  forall k, in_block bx by_ k -> fb (commit_block t' i j) k = fb t' k).
  { destruct (decide (fill t' i j = 256)) as [E | E].
    - destruct (Hfull E) as (_ & Hdo & _ & Hout).
      split; [apply Hdo, Hne' |].
      intros k Hk. apply Hout.
      intros Hk'. destruct (blocks_disjoint bx by_ i j k Hbx Hi Hk Hk') as [-> ->].
      apply Hne. reflexivity.
    - destruct (Hpart E) as [Efb Edo]. rewrite Efb, Edo. split; reflexivity. }
  destruct Hkeep as [Kd Kfb].
  split; [rewrite Hfo by exact Hne'; exact Hf |].
  split; [rewrite Hnew; exact Hn |].
  split.
  - intros E. destruct (Hfull' E) as [H1 H2].
    split; [rewrite Kd; exact H1 |]. intros k Hk. rewrite Kfb by exact Hk. apply H2, Hk.
  - intros E. destruct (Hpart' E) as [H1 H2].
    split; [rewrite Kd; exact H1 |]. intros k Hk. rewrite Kfb by exact Hk. apply H2, Hk.
Qed.

Lemma commit_here t bx by_ t' :
  0 <= bx < 16 -> 0 <= by_ < 15 ->
  block_pending t bx by_ t' -> block_committed t bx by_ (commit_block t' bx by_).
Proof.
  intros Hbx Hby (Hf & Hn & Hd & Hfb).
  destruct (commit_block_effect t' bx by_ Hbx Hby) as (Hz & _ & Hnew & Hfull & Hpart).
  cbv zeta in *.
  split; [exact Hz |]. split; [rewrite Hnew; exact Hn |].
  split.
  - intros E. rewrite <- Hf in E. destruct (Hfull E) as (Hdo & _ & Hin & _).
    split; [exact Hdo |]. intros k Hk. rewrite Hin by exact Hk. rewrite Hn. reflexivity.
  - intros E. rewrite <- Hf in E. destruct (Hpart E) as [Efb Edo].
    split; [rewrite Edo; exact Hd |]. intros k Hk. rewrite Efb. apply Hfb, Hk.
Qed.

Lemma commit_tile_block t bx by_ :
  0 <= bx < 16 -> 0 <= by_ < 15 -> block_committed t bx by_ (commit_tile t).
Proof.
  intros Hbx Hby. unfold commit_tile.
  apply (foldl_once _ (block_pending t bx by_) (block_committed t bx by_) bx).
  - apply NoDup_range.
  - apply elem_of_range. exact Hbx.
  - intros a i Hi Hne Ha. apply elem_of_range in Hi.
    apply (foldl_inv _ (block_pending t bx by_)); [| exact Ha].
    intros a' j Hj Ha'. apply elem_of_range in Hj.
    apply commit_other_pending; try assumption. congruence.
  - intros a i Hi Hne Ha. apply elem_of_range in Hi.
    apply (foldl_inv _ (block_committed t bx by_)); [| exact Ha].
    intros a' j Hj Ha'. apply elem_of_range in Hj.
    apply commit_other_committed; try assumption. congruence.
  - intros a Ha.
    apply (foldl_once _ (block_pending t bx by_) (block_committed t bx by_) by_).
    + apply NoDup_range.
    + apply elem_of_range. exact Hby.
    + intros a' j Hj Hne Ha'. apply elem_of_range in Hj.
      apply commit_other_pending; try assumption. congruence.
    + intros a' j Hj Hne Ha'. apply elem_of_range in Hj.
      apply commit_other_committed; try assumption. congruence.
    + intros a' Ha'. apply commit_here; assumption.
    + exact Ha.
  - repeat split; reflexivity.
Qed.

(** X17: the block loop of 2) resets the counter of every block and keeps
    [fb_new]; a block whose counter is 256 is marked done and gets its bytes
    of [fb] from [fb_new]; a block whose counter is not 256 keeps its [done]
    mark and its bytes of [fb], whatever happens to the other blocks. *)
Theorem commit_tile_commits_full_blocks t bx by_ :
  0 <= bx < 16 -> 0 <= by_ < 15 ->
  let t' := commit_tile t in
  fill t' bx by_ = 0 /\ fb_new t' = fb_new t /\
  (fill t bx by_ = 256 ->
     done t' bx by_ = true /\
     forall x y k, 0 <= x < 16 -> 0 <= y < 16 -> 0 <= k < 4 ->
       fb t' (block_byte bx by_ x y k) = fb_new t (block_byte bx by_ x y k)) /\
  (fill t bx by_ <> 256 ->
     done t' bx by_ = done t bx by_ /\
     forall x y k, 0 <= x < 16 -> 0 <= y < 16 -> 0 <= k < 4 ->
       fb t' (block_byte bx by_ x y k) = fb t (block_byte bx by_ x y k)).
Proof.
  intros Hbx Hby. cbv zeta.
  destruct (commit_tile_block t bx by_ Hbx Hby) as (Hz & Hn & Hfull & Hpart).
  split; [exact Hz |]. split; [exact Hn |]. split.
  - intros E. destruct (Hfull E) as [Hd Hfb]. split; [exact Hd |].
    intros x y k Hx Hy Hk. apply Hfb. exists x, y, k. repeat split; lia.
  - intros E. destruct (Hpart E) as [Hd Hfb]. split; [exact Hd |].
    intros x y k Hx Hy Hk. apply Hfb. exists x, y, k. repeat split; lia.
Qed.

(** X17 on a tile sampled in full. *)
Lemma commit_tile_commits_full_blocks_witness :
  done (commit_tile full_tile) 1 1 = true /\
  fb (commit_tile full_tile) (block_byte 1 1 3 5 2) = ramp (block_byte 1 1 3 5 2).
Proof.
  destruct (commit_tile_commits_full_blocks full_tile 1 1 ltac:(lia) ltac:(lia))
    as (_ & _ & Hfull & _).
  destruct (Hfull eq_refl) as [Hd Hfb].
  split; [exact Hd | apply (Hfb 3 5 2); lia].
Defined.

(** *** Blocks stay done *)

Lemma done_copy_block i j t : done (copy_block i j t) = done t.
Proof.
  apply (copy_block_inv i j (fun t' => done t' = done t));
    [intros t1 x y _ _ H1; exact H1 | reflexivity].
Qed.

Lemma done_commit_block t i j bx by_ :
  done t bx by_ = true -> done (commit_block t i j) bx by_ = true.
Proof.
  intros Hd. rewrite commit_block_unfold.
  pose proof (done_copy_block i j
    (mkTile (tile_x t) (tile_y t) (upd2 (done t) i j true)
            (fill t) (fb t) (fb_new t))) as Hc.
  generalize dependent (copy_block i j
    (mkTile (tile_x t) (tile_y t) (upd2 (done t) i j true)
            (fill t) (fb t) (fb_new t))).
  intros t1 Hc. destruct (fill t i j =? 256); cbv beta; [| exact Hd].
  change (done t1 bx by_ = true). rewrite Hc. change (upd2 (done t) i j true bx by_ = true).
  unfold upd2. destruct (_ && _); [reflexivity | exact Hd].
Qed.

Lemma done_commit_tile t bx by_ :
  done t bx by_ = true -> done (commit_tile t) bx by_ = true.
Proof.
  intros Hd. unfold commit_tile.
  apply (foldl_inv _ (fun t' => done t' bx by_ = true)); [| exact Hd].
  intros t1 i _ H1.
  apply (foldl_inv _ (fun t' => done t' bx by_ = true)); [| exact H1].
  intros t2 j _ H2. apply done_commit_block, H2.
Qed.

Lemma touch_block_done m a b x y bx by_ :
  block_done m x y bx by_ -> block_done (tile_touch m a b) x y bx by_.
Proof.
  intros (t & Ht & Hd). exists t. split; [| exact Hd].
  rewrite tile_at_touch. case_decide as H; [| exact Ht].
  destruct H as [-> ->]. rewrite Ht. reflexivity.
Qed.

Lemma commit_at_block_done m a b x y bx by_ :
  block_done m x y bx by_ -> block_done (commit_at m a b) x y bx by_.
Proof.
  intros (t & Ht & Hd). unfold block_done. rewrite tile_at_commit_at.
  case_decide as H; [| exists t; split; assumption].
  destruct H as [-> ->]. rewrite Ht. cbn.
  eexists. split; [reflexivity | apply done_commit_tile, Hd].
Qed.

Lemma project_pixel_block_done fbuf s m sx sy x y bx by_ :
  block_done m x y bx by_ -> block_done (project_pixel fbuf s m sx sy) x y bx by_.
Proof.
  intros (t & Ht & Hd). unfold block_done. rewrite tile_at_project_pixel.
  case_decide as H; [| exists t; split; assumption].
  destruct H as [-> ->].
  rewrite tile_at_touch, decide_True by done. rewrite Ht.
  eexists. split; [reflexivity | exact Hd].
Qed.

Lemma tile_step_block_done ppu s x y bx by_ :
  block_done (tiles s) x y bx by_ -> block_done (tiles (tile_step ppu s)) x y bx by_.
Proof.
  intros Hd. cbn [tile_step tiles].
  apply (around_inv s tile_touch (fun m => block_done m x y bx by_));
    [intros; apply touch_block_done; assumption |].
  apply (around_inv s commit_at (fun m => block_done m x y bx by_));
    [intros; apply commit_at_block_done; assumption |].
  apply (project_pixels_inv _ s (fun m => block_done m x y bx by_)); [| exact Hd].
  intros; apply project_pixel_block_done; assumption.
Qed.

(** X18: a block that is marked done stays done, in the same tile, through
    every callback but the key that clears the map. *)
Theorem done_blocks_stay_done s es x y bx by_ :
  Forall not_clear es ->
  block_done (tiles s) x y bx by_ ->
  block_done (tiles (run s es)) x y bx by_.
Proof.
  revert s. induction es as [| e es IH]; intros s Hnc Hd; [exact Hd |].
  rewrite run_cons. apply Forall_cons in Hnc. destruct Hnc as [He Hes].
  apply IH; [exact Hes |].
  pose proof (handle_tiles_other s e) as H.
  destruct e as [addr val | ppu addr val | latch en | ppu | menu key sh];
    try (rewrite H; exact Hd).
  - apply tile_step_block_done, Hd.
  - destruct menu; [rewrite H; exact Hd |].
    destruct key; try (rewrite H; exact Hd). destruct He.
Qed.

(** X18 across two frames and a scroll write. *)
Lemma done_blocks_stay_done_witness :
  block_done
    (tiles (run one_block_done
              [EvFrameEnd blank_view; EvWriteEnd latch_x PPUSCROLL 246;
               EvFrameEnd blank_view]))
    0 0 1 0.
Proof.
  apply done_blocks_stay_done.
  - repeat constructor.
  - eexists. split; [reflexivity | reflexivity].
Defined.

(** *** A frame captures the blocks that are fully on screen *)

Lemma tile_at_commit_blocks_near s m x y :
  near s x y ->
  tile_at (commit_blocks s m) x y = Some (commit_tile <$> default None (tile_at m x y)).
Proof.
  intros [Hx Hy]. unfold commit_blocks. rewrite around_unfold. cbv zeta.
  generalize dependent (scroll_x (scroll s) `div` 256). intros tx Hx.
  generalize dependent (scroll_y (scroll s) `div` 240). intros ty Hy.
  rewrite !tile_at_commit_at.
  destruct Hx as [-> | ->], Hy as [-> | ->];
    repeat (case_decide; try lia); reflexivity.
Qed.

Lemma tile_at_commit_blocks_far s m x y :
  ~ near s x y -> tile_at (commit_blocks s m) x y = tile_at m x y.
Proof.
  intros Hfar. unfold commit_blocks. rewrite around_unfold. cbv zeta.
  unfold near in Hfar.
  generalize dependent (scroll_x (scroll s) `div` 256). intros tx.
  generalize dependent (scroll_y (scroll s) `div` 240). intros ty Hfar.
  rewrite !tile_at_commit_at.
  repeat (case_decide; try lia); reflexivity.
Qed.

Lemma tile_at_update_textures s m x y v :
  tile_at m x y = Some v -> tile_at (update_textures s m) x y = Some v.
Proof.
  intros Hv. unfold update_textures.
  apply (around_inv s tile_touch (fun m' => tile_at m' x y = Some v)); [| exact Hv].
  intros m' a b Hm'. rewrite tile_at_touch.
  case_decide as E; [| exact Hm']. destruct E as [<- <-]. rewrite Hm'. reflexivity.
Qed.

Lemma update_textures_tile s m x y t :
  tile_at (update_textures s m) x y = Some (Some t) -> tile_at m x y = Some (Some t).
Proof.
  unfold update_textures.
  apply (around_inv s tile_touch
           (fun m' => tile_at m' x y = Some (Some t) -> tile_at m x y = Some (Some t)));
    [| tauto].
  intros m' a b IH. rewrite tile_at_touch.
  case_decide as E; [| exact IH]. destruct E as [-> ->].
  destruct (tile_at m' a b) as [v |]; cbn [default]; [| discriminate].
  intros H. apply IH. exact H.
Qed.

Lemma project_pixels_far_tile fbuf s m x y :
  total_nonneg s -> ~ near s x y ->
  tile_at (project_pixels fbuf s m) x y = tile_at m x y.
Proof.
  intros Hnn Hfar.
  apply (project_pixels_inv fbuf s (fun m' => tile_at m' x y = tile_at m x y));
    [| reflexivity].
  intros m' sx sy Hw IH. rewrite tile_at_project_pixel.
  case_decide as E; [| exact IH]. destruct E as [-> ->].
  exfalso. apply Hfar.
  destruct (window_in_screen s sx sy Hnn Hw). apply pixel_tile_near; assumption.
Qed.

Lemma project_pixels_done fbuf s m x y bx by_ t :
  tile_at (project_pixels fbuf s m) x y = Some (Some t) ->
  done t bx by_ = true -> block_done m x y bx by_.
Proof.
  revert t.
  apply (project_pixels_inv fbuf s
           (fun m' => forall t, tile_at m' x y = Some (Some t) ->
                        done t bx by_ = true -> block_done m x y bx by_)).
  - intros m' sx sy _ IH t. rewrite tile_at_project_pixel.
    case_decide as E; [| apply IH]. destruct E as [-> ->].
    intros Ht. injection Ht as <-.
    rewrite tile_at_touch, decide_True by done.
    destruct (tile_at m' (pixel_tx s sx) (pixel_ty s sy)) as [[t0 |] |] eqn:E0;
      cbn [default write_pixel done new_Tile]; try discriminate.
    apply (IH t0). reflexivity.
  - intros t Ht Hd. exists t. split; assumption.
Qed.

Lemma fill_at_clear m x y bx by_ :
  fill_clear m -> 0 <= bx < 16 -> 0 <= by_ < 15 -> fill_at m x y bx by_ = 0.
Proof.
  intros Hc Hbx Hby. unfold fill_at.
  destruct (tile_at m x y) as [[t |] |] eqn:E; try reflexivity.
  apply (Hc x y t E); assumption.
Qed.

Lemma overlap_full lo hi a : lo <= a -> a + 16 <= hi -> overlap lo hi a = 16.
Proof. unfold overlap. lia. Qed.

Lemma overlap_range lo hi a : 0 <= overlap lo hi a <= 16.
Proof. unfold overlap. lia. Qed.

Lemma overlap_part lo hi a : ~ (lo <= a /\ a + 16 <= hi) -> overlap lo hi a <= 15.
Proof. unfold overlap. lia. Qed.

Lemma block_in_window_near s tx ty bx by_ :
  total_nonneg s -> 0 <= bx < 16 -> 0 <= by_ < 15 ->
  block_in_window s tx ty bx by_ -> near s tx ty.
Proof.
  intros Hnn Hbx Hby (H1 & H2 & H3 & H4).
  destruct Hnn as (Hl & Hr & Ht & Hb).
  assert (Ex : pixel_tx s (block_sx s tx bx) = tx).
  { unfold pixel_tx, block_sx. Z.div_mod_to_equations. lia. }
  assert (Ey : pixel_ty s (block_sy s ty by_) = ty).
  { unfold pixel_ty, block_sy. Z.div_mod_to_equations. lia. }
  pose proof (pixel_tile_near s (block_sx s tx bx) (block_sy s ty by_)
                ltac:(lia) ltac:(lia)) as H.
  rewrite Ex, Ey in H. exact H.
Qed.

Lemma tile_step_tile_near ppu s x y t :
  near s x y ->
  tile_at (tiles (tile_step ppu s)) x y = Some (Some t) <->
  exists t1, tile_at (project_pixels (framebuff_bgr ppu) s (tiles s)) x y = Some (Some t1)
             /\ t = commit_tile t1.
Proof.
  intros Hnear. cbn [tile_step tiles].
  set (m1 := project_pixels (framebuff_bgr ppu) s (tiles s)).
  pose proof (tile_at_commit_blocks_near s m1 x y Hnear) as Hc.
  split.
  - intros Ht. apply update_textures_tile in Ht. rewrite Hc in Ht.
    destruct (tile_at m1 x y) as [[t1 |] |]; cbn in Ht; try discriminate.
    exists t1. split; [reflexivity | congruence].
  - intros (t1 & Ht1 & ->). apply tile_at_update_textures.
    rewrite Hc, Ht1. reflexivity.
Qed.

Lemma tile_step_tile_far ppu s x y :
  total_nonneg s -> ~ near s x y ->
  forall t, tile_at (tiles (tile_step ppu s)) x y = Some (Some t) ->
            tile_at (tiles s) x y = Some (Some t).
Proof.
  intros Hnn Hfar t. cbn [tile_step tiles]. intros Ht.
  pose proof (update_textures_tile s _ x y t Ht) as Ht1.
  rewrite (tile_at_commit_blocks_far s _ x y Hfar) in Ht1.
  rewrite (project_pixels_far_tile _ s _ x y Hnn Hfar) in Ht1. exact Ht1.
Qed.

(** The frame-level statements, for the state [s] the tile updates start
    from. *)
Lemma tile_step_captures ppu s tx ty bx by_ :
  total_nonneg s -> fill_clear (tiles s) ->
  0 <= bx < 16 -> 0 <= by_ < 15 ->
  block_in_window s tx ty bx by_ ->
  exists t, tile_at (tiles (tile_step ppu s)) tx ty = Some (Some t) /\
    done t bx by_ = true /\
    forall x y k, 0 <= x < 16 -> 0 <= y < 16 -> 0 <= k < 4 ->
      fb t (block_byte bx by_ x y k)
      = framebuff_bgr ppu (256 * 4 * (block_sy s ty by_ + y)
                           + 4 * (block_sx s tx bx + x) + k).
Proof.
  intros Hnn Hclear Hbx Hby Hin.
  pose proof (block_in_window_near s tx ty bx by_ Hnn Hbx Hby Hin) as Hnear.
  destruct Hin as (H1 & H2 & H3 & H4).
  set (fbuf := framebuff_bgr ppu).
  set (m1 := project_pixels fbuf s (tiles s)).
  (* every pixel of the block is shown by loop 1) *)
  assert (Hpx : forall x y, 0 <= x < 16 -> 0 <= y < 16 ->
            pixel_tx s (block_sx s tx bx + x) = tx /\
            pixel_ty s (block_sy s ty by_ + y) = ty /\
            dest_x s (block_sx s tx bx + x) = bx * 16 + x /\
            dest_y s (block_sy s ty by_ + y) = by_ * 16 + y /\
            shows fbuf s (block_sx s tx bx + x) (block_sy s ty by_ + y) m1).
  { intros x y Hx Hy.
    split; [unfold pixel_tx, block_sx; Z.div_mod_to_equations; lia |].
    split; [unfold pixel_ty, block_sy; Z.div_mod_to_equations; lia |].
    split; [unfold dest_x, block_sx; Z.div_mod_to_equations; lia |].
    split; [unfold dest_y, block_sy; Z.div_mod_to_equations; lia |].
    apply project_pixels_shows; [exact Hnn |]. unfold in_window. lia. }
  destruct (Hpx 0 0 ltac:(lia) ltac:(lia)) as (Ex0 & Ey0 & _ & _ & (t1 & Ht1 & _)).
  rewrite Ex0, Ey0 in Ht1.
  assert (Hfill : fill t1 bx by_ = 256).
  { pose proof (project_pixels_counts fbuf s (tiles s) tx ty bx by_ Hbx Hby) as Hc.
    fold m1 in Hc. unfold fill_at at 1 in Hc. rewrite Ht1 in Hc.
    rewrite fill_at_clear in Hc by assumption.
    rewrite !overlap_full in Hc by assumption. exact Hc. }
  destruct (commit_tile_block t1 bx by_ Hbx Hby) as (_ & _ & Hfull & _).
  destruct (Hfull Hfill) as [Hdone Hfb].
  exists (commit_tile t1).
  split; [apply tile_step_tile_near; [exact Hnear |]; exists t1; split; [exact Ht1 | reflexivity] |].
  split; [exact Hdone |].
  intros x y k Hx Hy Hk.
  rewrite Hfb by (exists x, y, k; repeat split; lia).
  destruct (Hpx x y Hx Hy) as (Ex & Ey & Edx & Edy & (t2 & Ht2 & Hshow)).
  rewrite Ex, Ey in Ht2. fold m1 in Ht2. rewrite Ht1 in Ht2. injection Ht2 as <-.
  specialize (Hshow k Hk). rewrite Edx, Edy in Hshow.
  unfold block_byte. exact Hshow.
Qed.

Lemma tile_step_done_iff ppu s tx ty bx by_ :
  total_nonneg s -> fill_clear (tiles s) ->
  0 <= bx < 16 -> 0 <= by_ < 15 ->
  block_done (tiles (tile_step ppu s)) tx ty bx by_
  <-> block_done (tiles s) tx ty bx by_ \/ block_in_window s tx ty bx by_.
Proof.
  intros Hnn Hclear Hbx Hby. split.
  - intros (t & Ht & Hd).
    destruct (decide (near s tx ty)) as [Hnear | Hfar].
    + apply (tile_step_tile_near ppu s tx ty t Hnear) in Ht.
      destruct Ht as (t1 & Ht1 & ->).
      destruct (decide (block_in_window s tx ty bx by_)) as [Hin | Hout];
        [right; exact Hin | left].
      pose proof (project_pixels_counts (framebuff_bgr ppu) s (tiles s) tx ty bx by_
                    Hbx Hby) as Hc.
      unfold fill_at at 1 in Hc. rewrite Ht1 in Hc.
      rewrite fill_at_clear in Hc by assumption.
      set (cx := overlap (pad_l (total (pad s))) (256 - pad_r (total (pad s)))
                         (block_sx s tx bx)) in *.
      set (cy := overlap (pad_t (total (pad s))) (240 - pad_b (total (pad s)))
                         (block_sy s ty by_)) in *.
      assert (Hlt : fill t1 bx by_ <> 256).
      { pose proof (overlap_range (pad_l (total (pad s))) (256 - pad_r (total (pad s)))
                      (block_sx s tx bx)) as Rx.
        pose proof (overlap_range (pad_t (total (pad s))) (240 - pad_b (total (pad s)))
                      (block_sy s ty by_)) as Ry.
        fold cx in Rx. fold cy in Ry.
        assert (Hsmall : cx <= 15 \/ cy <= 15).
        { destruct (decide (cx <= 15)) as [| Hx]; [left; assumption | right].
          apply overlap_part. intros [Hy1 Hy2]. apply Hout.
          unfold block_in_window.
          assert (Hxin : pad_l (total (pad s)) <= block_sx s tx bx
                         /\ block_sx s tx bx + 16 <= 256 - pad_r (total (pad s))).
          { destruct (decide (pad_l (total (pad s)) <= block_sx s tx bx
                              /\ block_sx s tx bx + 16 <= 256 - pad_r (total (pad s))))
              as [H | H]; [exact H |].
            apply overlap_part in H. fold cx in H. lia. }
          tauto. }
        rewrite Hc. clearbody cx cy. clear - Rx Ry Hsmall. nia. }
      destruct (commit_tile_block t1 bx by_ Hbx Hby) as (_ & _ & _ & Hpart).
      destruct (Hpart Hlt) as [Hsame _]. rewrite Hsame in Hd.
      apply (project_pixels_done (framebuff_bgr ppu) s (tiles s) tx ty bx by_ t1 Ht1 Hd).
    + left. exists t. split; [| exact Hd].
      apply (tile_step_tile_far ppu s tx ty Hnn Hfar t Ht).
  - intros [Hd | Hin].
    + apply tile_step_block_done, Hd.
    + destruct (tile_step_captures ppu s tx ty bx by_ Hnn Hclear Hbx Hby Hin)
        as (t & Ht & Hd & _).
      exists t. split; assumption.
Qed.

(** X28: at every frame end, whatever callbacks came before, every 16 by
    16 block that lies entirely inside the padded screen is captured: its
    tile exists, the block is marked done and [fb] holds the bytes the
    background frame buffer has for the pixels of the block. *)
Theorem frame_captures_full_blocks es ppu tx ty bx by_ :
  let s1 := scroll_step (padding (heuristics ppu (run init es))) in
  0 <= bx < 16 -> 0 <= by_ < 15 ->
  block_in_window s1 tx ty bx by_ ->
  exists t,
    tile_at (tiles (ppu_frame_end_handler ppu (run init es))) tx ty = Some (Some t) /\
    done t bx by_ = true /\
    forall x y k, 0 <= x < 16 -> 0 <= y < 16 -> 0 <= k < 4 ->
      fb t (block_byte bx by_ x y k)
      = framebuff_bgr ppu (256 * 4 * (block_sy s1 ty by_ + y)
                           + 4 * (block_sx s1 tx bx + x) + k).
Proof.
  intros s1 Hbx Hby Hin.
  apply (tile_step_captures ppu s1 tx ty bx by_); try assumption.
  - apply total_nonneg_frame.
  - apply (run_fill_clear es init), fill_clear_empty.
Qed.

(** X28 for the first frame: the block (1, 0) of the tile (0, 0). *)
Lemma frame_captures_full_blocks_witness :
  exists t,
    tile_at (tiles (ppu_frame_end_handler ramp_view init)) 0 0 = Some (Some t) /\
    done t 1 0 = true /\
    fb t (block_byte 1 0 3 5 2) = ramp (256 * 4 * 5 + 4 * 19 + 2).
Proof.
  destruct (frame_captures_full_blocks [] ramp_view 0 0 1 0 ltac:(lia) ltac:(lia))
    as (t & Ht & Hd & Hfb).
  { repeat split; vm_compute; discriminate. }
  exists t. split; [exact Ht |]. split; [exact Hd |].
  apply (Hfb 3 5 2); lia.
Defined.

(** X29: after a frame end a block is marked done exactly when it was
    done before or lies entirely inside the padded screen of the frame; a
    block that is only partly on screen is not committed. *)
Theorem block_is_done_iff es ppu tx ty bx by_ :
  let s1 := scroll_step (padding (heuristics ppu (run init es))) in
  0 <= bx < 16 -> 0 <= by_ < 15 ->
  block_done (tiles (ppu_frame_end_handler ppu (run init es))) tx ty bx by_
  <-> block_done (tiles (run init es)) tx ty bx by_
      \/ block_in_window s1 tx ty bx by_.
Proof.
  intros s1 Hbx Hby.
  apply (tile_step_done_iff ppu s1 tx ty bx by_); try assumption.
  - apply total_nonneg_frame.
  - apply (run_fill_clear es init), fill_clear_empty.
Qed.

(** X29 for the first frame: the block (0, 0) is behind the hidden left
    column and is not done. *)
Lemma block_is_done_iff_witness :
  ~ block_done (tiles (ppu_frame_end_handler ramp_view init)) 0 0 0 0.
Proof.
  intros H.
  destruct (proj1 (block_is_done_iff [] ramp_view 0 0 0 0 ltac:(lia) ltac:(lia)) H)
    as [(t & Ht & _) | (Hl & _)].
  - change (tile_at ∅ 0 0 = Some (Some t)) in Ht.
    rewrite tile_at_empty in Ht. discriminate.
  - vm_compute in Hl. apply Hl. reflexivity.
Defined.

(** *** The scroll of a frame *)

(** X19: the wrap test recovers the motion: when the scroll register
    moves by [k] modulo the period, with |k| at most the threshold and less
    than the period minus the threshold, the corrected delta is [k]. *)
Theorem unwrap_recovers_motion last k thresh period :
  0 < period ->
  0 <= last < period ->
  Z.abs k <= thresh ->
  Z.abs k < period - thresh ->
  unwrap ((last + k) mod period - last) thresh period = k.
Proof.
  intros Hp Hl Hk1 Hk2. unfold unwrap.
  pose proof (Z.mod_pos_bound (last + k) period Hp) as Hm.
  assert (Hq : (last + k) mod period = last + k
               \/ (last + k) mod period = last + k - period
               \/ (last + k) mod period = last + k + period).
  { assert (- period < last + k < 2 * period) by lia.
    pose proof (Z.div_mod (last + k) period ltac:(lia)) as Hd.
    assert ((last + k) / period = 0 \/ (last + k) / period = 1
            \/ (last + k) / period = -1) as [E | [E | E]] by nia;
      rewrite E in Hd; lia. }
  destruct Hq as [E | [E | E]]; rewrite E;
    destruct (Z.ltb_spec thresh (Z.abs (last + k - last)));
    destruct (Z.ltb_spec thresh (Z.abs (last + k - period - last)));
    destruct (Z.ltb_spec thresh (Z.abs (last + k + period - last)));
    repeat match goal with
           | |- context [?a <? 0] => destruct (Z.ltb_spec a 0)
           end; lia.
Qed.

(** X19 for the horizontal scroll: 250 to 3 is +9, 3 to 250 is -9. *)
Lemma unwrap_recovers_motion_witness :
  unwrap ((250 + 9) mod 256 - 250) (256 - fuzz) 256 = 9 /\
  unwrap ((3 + -9) mod 256 - 3) (256 - fuzz) 256 = -9.
Proof.
  split.
  - apply (unwrap_recovers_motion 250 9 (256 - fuzz) 256); unfold fuzz; lia.
  - apply (unwrap_recovers_motion 3 (-9) (256 - fuzz) 256); unfold fuzz; lia.
Defined.

Lemma frame_end_pad ppu s :
  pad (ppu_frame_end_handler ppu s) = pad (padding (heuristics ppu s)).
Proof. reflexivity. Qed.

Lemma frame_end_curr_scroll ppu s :
  curr_scroll (ppu_frame_end_handler ppu s) = curr_scroll (heuristics ppu s).
Proof. reflexivity. Qed.

Lemma frame_end_last_scroll ppu s :
  last_scroll (ppu_frame_end_handler ppu s) = curr_scroll (heuristics ppu s).
Proof.
  change (last_scroll (ppu_frame_end_handler ppu s))
    with (mk_nes_scroll (ns_x (curr_scroll (heuristics ppu s)))
                        (ns_y (curr_scroll (heuristics ppu s)))).
  destruct (curr_scroll (heuristics ppu s)); reflexivity.
Qed.

Lemma frame_end_scroll ppu s :
  let s1 := padding (heuristics ppu s) in
  scroll (ppu_frame_end_handler ppu s)
  = mkScroll (scroll_x (scroll s) + wrapped_dx s1)
             (scroll_y (scroll s) + final_dy s1) (wrapped_dx s1) (final_dy s1).
Proof. reflexivity. Qed.

Lemma int_of_uint_small z :
  -2147483648 <= z < 2147483648 -> int_of_uint z = z.
Proof.
  intros Hz. unfold int_of_uint, u32.
  destruct (Z.ltb_spec (z mod 4294967296) 2147483648) as [H | H];
    Z.div_mod_to_equations; lia.
Qed.

Lemma heuristics_plain ppu s :
  did_change (ppuaddr (h s)) = false -> happened (mmc3_irq (h s)) = false ->
  curr_scroll (heuristics ppu s) = ppuscroll_curr (h s)
  /\ guess (pad (heuristics ppu s))
     = mkPad (if ppumask_m ppu then 0 else 8) (pad_r (guess (pad s)))
             (pad_t (guess (pad s))) (pad_b (guess (pad s)))
  /\ active (ppuaddr (h (heuristics ppu s))) = active (ppuaddr (h s))
  /\ cut_scanline (ppuaddr (h (heuristics ppu s))) = cut_scanline (ppuaddr (h s)).
Proof.
  intros Hc Hh. unfold heuristics. rewrite Hc, Hh.
  cbn [andb h pad guess curr_scroll ppuaddr active cut_scanline].
  destruct (ppuscroll_curr (h s)); repeat split; reflexivity.
Qed.

Lemma unwrap_zero thresh period :
  unwrap 0 thresh period = if thresh <? 0 then - period else 0.
Proof. unfold unwrap. cbn [Z.abs Z.ltb Z.compare]. reflexivity. Qed.

(** X20: a frame in which the scroll register did not move and no
    heuristic fired commits a delta of 0 as long as the thresholds are not
    negative; once the paddings exceed 246 pixels the horizontal threshold is
    negative and the same frame commits -256. *)
Theorem idle_frame ppu s :
  did_change (ppuaddr (h s)) = false -> happened (mmc3_irq (h s)) = false ->
  ppuscroll_curr (h s) = last_scroll s ->
  let s1 := padding (heuristics ppu s) in
  let s' := ppu_frame_end_handler ppu s in
  last_scroll s' = last_scroll s /\
  (0 <= thresh_w s1 ->
     scroll_dx (scroll s') = 0 /\ scroll_x (scroll s') = scroll_x (scroll s)) /\
  (0 <= thresh_h s1 ->
     scroll_dy (scroll s') = 0 /\ scroll_y (scroll s') = scroll_y (scroll s)) /\
  (thresh_w s1 < 0 ->
     scroll_dx (scroll s') = -256 /\
     scroll_x (scroll s') = scroll_x (scroll s) - 256).
Proof.
  intros Hc Hh Hsame s1 s'. subst s'.
  destruct (heuristics_plain ppu s Hc Hh) as (Hcs & _).
  rewrite frame_end_last_scroll, frame_end_scroll, Hcs. fold s1.
  cbn [scroll_dx scroll_dy scroll_x scroll_y].
  assert (Hx : wrapped_dx s1 = if thresh_w s1 <? 0 then -256 else 0).
  { unfold wrapped_dx, raw_dx.
    change (curr_scroll s1) with (curr_scroll (heuristics ppu s)).
    change (last_scroll s1) with (last_scroll (heuristics ppu s)).
    rewrite Hcs, heuristics_last_scroll, Hsame, Z.sub_diag. apply unwrap_zero. }
  assert (Hy : wrapped_dy s1 = if thresh_h s1 <? 0 then -240 else 0).
  { unfold wrapped_dy, raw_dy.
    change (curr_scroll s1) with (curr_scroll (heuristics ppu s)).
    change (last_scroll s1) with (last_scroll (heuristics ppu s)).
    rewrite Hcs, heuristics_last_scroll, Hsame, Z.sub_diag. apply unwrap_zero. }
  split; [exact Hsame |]. rewrite Hx. clearbody s1.
  split; [| split].
  - intros H. destruct (Z.ltb_spec (thresh_w s1) 0); lia.
  - intros H. unfold final_dy. rewrite Hy.
    destruct (Z.ltb_spec (thresh_h s1) 0); [lia |].
    repeat match goal with |- context [if ?b then _ else _] => destruct b end;
      clear; lia.
  - intros H. destruct (Z.ltb_spec (thresh_w s1) 0); lia.
Qed.

(** X20 after the left and right offsets are raised to 128: the
    threshold is -18 and the idle frame scrolls the map by -256. *)
Lemma idle_frame_witness :
  thresh_w (padding (heuristics blank_view wide_pads)) = -18 /\
  scroll_dx (scroll (ppu_frame_end_handler blank_view wide_pads)) = -256 /\
  scroll_x (scroll (ppu_frame_end_handler blank_view wide_pads)) = -256.
Proof.
  assert (Ht : thresh_w (padding (heuristics blank_view wide_pads)) = -18)
    by reflexivity.
  split; [exact Ht |].
  destruct (idle_frame blank_view wide_pads eq_refl eq_refl eq_refl)
    as (_ & _ & _ & Hneg).
  apply Hneg. rewrite Ht. lia.
Defined.

(** *** Register writes and the frame that follows *)







(** *** The MMC3 scanline IRQ *)

Lemma write_end_mmc3_irq w addr v s :
  mmc3_irq (h (ppu_write_end_handler w addr v s)) = mmc3_irq (h s).
Proof.
  unfold ppu_write_end_handler.
  destruct (u16 addr =? PPUSCROLL); [reflexivity |].
  destruct (u16 addr =? PPUADDR); reflexivity.
Qed.

Lemma writes_mmc3_irq ws :
  forall s, Forall is_write ws -> mmc3_irq (h (run s ws)) = mmc3_irq (h s).
Proof.
  induction ws as [| e ws IH]; intros s Hw; [reflexivity |].
  rewrite run_cons. apply Forall_cons in Hw. destruct Hw as [He Hws].
  rewrite IH by exact Hws.
  destruct e; try destruct He; [reflexivity | apply write_end_mmc3_irq].
Qed.

(** X24: after an MMC3 IRQ the frame end pads the top with the IRQ
    scanline when it is in the upper half; otherwise it pads the bottom with
    239 minus the scanline (0 when the IRQ is disabled) and scrolls by the
    PPUSCROLL value at the time of the IRQ, whatever is written to the
    registers afterwards. *)
Theorem mmc3_irq_splits_the_screen s latch (en : bool) ws ppu :
  Forall is_write ws ->
  let line := if en then u8 latch else 239 in
  let s' := ppu_frame_end_handler ppu (run (mmc3_irq_handler latch en s) ws) in
  happened (mmc3_irq (h s')) = false /\
  (line < 120 -> pad_t (guess (pad s')) = line) /\
  (120 <= line ->
     pad_b (guess (pad s')) = 239 - line /\
     curr_scroll s' = ppuscroll_curr (h s) /\
     last_scroll s' = ppuscroll_curr (h s)).
Proof.
  intros Hw line s'. subst s'.
  rewrite frame_end_h, frame_end_pad, frame_end_curr_scroll, frame_end_last_scroll.
  pose proof (writes_mmc3_irq ws (mmc3_irq_handler latch en s) Hw) as Hirq.
  change (mmc3_irq (h (mmc3_irq_handler latch en s)))
    with (mkMmc3Irq true line (ppuscroll_curr (h s))) in Hirq.
  assert (Hline : 0 <= line < 256)
    by (unfold line; destruct en; [apply u8_range | lia]).
  generalize dependent (run (mmc3_irq_handler latch en s) ws). intros s2 Hirq.
  clearbody line.
  unfold heuristics, padding. rewrite Hirq.
  cbn [h pad guess curr_scroll mmc3_irq happened irq_on_scanline scroll_pre_irq].
  change (240 `div` 2) with 120.
  split; [reflexivity |].
  destruct (Z.ltb_spec line 120) as [Hlt | Hge]; cbn [pad_t pad_b].
  - split; [intros _; apply int_of_uint_small; lia | lia].
  - split; [lia |]. intros _.
    split; [apply int_of_uint_small; lia | split; reflexivity].
Qed.

(** X24 for an IRQ on scanline 192 followed by PPUSCROLL writes. *)
Lemma mmc3_irq_splits_the_screen_witness :
  pad_b (guess (pad (ppu_frame_end_handler blank_view
                       (run (mmc3_irq_handler 192 true init) big_scroll)))) = 47 /\
  curr_scroll (ppu_frame_end_handler blank_view
                 (run (mmc3_irq_handler 192 true init) big_scroll))
  = mk_nes_scroll 0 0.
Proof.
  assert (Hw : Forall is_write big_scroll) by (repeat constructor).
  destruct (mmc3_irq_splits_the_screen init 192 true big_scroll blank_view Hw)
    as (_ & _ & Hb).
  change (u8 192) with 192 in Hb.
  destruct (Hb ltac:(lia)) as (Hpad & Hcs & _).
  split; [exact Hpad | exact Hcs].
Defined.

(** *** Key presses *)

(** X25: each offset key is undone by its opposite key with the same
    shift state, and no key but [k] changes the map; the offset keys change
    neither the guessed and total paddings, the scroll nor the heuristics. *)
Theorem offset_keys_undo key sh s :
  key <> SDLK_k ->
  input false (opposite key) sh (input false key sh s) = s
  /\ tiles (input false key sh s) = tiles s
  /\ guess (pad (input false key sh s)) = guess (pad s)
  /\ total (pad (input false key sh s)) = total (pad s)
  /\ scroll (input false key sh s) = scroll s
  /\ h (input false key sh s) = h s.
Proof.
  intros Hk.
  destruct s as [m [g [ol or_ ot ob] t] ls cs sc hs].
  destruct key; try congruence; destruct sh; unfold input, opposite, with_offset;
    cbn; repeat split; try reflexivity; repeat f_equal; lia.
Qed.

(** X25 for [e] and then [3]. *)
Lemma offset_keys_undo_witness :
  input false SDLK_3 false (input false SDLK_e false init) = init /\
  pad_t (offset (pad (input false SDLK_e false init))) = 8.
Proof.
  split; [| reflexivity].
  apply (offset_keys_undo SDLK_e false init). discriminate.
Defined.


(** X27: the first frame after the map is cleared leaves tiles exactly
    where loop 1) writes a pixel. *)
Theorem first_frame_after_clear ppu sh s x y :
  let s1 := input false SDLK_k sh s in
  has_tile (tiles (ppu_frame_end_handler ppu s1)) x y <-> frame_writes ppu s1 x y.
Proof.
  intros s1. split.
  - intros Ht. apply frame_end_has_tile in Ht. destruct Ht as [[t Ht] | Hw]; [| exact Hw].
    unfold s1 in Ht. cbn [input tiles] in Ht. rewrite tile_at_empty in Ht. discriminate.
  - apply frame_end_writes.
Qed.

End WideNESBehaviour.
